(** * goldmark-latex: a shallow embedding of [latex.go] and its properties

    The LaTeX node renderer of [dihedron/goldmark-latex] is a table of
    handlers that the goldmark tree walker calls on entering and on leaving
    each node.  Every handler appends bytes to one output writer.  This file
    embeds the handlers, the escaping engine and the small parsers of
    [latex.go] as executable functions, and states the properties of the
    specification about them.

    Conventions of the embedding:
    - a Go [[]byte] and a Go [string] are both [list byte];
    - a Go [int] is a [Z]; the one place where the source adds two
      caller-supplied ints wraps around at 64 bits ([wrap64]);
    - the writer [w] is the list of bytes written so far, threaded through
      the monad [M]; a Go run-time panic is the outcome [Panicked];
    - library functions the source calls (utf8.DecodeRune, bytes.Contains,
      strings.Split, ...) are modelled in modules named after their Go
      package. *)

From Stdlib Require Import ZArith Lia.
From Stdlib Require Import Strings.String Strings.Byte.
From Stdlib Require Import Numbers.DecimalString Numbers.HexadecimalString.
From Stdlib Require Import Numbers.HexadecimalFacts Numbers.HexadecimalPos Numbers.HexadecimalN.
From stdpp Require Import base option list gmap.

Local Open Scope Z_scope.
Set Warnings "-register-all".

(* ================================================================== *)
(** * Part I: definitions                                              *)
(* ================================================================== *)

(** ** Bytes *)

Abbreviation bytes := (list byte).

(** A string literal of the source as the bytes it denotes. *)
Definition B (s : string) : bytes := list_byte_of_string s.
Arguments B s%_string : simpl never.

(** The line feed, written ['\n'] in the source. *)
Definition LF : byte := x0a.

#[global] Instance byte_eq_dec : EqDecision byte := Byte.byte_eq_dec.
#[global] Instance byte_countable : Countable byte :=
  inj_countable Byte.to_N Byte.of_N Byte.of_to_N.

(** The numeric value of a byte. *)
Definition byteZ (b : byte) : Z := Z.of_N (Byte.to_N b).

(** Go's [len]. *)
Definition len {A} (s : list A) : Z := Z.of_nat (length s).

(** ** Outcomes and the writer monad *)

Inductive panic : Type :=
| IndexOutOfRange
| SliceBoundsOutOfRange
| NilDereference
| TypeAssertion.

Inductive outcome (A : Type) : Type :=
| Done (a : A) (w : bytes)
| Panicked (p : panic).
Arguments Done {A} a w.
Arguments Panicked {A} p.

(** A computation that writes to [w]: it receives the bytes written so far
    and either returns a value with the extended output, or panics. *)
Definition M (A : Type) : Type := bytes -> outcome A.

Definition ret {A} (a : A) : M A := fun w => Done a w.

Definition bind {A C} (m : M A) (k : A -> M C) : M C :=
  fun w => match m w with
           | Done a w' => k a w'
           | Panicked p => Panicked p
           end.

Definition throw {A} (p : panic) : M A := fun _ => Panicked p.

Notation "'let*' x := m 'in' k" := (bind m (fun x => k))
  (at level 10, x pattern, m at level 100, k at level 200).
Notation "m ;; k" := (bind m (fun _ => k))
  (at level 100, k at level 200, right associativity).

(** [w.Write(p)] and [w.WriteString(s)]; the source discards their results. *)
Definition Write (p : bytes) : M unit := fun w => Done tt (w ++ p).

(** [w.WriteByte(c)]. *)
Definition WriteByte (c : byte) : M unit := Write [c].

(** [s[lo:hi]] for indices that the caller keeps within [0 <= lo <= hi <= len s]. *)
Definition slice {A} (s : list A) (lo hi : nat) : list A :=
  take (hi - lo) (drop lo s).

(** [s[:hi]] with Go's bounds check. *)
Definition sliceTo {A} (s : list A) (hi : Z) : M (list A) :=
  if (hi <? 0) || (len s <? hi) then throw SliceBoundsOutOfRange
  else ret (take (Z.to_nat hi) s).

(** [t[i]] on a fixed-size array or a slice, with Go's bounds check. *)
Definition index {A} (t : list A) (i : Z) : M A :=
  if i <? 0 then throw IndexOutOfRange
  else match t !! Z.to_nat i with
       | Some x => ret x
       | None => throw IndexOutOfRange
       end.

(** Two's-complement wrap-around of a 64-bit Go [int]. *)
Definition wrap64 (z : Z) : Z := (z + 2 ^ 63) mod 2 ^ 64 - 2 ^ 63.

(** ** The escaping engine *)

(** [escapeTable]: a 256-entry table of substitutions; [None] is the nil
    entry of a byte that is not reserved. *)
Definition escapeTable (b : byte) : option bytes :=
  match b with
  | x5c => Some (B "\textbackslash~")
  | x7e => Some (B "\textasciitilde~")
  | x5e => Some (B "\textasciicircum~")
  | x26 => Some (B "\&")
  | x25 => Some (B "\%")
  | x24 => Some (B "\$")
  | x23 => Some (B "\#")
  | x5f => Some (B "\_")
  | x7b => Some (B "\{")
  | x7d => Some (B "\}")
  | _ => None
  end.

(** The loop of [escapeLaTeX]: [start] is the copy-from cursor, [end_] the
    scan cursor.  One unit of [fuel] is one iteration; the loop needs
    [length s - end_] of them. *)
Fixpoint escapeLoop (fuel : nat) (s : bytes) (start end_ : nat) : M (nat * nat) :=
  match fuel with
  | O => ret (start, end_)
  | S fuel' =>
      match s !! end_ with
      | None => ret (start, end_)            (* end >= len(s): leave the loop *)
      | Some c =>
          match escapeTable c with
          | Some escSeq =>
              Write (slice s start end_) ;;
              Write escSeq ;;
              escapeLoop fuel' s (S end_) (S end_)
          | None => escapeLoop fuel' s start (S end_)
          end
      end
  end.

Definition escapeLaTeX (s : bytes) : M unit :=
  let* (start, end_) := escapeLoop (length s) s 0 0 in
  if (start <? length s)%nat && (end_ <=? length s)%nat
  then Write (slice s start end_)
  else ret tt.

Definition escLink (text : bytes) : M unit := escapeLaTeX text.

(** ** The Go library functions the renderer calls *)

Module GoBytes.

(** [bytes.HasPrefix]. *)
Fixpoint HasPrefix (s prefix : bytes) {struct prefix} : bool :=
  match prefix, s with
  | [], _ => true
  | _ :: _, [] => false
  | p :: prefix', c :: s' => bool_decide (c = p) && HasPrefix s' prefix'
  end.

(** [bytes.HasSuffix]. *)
Definition HasSuffix (s suffix : bytes) : bool :=
  (length suffix <=? length s)%nat
  && bool_decide (drop (length s - length suffix) s = suffix).

(** [bytes.Index]: the offset of the first occurrence of [sep] in [s]. *)
Fixpoint Index (s sep : bytes) : option nat :=
  if HasPrefix s sep then Some O
  else match s with
       | [] => None
       | _ :: s' => S <$> Index s' sep
       end.

(** [bytes.Contains(b, subslice)] is [Index(b, subslice) != -1]. *)
Definition Contains (b subslice : bytes) : bool :=
  match Index b subslice with Some _ => true | None => false end.

End GoBytes.

Module GoStrings.

(** The loop of [strings.Split(s, sep)] for a non-empty [sep]: cut at each
    occurrence of [sep], left to right.  Every cut consumes at least one
    byte, so [length s] iterations are enough. *)
Fixpoint splitLoop (fuel : nat) (s sep : bytes) : list bytes :=
  match fuel with
  | O => [s]
  | S fuel' =>
      match GoBytes.Index s sep with
      | None => [s]
      | Some m => take m s :: splitLoop fuel' (drop (m + length sep) s) sep
      end
  end.

Definition Split (s sep : bytes) : list bytes := splitLoop (length s) s sep.

(** The loop of [strings.ReplaceAll(s, old, new)] for a non-empty [old]. *)
Fixpoint replaceLoop (fuel : nat) (s old new : bytes) : bytes :=
  match fuel with
  | O => s
  | S fuel' =>
      match GoBytes.Index s old with
      | None => s
      | Some j => take j s ++ new ++ replaceLoop fuel' (drop (j + length old) s) old new
      end
  end.

Definition ReplaceAll (s old new : bytes) : bytes :=
  replaceLoop (length s) s old new.

End GoStrings.

Module GoStrconv.

(** [strconv.FormatUint(u, 16)]: lower-case digits, no leading zero. *)
Definition FormatUint16 (u : Z) : bytes :=
  B (HexadecimalString.NilEmpty.string_of_uint (N.to_hex_uint (Z.to_N u))).

End GoStrconv.

Module GoFmt.

(** The verb [%d] on an int. *)
Definition d (z : Z) : bytes :=
  if z <? 0
  then B "-" ++ B (DecimalString.NilEmpty.string_of_uint (N.to_uint (Z.to_N (- z))))
  else B (DecimalString.NilEmpty.string_of_uint (N.to_uint (Z.to_N z))).

Fixpoint joinSpace (l : list bytes) : bytes :=
  match l with
  | [] => []
  | [x] => x
  | x :: l' => x ++ B " " ++ joinSpace l'
  end.

(** The verb [%v] on a [[]byte]: the decimal values between brackets. *)
Definition v (p : bytes) : bytes :=
  B "[" ++ joinSpace (map (fun c => d (byteZ c)) p) ++ B "]".

End GoFmt.

Module GoUnicode.

Definition MaxASCII : Z := 0x7F.

(** [unicode.ToLower].  Runes above [MaxASCII] go through the case tables
    of the Go library, which are the parameter [table]. *)
Definition ToLower (table : Z -> Z) (r : Z) : Z :=
  if r <=? MaxASCII then
    if (0x41 <=? r) && (r <=? 0x5A) then r + (0x61 - 0x41) else r
  else table r.

End GoUnicode.

Module GoUtf8.

Definition RuneError : Z := 0xFFFD.

(** The table [first]: information about the first byte of an encoding.
    [0xF0] is ASCII, [0xF1] is invalid; otherwise the low three bits are
    the size and the high four bits index [acceptRanges]. *)
Definition first (p0 : Z) : Z :=
  if p0 <? 0x80 then 0xF0
  else if p0 <? 0xC2 then 0xF1
  else if p0 <? 0xE0 then 0x02
  else if p0 =? 0xE0 then 0x13
  else if p0 <? 0xED then 0x03
  else if p0 =? 0xED then 0x23
  else if p0 <? 0xF0 then 0x03
  else if p0 =? 0xF0 then 0x34
  else if p0 <? 0xF4 then 0x04
  else if p0 =? 0xF4 then 0x44
  else 0xF1.

(** [acceptRanges]: the bounds of the second byte. *)
Definition acceptRanges (i : Z) : Z * Z :=
  if i =? 1 then (0xA0, 0xBF)
  else if i =? 2 then (0x80, 0x9F)
  else if i =? 3 then (0x90, 0xBF)
  else if i =? 4 then (0x80, 0x8F)
  else (0x80, 0xBF).

Definition at_ (p : bytes) (i : nat) : Z :=
  match p !! i with Some c => byteZ c | None => 0 end.

(** [utf8.DecodeRune]: the first rune of [p] and its width in bytes;
    [(RuneError, 1)] on an invalid encoding, [(RuneError, 0)] on no input. *)
Definition DecodeRune (p : bytes) : Z * Z :=
  let n := len p in
  if n <? 1 then (RuneError, 0) else
  let p0 := at_ p 0 in
  let x := first p0 in
  if x >=? 0xF0 then
    (if Z.testbit x 0 then RuneError else p0, 1)
  else
  let sz := Z.land x 7 in
  let accept := acceptRanges (Z.shiftr x 4) in
  if n <? sz then (RuneError, 1) else
  let b1 := at_ p 1 in
  if (b1 <? fst accept) || (snd accept <? b1) then (RuneError, 1) else
  if sz <=? 2 then
    (Z.lor (Z.shiftl (Z.land p0 0x1F) 6) (Z.land b1 0x3F), 2)
  else
  let b2 := at_ p 2 in
  if (b2 <? 0x80) || (0xBF <? b2) then (RuneError, 1) else
  if sz <=? 3 then
    (Z.lor (Z.lor (Z.shiftl (Z.land p0 0x0F) 12) (Z.shiftl (Z.land b1 0x3F) 6))
           (Z.land b2 0x3F), 3)
  else
  let b3 := at_ p 3 in
  if (b3 <? 0x80) || (0xBF <? b3) then (RuneError, 1) else
  (Z.lor (Z.lor (Z.lor (Z.shiftl (Z.land p0 0x07) 18) (Z.shiftl (Z.land b1 0x3F) 12))
                (Z.shiftl (Z.land b2 0x3F) 6))
         (Z.land b3 0x3F), 4).

End GoUtf8.

(** ** The goldmark tree and its walker *)

Module ast.

(** A segment of the source buffer. *)
Record Segment : Type := mkSegment { Start : nat; Stop : nat; Padding : nat }.

(** [Segment.Value]: the bytes of the segment, after [Padding] spaces.
    The parser only builds segments that lie within the buffer. *)
Definition Value (t : Segment) (buffer : bytes) : bytes :=
  replicate (Padding t) x20 ++ slice buffer (Start t) (Stop t).

Inductive WalkStatus : Type := WalkStop | WalkSkipChildren | WalkContinue.

Inductive AutoLinkType : Type := AutoLinkEmail | AutoLinkURL.

Inductive NodeKind : Type :=
| KindDocument | KindHeading | KindBlockquote | KindCodeBlock
| KindFencedCodeBlock | KindHTMLBlock | KindList | KindListItem
| KindParagraph | KindTextBlock | KindThematicBreak
| KindAutoLink | KindCodeSpan | KindEmphasis | KindImage | KindLink
| KindRawHTML | KindText | KindString
| KindOther.

(** The concrete node types with the attributes the renderer reads.
    [Other] stands for the node types of parser extensions. *)
Inductive Payload : Type :=
| Document
| Heading (Level : Z)
| Blockquote
| CodeBlock (lines : list Segment)
| FencedCodeBlock (Info : option Segment) (lines : list Segment)
| HTMLBlock
| List_ (Marker : byte)
| ListItem
| Paragraph
| TextBlock
| ThematicBreak
| AutoLink (AutoLinkType_ : AutoLinkType) (Protocol : option bytes) (value : Segment)
| CodeSpan
| Emphasis (Level : Z)
| Image (Destination Title : bytes)
| Link (Destination Title : bytes)
| RawHTML
| Text (Segment_ : Segment) (raw softLineBreak hardLineBreak : bool)
| String_ (Value_ : bytes) (code raw : bool)
| Other.

Inductive Node : Type := mkNode (payload : Payload) (children : list Node).

Definition payload (n : Node) : Payload := let 'mkNode p _ := n in p.
Definition children (n : Node) : list Node := let 'mkNode _ cs := n in cs.

Definition Kind (n : Node) : NodeKind :=
  match payload n with
  | Document => KindDocument
  | Heading _ => KindHeading
  | Blockquote => KindBlockquote
  | CodeBlock _ => KindCodeBlock
  | FencedCodeBlock _ _ => KindFencedCodeBlock
  | HTMLBlock => KindHTMLBlock
  | List_ _ => KindList
  | ListItem => KindListItem
  | Paragraph => KindParagraph
  | TextBlock => KindTextBlock
  | ThematicBreak => KindThematicBreak
  | AutoLink _ _ _ => KindAutoLink
  | CodeSpan => KindCodeSpan
  | Emphasis _ => KindEmphasis
  | Image _ _ => KindImage
  | Link _ _ => KindLink
  | RawHTML => KindRawHTML
  | Text _ _ _ _ => KindText
  | String_ _ _ _ => KindString
  | Other => KindOther
  end.

#[global] Instance NodeKind_eq_dec : EqDecision NodeKind.
Proof. solve_decision. Defined.

#[global] Instance WalkStatus_eq_dec : EqDecision WalkStatus.
Proof. solve_decision. Defined.

#[global] Instance AutoLinkType_eq_dec : EqDecision AutoLinkType.
Proof. solve_decision. Defined.

(** A node as a handler sees it: the node with its links to the parent and
    to the next sibling. *)
Record Cursor : Type := mkCursor {
  node : Node;
  Parent : option Node;
  NextSibling : option Node
}.

Definition FirstChild (n : Cursor) : option Node := head (children (node n)).

(** [n.Lines()]: the source lines of a block node. *)
Definition Lines (n : Cursor) : list Segment :=
  match payload (node n) with
  | CodeBlock ls => ls
  | FencedCodeBlock _ ls => ls
  | _ => []
  end.

(** [List.IsOrdered]. *)
Definition IsOrdered (Marker : byte) : bool :=
  bool_decide (Marker = x2e) || bool_decide (Marker = x29).

Fixpoint upToSpace (info : bytes) : bytes :=
  match info with
  | [] => []
  | c :: info' => if bool_decide (c = x20) then [] else c :: upToSpace info'
  end.

(** [FencedCodeBlock.Language]: the info string up to its first space;
    nil when the block has no info string. *)
Definition Language (Info : option Segment) (source : bytes) : option bytes :=
  match Info with
  | None => None
  | Some seg =>
      let info := Value seg source in
      Some (upToSpace info)
  end.

(** [AutoLink.URL] and [AutoLink.Label]. *)
Definition URL (Protocol : option bytes) (value : Segment) (source : bytes) : bytes :=
  match Protocol with
  | Some proto => proto ++ [x3a; x2f; x2f] ++ Value value source
  | None => Value value source
  end.

Definition Label (value : Segment) (source : bytes) : bytes := Value value source.

(** A Go [error]; [None] is nil. *)
Definition error : Type := option bytes.

Definition Walker : Type := Cursor -> bool -> M (WalkStatus * error).

Definition stops (r : WalkStatus * error) : bool :=
  bool_decide (snd r ≠ None) || bool_decide (fst r = WalkStop).

(** The loop of [walkHelper] over the children of a node: [walk] walks one
    child, given the child and its next sibling; the loop ends at the
    first child whose walk stops. *)
Fixpoint walkChildren (walk : Node -> option Node -> M (WalkStatus * error))
    (cs : list Node) : M (option error) :=
  match cs with
  | [] => ret None
  | c :: cs' =>
      let* rc := walk c (head cs') in
      if stops rc then ret (Some (snd rc)) else walkChildren walk cs'
  end.

(** [walkHelper] of [ast.Walk]: call the walker on entering, walk the
    children unless told to skip them, call the walker on leaving; an
    error or [WalkStop] ends the walk. *)
Fixpoint walkHelper (walker : Walker) (parent : option Node) (n : Node)
    (next : option Node) {struct n} : M (WalkStatus * error) :=
  let cur := mkCursor n parent next in
  let* r := walker cur true in
  if stops r then ret r else
  let* stopped :=
    (if bool_decide (fst r ≠ WalkSkipChildren)
     then walkChildren (walkHelper walker (Some n)) (children n)
     else ret None) in
  match stopped with
  | Some err => ret (WalkStop, err)
  | None =>
      let* r := walker cur false in
      if stops r then ret (WalkStop, snd r) else ret (WalkContinue, None)
  end.

Definition Walk (n : Node) (walker : Walker) : M error :=
  let* r := walkHelper walker None n None in ret (snd r).

End ast.

(** ** The renderer *)

Import ast.

(** The configuration.  [Preamble] and [DeclareUnicode] are nil when [None]. *)
Record Renderer : Type := mkRenderer {
  HeadingLevelOffset : Z;
  NoHeadingNumbering : bool;
  Preamble : option bytes;
  Unsafe : bool;
  DeclareUnicode : option (Z -> bytes * bool);
  makeTitle : bool
}.

Definition min (a b : Z) : Z := if a <? b then a else b.
Definition max (a b : Z) : Z := if a >? b then a else b.
Definition bool2int (b : bool) : Z := if b then 1 else 0.

Definition endCmdPrefix : bytes := B "\end".
Definition mailToPrefix : bytes := B ":mailto".
Definition hardBreak : bytes := B "\\" ++ [LF; LF].
Definition codeSpanStart : bytes := B "\texttt{".
Definition blockQuoteStart : bytes :=
  [LF] ++ B "\begin{framed}" ++ [LF] ++ B "\begin{quote}" ++ [LF].
Definition blockQuoteEnd : bytes :=
  B "\end{quote}" ++ [LF] ++ B "\end{framed}" ++ [LF].
Definition hruleCommand : bytes := [LF] ++ B "\hrulefill" ++ [LF].
Definition itemCommand : bytes := B "\item~ ".

Definition headingTable : list (list bytes) :=
  [ [B "\section{"; B "\section*{"];
    [B "\subsection{"; B "\subsection*{"];
    [B "\subsubsection{"; B "\subsubsection*{"];
    [B "\paragraph{"; B "\paragraph*{"];
    [B "\subparagraph{"; B "\subparagraph*{"];
    [B "\textbf{"; B "\textbf{"] ].

Definition supportedLang : gset bytes :=
  list_to_set (map B
    [ "abap"; "acm"; "acmscript"; "acsl"; "ada"; "algol"; "assembler"; "awk";
      "basic"; "clean"; "idl"; "c"; "caml"; "cil"; "cobol"; "comsol"; "csh";
      "bash"; "sh"; "delphi"; "eiffel"; "elan"; "erlang"; "euphoria";
      "fortran"; "gap"; "go"; "gcl"; "gnuplot"; "hansl"; "haskell"; "html";
      "inform"; "java"; "jvmis"; "scala"; "ksh"; "lingo"; "lisp"; "elisp";
      "llvm"; "logo"; "lua"; "make"; "matlab"; "mathematica"; "mercury";
      "metapost"; "miranda"; "mizar"; "ml"; "mupad"; "nastran"; "ocl";
      "octave"; "oz"; "pascal"; "perl"; "php"; "plasm"; "postscript"; "pov";
      "prolog"; "promela"; "pstricks"; "python"; "rexx"; "oorexx"; "reduce";
      "rsl"; "ruby"; "scilab"; "shelxl"; "simula"; "sparql"; "sql"; "swift";
      "tcl"; "s"; "r"; "sas"; "tex"; "vbscript"; "verilog"; "vhdl"; "vrml";
      "xslt"; "ant"; "xml" ]%string).

(** [comment]: a line comment with the fixed prefix tag; [msg] is the
    formatted message. *)
Definition comment (msg : bytes) : M unit :=
  Write (B "% goldmark-latex: " ++ msg ++ [LF]).

(** [p != nil] on a pointer. *)
Definition notNil {A} (p : option A) : bool :=
  match p with Some _ => true | None => false end.

Definition continue_ : M (WalkStatus * error) := ret (WalkContinue, None).
Definition skipChildren : M (WalkStatus * error) := ret (WalkSkipChildren, None).

(** One line of [writeRawLines]. *)
Definition writeRawLine (r : Renderer) (text : bytes) : M unit :=
  if Unsafe r || negb (GoBytes.Contains text endCmdPrefix) then
    Write text
  else
    Write (B "% goldmark-latex: Skipped following line due to possibly unsafe content:"
           ++ [LF] ++ B "%") ;;
    Write text.

Fixpoint writeRawLinesLoop (r : Renderer) (source : bytes) (lines : list Segment)
    : M unit :=
  match lines with
  | [] => ret tt
  | line :: lines' =>
      writeRawLine r (Value line source) ;;
      writeRawLinesLoop r source lines'
  end.

Definition writeRawLines (r : Renderer) (source : bytes) (n : Cursor) : M unit :=
  writeRawLinesLoop r source (Lines n).

Fixpoint writeLinesLoop (source : bytes) (lines : list Segment) : M unit :=
  match lines with
  | [] => ret tt
  | line :: lines' =>
      escapeLaTeX (Value line source) ;;
      writeLinesLoop source lines'
  end.

Definition writeLines (source : bytes) (n : Cursor) : M unit :=
  writeLinesLoop source (Lines n).

(** *** Document *)

Definition unicodeDecl : bytes := B "\DeclareUnicodeCharacter{".
Definition zeropad : bytes := B "00".

(** [uint64(char)] on a rune. *)
Definition uint64 (z : Z) : Z := z mod 2 ^ 64.

(** The directive written for one replaced code point. *)
Definition writeDeclaration (char : Z) (replace : bytes) : M unit :=
  Write unicodeDecl ;;
  let num := GoStrconv.FormatUint16 (uint64 char) in
  let* pad := sliceTo zeropad (2 - (len num - 2)) in
  Write pad ;;
  Write num ;;
  Write (B "}{") ;;
  Write replace ;;
  Write (B "}" ++ [LF]).

(** One iteration of the scan of the source: decode the rune at [i], and
    declare it when it is multi-byte, new and replaced.  Returns the next
    offset and the set of code points seen. *)
Definition declareStep (f : Z -> bytes * bool) (source : bytes) (i : nat)
    (declared : gset Z) : M (nat * gset Z) :=
  let '(char, lchar) := GoUtf8.DecodeRune (drop i source) in
  let i := (i + Z.to_nat lchar)%nat in
  if lchar =? 1 then ret (i, declared)
  else if bool_decide (char ∈ declared) then ret (i, declared)
  else
    let declared := {[char]} ∪ declared in
    let '(replace, ok) := f char in
    if negb ok then ret (i, declared)
    else writeDeclaration char replace ;; ret (i, declared).

(** The scan [for i < n]; every iteration advances [i], so [length source]
    iterations are enough. *)
Fixpoint declareLoop (fuel : nat) (f : Z -> bytes * bool) (source : bytes)
    (i : nat) (declared : gset Z) : M unit :=
  match fuel with
  | O => ret tt
  | S fuel' =>
      if (i <? length source)%nat then
        let* (i', declared') := declareStep f source i declared in
        declareLoop fuel' f source i' declared'
      else ret tt
  end.

Definition renderDocument (defaultPreamble : bytes) (r : Renderer) (source : bytes)
    (n : Cursor) (entering : bool) : M (WalkStatus * error) :=
  if negb entering then
    comment (B "end of document") ;;
    Write ([LF] ++ B "\end{document}" ++ [LF]) ;;
    ret (WalkStop, None)
  else
    comment (B "start of document") ;;
    match Preamble r with
    | None =>
        comment (B "default preamble start") ;;
        Write defaultPreamble ;;
        comment (B "default preamble end")
    | Some p =>
        comment (B "custom preamble start") ;;
        Write p ;;
        comment (B "custom preamble end")
    end ;;
    match DeclareUnicode r with
    | Some f =>
        WriteByte LF ;;
        declareLoop (length source) f source 0 ∅
    | None => ret tt
    end ;;
    Write ([LF] ++ B "\begin{document}" ++ [LF]) ;;
    (if makeTitle r then Write (B "\maketitle" ++ [LF]) else ret tt) ;;
    continue_.

(** *** Blocks *)

Definition renderHeading (r : Renderer) (source : bytes) (node : Cursor)
    (entering : bool) : M (WalkStatus * error) :=
  match payload (ast.node node) with
  | Heading Level =>
      if entering then
        let headingLevel :=
          max 0 (min 6 (wrap64 (wrap64 (HeadingLevelOffset r + Level) - 1))) in
        let* row := index headingTable headingLevel in
        let* start := index row (bool2int (NoHeadingNumbering r)) in
        comment (B "heading start - level " ++ GoFmt.d headingLevel
                 ++ B ", start: " ++ GoFmt.v start) ;;
        Write start ;;
        (if headingLevel >=? 5 then WriteByte LF else ret tt) ;;
        continue_
      else
        Write [x7d; LF] ;;
        comment (B "heading end") ;;
        continue_
  | _ => throw TypeAssertion
  end.

Definition renderBlockquote (source : bytes) (n : Cursor) (entering : bool)
    : M (WalkStatus * error) :=
  (if entering then Write blockQuoteStart else Write blockQuoteEnd) ;;
  continue_.

Definition renderCodeBlock (r : Renderer) (source : bytes) (n : Cursor)
    (entering : bool) : M (WalkStatus * error) :=
  (if entering then
     comment (B "code block start") ;;
     Write (B "\begin{minted}{go}" ++ [LF]) ;;
     WriteByte LF ;;
     writeRawLines r source n
   else
     Write (B "\end{minted}" ++ [LF]) ;;
     comment (B "code block end")) ;;
  continue_.

Definition renderFencedCodeBlock (r : Renderer) (source : bytes) (node : Cursor)
    (entering : bool) : M (WalkStatus * error) :=
  match payload (ast.node node) with
  | FencedCodeBlock Info _ =>
      (if entering then
         comment (B "code fenced block start") ;;
         Write (B "\begin{minted}") ;;
         let language := Language Info source in
         let language :=
           (fun l => take (Z.to_nat (min 10 (len l))) l) <$> language in
         let supported := bool_decide (default [] language ∈ supportedLang) in
         match language with
         | Some l =>
             if supported then Write (B "{" ++ l ++ B "}") else ret tt
         | None => ret tt
         end ;;
         WriteByte LF ;;
         writeRawLines r source node
       else
         Write (B "\end{minted}" ++ [LF]) ;;
         comment (B "code fenced block end")) ;;
      continue_
  | _ => throw TypeAssertion
  end.

Definition renderHTMLBlock (source : bytes) (node : Cursor) (entering : bool)
    : M (WalkStatus * error) :=
  Write ([LF] ++ B "% goldmark-latex: HTML block rendering unsupported, skipped"
         ++ [LF]) ;;
  skipChildren.

Definition renderList (source : bytes) (node : Cursor) (entering : bool)
    : M (WalkStatus * error) :=
  match payload (ast.node node) with
  | List_ Marker =>
      let tag := if IsOrdered Marker then B "enumerate" else B "itemize" in
      (if entering then
         Write ([LF] ++ B "\begin{") ;; Write tag ;; Write (B "}" ++ [LF])
       else
         Write (B "\end{") ;; Write tag ;; Write (B "}" ++ [LF])) ;;
      continue_
  | _ => throw TypeAssertion
  end.

Definition renderListItem (source : bytes) (n : Cursor) (entering : bool)
    : M (WalkStatus * error) :=
  (if entering then Write itemCommand else WriteByte LF) ;;
  continue_.

Definition renderParagraph (source : bytes) (n : Cursor) (entering : bool)
    : M (WalkStatus * error) :=
  (if entering then
     comment (B "paragraph start (type: *ast.Paragraph)") ;;
     match Parent n with
     | None => throw NilDereference
     | Some parent =>
         let pkind := Kind parent in
         if bool_decide (pkind ≠ KindList) && bool_decide (pkind ≠ KindListItem)
         then Write [LF]
         else ret tt
     end
   else
     Write [LF] ;;
     comment (B "paragraph end")) ;;
  continue_.

Definition renderTextBlock (source : bytes) (n : Cursor) (entering : bool)
    : M (WalkStatus * error) :=
  (if negb entering then
     if notNil (NextSibling n) && notNil (FirstChild n)
     then WriteByte LF
     else ret tt
   else ret tt) ;;
  continue_.

Definition renderThematicBreak (source : bytes) (n : Cursor) (entering : bool)
    : M (WalkStatus * error) :=
  (if entering then Write hruleCommand ;; WriteByte LF else ret tt) ;;
  continue_.

(** *** Inlines *)

(** The loop of [haslowerprefix]; [i] advances by the width of the rune
    decoded from [a], which is at least one byte. *)
Fixpoint haslowerprefixLoop (fuel : nat) (table : Z -> Z) (a b : bytes) (n i : Z)
    : bool :=
  match fuel with
  | O => true
  | S fuel' =>
      if i <? n then
        let '(ra, la) := GoUtf8.DecodeRune (drop (Z.to_nat i) a) in
        let '(rb, lb) := GoUtf8.DecodeRune (drop (Z.to_nat i) b) in
        if negb (la =? lb)
           || negb (GoUnicode.ToLower table ra =? GoUnicode.ToLower table rb)
        then false
        else haslowerprefixLoop fuel' table a b n (i + la)
      else true
  end.

Definition haslowerprefix (table : Z -> Z) (a b : bytes) : bool :=
  let n := min (len a) (len b) in
  haslowerprefixLoop (Z.to_nat n) table a b n 0.

Definition renderAutoLink (table : Z -> Z) (source : bytes) (node : Cursor)
    (entering : bool) : M (WalkStatus * error) :=
  match payload (ast.node node) with
  | AutoLink AutoLinkType_ Protocol value =>
      if negb entering then continue_
      else
        let url := URL Protocol value source in
        let label := Label value source in
        Write (B "\href{") ;;
        (if bool_decide (AutoLinkType_ = AutoLinkEmail)
            && haslowerprefix table url mailToPrefix
         then Write (B "mailto:")
         else ret tt) ;;
        escLink url ;;
        Write (B "}{") ;;
        escapeLaTeX label ;;
        WriteByte x7d ;;
        continue_
  | _ => throw TypeAssertion
  end.

(** The loop over the children of a code span. *)
Fixpoint codeSpanChildren (source : bytes) (cs : list Node) : M unit :=
  match cs with
  | [] => ret tt
  | c :: cs' =>
      match payload c with
      | Text segment _ _ _ =>
          let value := Value segment source in
          (if GoBytes.HasSuffix value [LF] then
             escapeLaTeX (slice value 0 (length value - 1)) ;;
             WriteByte x20
           else
             escapeLaTeX value) ;;
          codeSpanChildren source cs'
      | _ => throw TypeAssertion
      end
  end.

Definition renderCodeSpan (source : bytes) (n : Cursor) (entering : bool)
    : M (WalkStatus * error) :=
  if negb entering then
    WriteByte x7d ;;
    continue_
  else
    Write codeSpanStart ;;
    codeSpanChildren source (children (node n)) ;;
    skipChildren.

Definition renderEmphasis (source : bytes) (node : Cursor) (entering : bool)
    : M (WalkStatus * error) :=
  (if entering then
     match payload (ast.node node) with
     | Emphasis Level =>
         let tag :=
           if Level =? 2 then B "\textbf{"
           else if Level =? 3 then B "\emph{"
           else B "\textit{" in
         Write tag
     | _ => throw TypeAssertion
     end
   else WriteByte x7d) ;;
  continue_.

Definition renderLink (IsDangerousURL : bytes -> bool) (r : Renderer)
    (source : bytes) (node : Cursor) (entering : bool) : M (WalkStatus * error) :=
  match payload (ast.node node) with
  | Link Destination _ =>
      (if entering then
         Write (B "\href{") ;;
         (if Unsafe r || negb (IsDangerousURL Destination)
          then escapeLaTeX Destination
          else ret tt) ;;
         Write (B "}{")
       else WriteByte x7d) ;;
      continue_
  | _ => throw TypeAssertion
  end.

(** The body of the loop over the attribute tokens of an image. *)
Definition imageAttribute (path token : bytes) (attributes : gmap bytes bytes)
    : M (gmap bytes bytes) :=
  let t := GoStrings.Split token (B "=") in
  if negb (len t =? 2) then
    Write ([LF] ++ B "% goldmark-latex: image " ++ path
           ++ B " has invalid attribute " ++ token ++ [LF]) ;;
    ret attributes
  else
    let* t0 := index t 0 in
    let* t1 := index t 1 in
    if bool_decide (t0 = B "width") || bool_decide (t0 = B "label") then
      ret (<[t0 := t1]> attributes)
    else if bool_decide (t0 = B "caption") then
      ret (<[B "caption" := GoStrings.ReplaceAll t1 (B "%20") (B " ")]> attributes)
    else
      Write ([LF] ++ B "% goldmark-latex: image " ++ path
             ++ B " has unsupported attribute " ++ t0 ++ [LF]) ;;
      ret attributes.

Fixpoint imageAttributes (path : bytes) (tokens : list bytes)
    (attributes : gmap bytes bytes) : M (gmap bytes bytes) :=
  match tokens with
  | [] => ret attributes
  | token :: tokens' =>
      let* attributes' := imageAttribute path token attributes in
      imageAttributes path tokens' attributes'
  end.

(** [attributes[key]]: the empty string when the key is missing. *)
Definition attr (attributes : gmap bytes bytes) (key : bytes) : bytes :=
  default [] (attributes !! key).

Definition TAB : byte := x09.

(** The figure block, a fixed template over the path and the attributes. *)
Definition figure (path : bytes) (attributes : gmap bytes bytes) : bytes :=
  B "\begin{figure}[h]" ++ [LF; TAB] ++ B "\centering" ++ [LF; TAB]
  ++ B "\includegraphics[width=" ++ attr attributes (B "width")
  ++ B "\textwidth]{" ++ path ++ B "}" ++ [LF; TAB]
  ++ B "\caption{" ++ attr attributes (B "caption") ++ B "}" ++ [LF; TAB]
  ++ B "\label {" ++ attr attributes (B "label") ++ B "}" ++ [LF]
  ++ B "\end{figure}" ++ [LF].

Definition renderImage (source : bytes) (node : Cursor) (entering : bool)
    : M (WalkStatus * error) :=
  if negb entering then continue_
  else
    match payload (ast.node node) with
    | Image Destination Title =>
        Write ([LF] ++ B "% goldmark-latex: destination: " ++ Destination
               ++ B ", title: " ++ Title ++ B " " ++ [LF]) ;;
        let tokens := GoStrings.Split Destination (B "?") in
        let* path := index tokens 0 in
        let* attributes :=
          (if len tokens >? 1 then
             let* query := index tokens 1 in
             imageAttributes path (GoStrings.Split query (B "&")) ∅
           else ret ∅) in
        Write (figure path attributes) ;;
        skipChildren
    | _ => throw TypeAssertion
    end.

Definition renderRawHTML (source : bytes) (node : Cursor) (entering : bool)
    : M (WalkStatus * error) :=
  Write ([LF] ++ B "% goldmark-latex: raw HTML rendering unsupported" ++ [LF]) ;;
  skipChildren.

Definition renderText (source : bytes) (node : Cursor) (entering : bool)
    : M (WalkStatus * error) :=
  if negb entering then continue_
  else
    match payload (ast.node node) with
    | Text Segment_ raw softLineBreak hardLineBreak =>
        let segment := Value Segment_ source in
        (if raw then Write segment
         else
           escapeLaTeX segment ;;
           if hardLineBreak then Write hardBreak
           else if softLineBreak then WriteByte LF
           else ret tt) ;;
        continue_
    | _ => throw TypeAssertion
    end.

Definition renderString (source : bytes) (node : Cursor) (entering : bool)
    : M (WalkStatus * error) :=
  if negb entering then continue_
  else
    match payload (ast.node node) with
    | String_ Value_ code raw =>
        (if code || raw then Write Value_ else escapeLaTeX Value_) ;;
        continue_
    | _ => throw TypeAssertion
    end.

(** *** The dispatch table and the render pass *)

(** What lies outside [latex.go]: the embedded file [defaultPreamble.tex],
    the case tables of Go's [unicode] package for runes above ASCII, and
    goldmark's [html.IsDangerousURL]. *)
Record Extern : Type := mkExtern {
  defaultPreamble : bytes;
  caseTable : Z -> Z;
  IsDangerousURL : bytes -> bool
}.

(** [RegisterFuncs]: the handler registered for each node kind. *)
Definition RegisterFuncs (ext : Extern) (r : Renderer) (kind : NodeKind)
    : option (bytes -> Cursor -> bool -> M (WalkStatus * error)) :=
  match kind with
  | KindDocument => Some (renderDocument (defaultPreamble ext) r)
  | KindHeading => Some (renderHeading r)
  | KindBlockquote => Some renderBlockquote
  | KindCodeBlock => Some (renderCodeBlock r)
  | KindFencedCodeBlock => Some (renderFencedCodeBlock r)
  | KindHTMLBlock => Some renderHTMLBlock
  | KindList => Some renderList
  | KindListItem => Some renderListItem
  | KindParagraph => Some renderParagraph
  | KindTextBlock => Some renderTextBlock
  | KindThematicBreak => Some renderThematicBreak
  | KindAutoLink => Some (renderAutoLink (caseTable ext))
  | KindCodeSpan => Some renderCodeSpan
  | KindEmphasis => Some renderEmphasis
  | KindImage => Some renderImage
  | KindLink => Some (renderLink (IsDangerousURL ext) r)
  | KindRawHTML => Some renderRawHTML
  | KindText => Some renderText
  | KindString => Some renderString
  | KindOther => None
  end.

(** The walker goldmark's [Render] builds over the registered handlers: a
    kind without a handler continues. *)
Definition dispatch (ext : Extern) (r : Renderer) (source : bytes) : Walker :=
  fun n entering =>
    match RegisterFuncs ext r (Kind (node n)) with
    | Some f => f source n entering
    | None => continue_
    end.

(** A render pass: walk the tree from [n] into an empty writer. *)
Definition Render (ext : Extern) (r : Renderer) (source : bytes) (n : Node)
    : outcome error :=
  Walk n (dispatch ext r source) [].

(** ** Definitions the properties are stated with *)

(** The reserved bytes: backslash, tilde, caret, ampersand, percent, dollar,
    hash, underscore, open brace, close brace. *)
Definition reserved : list byte :=
  [x5c; x7e; x5e; x26; x25; x24; x23; x5f; x7b; x7d].
Definition substitution (b : byte) : bytes := default [b] (escapeTable b).
Definition escaped (s : bytes) : bytes := flat_map substitution s.

(** What a code-block line becomes in the output. *)
Definition skippedLine : bytes :=
  B "% goldmark-latex: Skipped following line due to possibly unsafe content:"
  ++ [LF] ++ B "%".
Definition rawLine (unsafe : bool) (text : bytes) : bytes :=
  if unsafe then text
  else if GoBytes.Contains text endCmdPrefix then skippedLine ++ text
  else text.

(** The language argument of a fenced block: the declared tag, cut to ten
    bytes, between braces when it is a supported language. *)
Definition fencedArgument (Info : option Segment) (source : bytes) : bytes :=
  match Language Info source with
  | Some l =>
      let l := take 10 l in
      if bool_decide (l ∈ supportedLang) then B "{" ++ l ++ B "}" else []
  | None => []
  end.

(** The heading index as the specification words it: the level, made
    0-based and shifted by the offset, clamped into the six table rows. *)
Definition clamp (x lo hi : Z) : Z := Z.max lo (Z.min hi x).
Definition effectiveLevel (level offset : Z) : Z := clamp (level - 1 + offset) 0 5.

(** The index [renderHeading] computes. *)
Definition headingLevel (r : Renderer) (Level : Z) : Z :=
  max 0 (min 6 (wrap64 (wrap64 (HeadingLevelOffset r + Level) - 1))).

(** The runes of a buffer with their widths, decoded left to right; every
    rune takes at least one byte, so [fuel] is the length of the buffer. *)
Fixpoint decodeAll (fuel : nat) (p : bytes) : list (Z * Z) :=
  match fuel with
  | O => []
  | S fuel' =>
      match p with
      | [] => []
      | _ :: _ =>
          let r := GoUtf8.DecodeRune p in
          r :: decodeAll fuel' (drop (Z.to_nat (snd r)) p)
      end
  end.

Definition runes (source : bytes) : list (Z * Z) := decodeAll (length source) source.

(** The code points of the runes that are not one byte wide. *)
Definition multiByte (rs : list (Z * Z)) : list Z :=
  fst <$> filter (λ r, snd r ≠ 1) rs.

Definition nonASCII (source : bytes) : list Z := multiByte (runes source).

(** The elements of [l] outside [seen], each at its first occurrence. *)
Fixpoint firstOccurrences (seen : list Z) (l : list Z) : list Z :=
  match l with
  | [] => []
  | c :: l' =>
      if bool_decide (c ∈ seen) then firstOccurrences seen l'
      else c :: firstOccurrences (c :: seen) l'
  end.

(** A code point with its replacement, when the function replaces it. *)
Definition replaced (f : Z -> bytes * bool) (c : Z) : option (Z * bytes) :=
  if snd (f c) then Some (c, fst (f c)) else None.

(** The declarations of a source: its distinct multi-byte code points in
    the order of their first occurrence, those that are replaced. *)
Definition declarations (f : Z -> bytes * bool) (source : bytes) : list (Z * bytes) :=
  omap (replaced f) (firstOccurrences [] (nonASCII source)).

(** Writing one directive after the other. *)
Fixpoint writeDeclarations (ds : list (Z * bytes)) : M unit :=
  match ds with
  | [] => ret tt
  | d :: ds' => writeDeclaration (fst d) (snd d) ;; writeDeclarations ds'
  end.

(** The text of a directive: the code point in hexadecimal, padded with
    zeros to four digits, and the replacement. *)
Definition directive (char : Z) (replace : bytes) : bytes :=
  let num := GoStrconv.FormatUint16 (uint64 char) in
  unicodeDecl ++ take (4 - length num) zeropad ++ num
  ++ B "}{" ++ replace ++ B "}" ++ [LF].

(** A text node over a segment of the source. *)
Definition textNode (t : Segment * (bool * bool * bool)) : Node :=
  let '(seg, (raw, soft, hard)) := t in mkNode (Text seg raw soft hard) [].

(** What [renderCodeSpan] writes for the text of one child. *)
Definition codeSpanSegment (value : bytes) : bytes :=
  if GoBytes.HasSuffix value [LF]
  then escaped (slice value 0 (length value - 1)) ++ [x20]
  else escaped value.

(** The text of a code span as the specification words it: the segments as
    they are, without escaping, the last one with its trailing newline
    replaced by a space. *)
Definition collapseNewline (value : bytes) : bytes :=
  if GoBytes.HasSuffix value [LF]
  then slice value 0 (length value - 1) ++ [x20]
  else value.

Fixpoint codeSpanVerbatim (values : list bytes) : bytes :=
  match values with
  | [] => []
  | [value] => collapseNewline value
  | value :: values' => value ++ codeSpanVerbatim values'
  end.

(** Two bytes are ASCII and equal up to the case of a letter. *)
Definition sameFold (x y : byte) : Prop :=
  byteZ x < 0x80 ∧ byteZ y < 0x80
  ∧ GoUnicode.ToLower (λ r, r) (byteZ x) = GoUnicode.ToLower (λ r, r) (byteZ y).

(** An email autolink over the whole source. *)
Definition emailLink (source : bytes) : Cursor :=
  mkCursor (mkNode (AutoLink AutoLinkEmail None (mkSegment 0 (length source) 0)) [])
           None None.

(** The pieces of [s] between the occurrences of the byte [c]. *)
Fixpoint pieces (c : byte) (s : bytes) : list bytes :=
  match s with
  | [] => [[]]
  | x :: s' =>
      if bool_decide (x = c) then [] :: pieces c s'
      else match pieces c s' with
           | p :: ps => (x :: p) :: ps
           | [] => [[x]]
           end
  end.

(** The pieces put together again around [c]. *)
Fixpoint joined (c : byte) (ps : list bytes) : bytes :=
  match ps with
  | [] => []
  | [p] => p
  | p :: ps' => p ++ c :: joined c ps'
  end.

(** What one attribute token does to the attributes and which diagnostic
    comment it adds to the output. *)
Definition parseAttribute (path token : bytes) (attributes : gmap bytes bytes)
    : gmap bytes bytes * bytes :=
  match pieces x3d token with
  | [key; value] =>
      if bool_decide (key = B "width") || bool_decide (key = B "label") then
        (<[key := value]> attributes, [])
      else if bool_decide (key = B "caption") then
        (<[B "caption" := GoStrings.ReplaceAll value (B "%20") (B " ")]> attributes, [])
      else
        (attributes,
         [LF] ++ B "% goldmark-latex: image " ++ path
         ++ B " has unsupported attribute " ++ key ++ [LF])
  | _ =>
      (attributes,
       [LF] ++ B "% goldmark-latex: image " ++ path
       ++ B " has invalid attribute " ++ token ++ [LF])
  end.

Fixpoint parseAttributes (path : bytes) (tokens : list bytes)
    (attributes : gmap bytes bytes) : gmap bytes bytes * bytes :=
  match tokens with
  | [] => (attributes, [])
  | token :: tokens' =>
      let '(attributes', diagnostic) := parseAttribute path token attributes in
      let '(attributes'', diagnostics) := parseAttributes path tokens' attributes' in
      (attributes'', diagnostic ++ diagnostics)
  end.

(** The attribute tokens of a destination: the pieces between [&] of the
    text between its first and its second [?]. *)
Definition imageTokens (Destination : bytes) : list bytes :=
  match pieces x3f Destination with
  | _ :: query :: _ => pieces x26 query
  | _ => []
  end.

Definition imagePath (Destination : bytes) : bytes :=
  default [] (head (pieces x3f Destination)).

(** The specification's reading of a destination: cut once, at the first
    [?]; all that follows is the query string. *)
Definition cutFirst (c : byte) (s : bytes) : bytes * option bytes :=
  match GoBytes.Index s [c] with
  | Some i => (take i s, Some (drop (S i) s))
  | None => (s, None)
  end.

Definition imageTokensFirst (Destination : bytes) : list bytes :=
  match snd (cutFirst x3f Destination) with
  | Some query => pieces x26 query
  | None => []
  end.

(** What the image handler writes before the diagnostics. *)
Definition imageHeader (Destination Title : bytes) : bytes :=
  [LF] ++ B "% goldmark-latex: destination: " ++ Destination
  ++ B ", title: " ++ Title ++ B " " ++ [LF].

(** The output of the image handler for a path and attribute tokens. *)
Definition imageOutput (Destination Title path : bytes) (tokens : list bytes) : bytes :=
  let '(attributes, diagnostics) := parseAttributes path tokens ∅ in
  imageHeader Destination Title ++ diagnostics ++ figure path attributes.

(** The body markers of the document envelope. *)
Definition beginDocument : bytes := [LF] ++ B "\begin{document}" ++ [LF].
Definition endDocument : bytes := [LF] ++ B "\end{document}" ++ [LF].

(** [m], when it returns, has appended some bytes [out] to the writer and
    returns a value [a] with [P a out]. *)
Definition Yields {A} (P : A -> bytes -> Prop) (m : M A) : Prop :=
  ∀ w a w', m w = Done a w' → ∃ out, w' = w ++ out ∧ P a out.

(** What every handler invocation that returns satisfies: the error is nil,
    and [WalkStop] is the answer of the exit of a Document node, which has
    then written the end marker last. *)
Definition handlerPost (n : Cursor) (entering : bool)
    (res : WalkStatus * error) (out : bytes) : Prop :=
  snd res = None
  ∧ (fst res = WalkStop ↔ Kind (node n) = KindDocument ∧ entering = false)
  ∧ (fst res = WalkStop → ∃ o, out = o ++ endDocument).

(** What a walk that returns satisfies: the error is nil, and a walk that
    was stopped has written the end marker last. *)
Definition walkPost (res : WalkStatus * error) (out : bytes) : Prop :=
  snd res = None ∧ (fst res = WalkStop → ∃ o, out = o ++ endDocument).

Definition childrenPost (stopped : option error) (out : bytes) : Prop :=
  match stopped with
  | Some err => err = None ∧ ∃ o, out = o ++ endDocument
  | None => True
  end.

(** A computation that only has to append. *)
Definition Appends {A} (m : M A) : Prop := Yields (λ _ _, True) m.

(** A handler computation that, when it returns, returns a nil error and
    does not stop the walk. *)
Definition GoesOn (m : M (WalkStatus * error)) : Prop :=
  Yields (λ res _, snd res = None ∧ fst res ≠ WalkStop) m.


(** The hexadecimal form of [n] has two to four digits. *)
Definition paddable (n : N) : bool :=
  let l := length (GoStrconv.FormatUint16 (uint64 (Z.of_N n))) in
  (2 <=? l)%nat && (l <=? 4)%nat.

(** [paddable] holds of the [fuel] numbers from [n] on. *)
Fixpoint paddableFrom (fuel : nat) (n : N) : bool :=
  match fuel with
  | O => true
  | S fuel' => paddable n && paddableFrom fuel' (N.succ n)
  end.

(** [m] returns, whatever has been written before. *)
Definition Total {A} (m : M A) : Prop := ∀ w, ∃ a w', m w = Done a w'.

Definition isText (n : Node) : Prop :=
  match payload n with Text _ _ _ _ => True | _ => False end.

(** What the handlers need of one node: a heading whose computed index is
    a row of the table, a code span whose children are text nodes. *)
Definition nodeOK (r : Renderer) (p : Payload) (cs : list Node) : Prop :=
  match p with
  | Heading Level => headingLevel r Level <= 5
  | CodeSpan => Forall isText cs
  | _ => True
  end.

(** The trees on which no handler panics. *)
Inductive renderable (r : Renderer) : Node -> Prop :=
| renderable_node (p : Payload) (cs : list Node) :
    nodeOK r p cs → Forall (renderable r) cs → renderable r (mkNode p cs).

(** The sources on which the scan of the Document handler returns: no
    replaced multi-byte code point lies above U+FFFF. *)
Definition scannable (r : Renderer) (source : bytes) : Prop :=
  ∀ f, DeclareUnicode r = Some f →
       ∀ c, c ∈ nonASCII source → snd (f c) = true → c <= 0xFFFF.

(** ** The constructor and its options *)

(** [Option]: an update of the configuration.  The source passes a pointer
    to the renderer and the option assigns one field; here an option maps
    the configuration to the updated one. *)
Definition Option : Type := Renderer -> Renderer.

(** [&Renderer{}]: every field at its zero value. *)
Definition zeroRenderer : Renderer := mkRenderer 0 false None false None false.

(** [NewRenderer]: the options applied in order of appearance. *)
Definition NewRenderer (options : list Option) : Renderer :=
  fold_left (fun r option => option r) options zeroRenderer.

Definition WithMakeTitle (value : bool) : Option :=
  fun r => mkRenderer (HeadingLevelOffset r) (NoHeadingNumbering r) (Preamble r)
                      (Unsafe r) (DeclareUnicode r) value.

Definition WithHeadingLevelOffset (offset : Z) : Option :=
  fun r => mkRenderer offset (NoHeadingNumbering r) (Preamble r)
                      (Unsafe r) (DeclareUnicode r) (makeTitle r).

Definition WithNoHeadingNumbering (nonumbering : bool) : Option :=
  fun r => mkRenderer (HeadingLevelOffset r) nonumbering (Preamble r)
                      (Unsafe r) (DeclareUnicode r) (makeTitle r).

(** The argument is a slice, nil when [None]. *)
Definition WithPreamble (preamble : option bytes) : Option :=
  fun r => mkRenderer (HeadingLevelOffset r) (NoHeadingNumbering r) preamble
                      (Unsafe r) (DeclareUnicode r) (makeTitle r).

Definition WithRenderUnsafeElements (unsafe : bool) : Option :=
  fun r => mkRenderer (HeadingLevelOffset r) (NoHeadingNumbering r) (Preamble r)
                      unsafe (DeclareUnicode r) (makeTitle r).

(** The argument is a function value, nil when [None]. *)
Definition WithUnicodeCharactersMapping (mapping : option (Z -> bytes * bool)) : Option :=
  fun r => mkRenderer (HeadingLevelOffset r) (NoHeadingNumbering r) (Preamble r)
                      (Unsafe r) mapping (makeTitle r).

(** ** Further definitions the properties are stated with *)

(** The bytes that LaTeX reads as syntax and that the escaping engine
    guards with a backslash: ampersand, percent, dollar, hash, underscore
    and the two braces. *)
Definition special : list byte := [x26; x25; x24; x23; x5f; x7b; x7d].

(** Every special byte of [out] stands right after a backslash. *)
Definition guarded (out : bytes) : Prop :=
  ∀ i c, out !! i = Some c → c ∈ special → ∃ j, i = S j ∧ out !! j = Some x5c.

(** Every backslash of [out] is followed by a byte that is not a
    backslash. *)
Definition opened (out : bytes) : Prop :=
  ∀ i, out !! i = Some x5c → ∃ c, out !! S i = Some c ∧ c ≠ x5c.

(** The two properties as checks that run over the bytes; [prev] is the
    byte before. *)
Fixpoint guardedFrom (prev : byte) (l : bytes) : bool :=
  match l with
  | [] => true
  | c :: l' =>
      implb (bool_decide (c ∈ special)) (bool_decide (prev = x5c))
      && guardedFrom c l'
  end.

Fixpoint openedFrom (l : bytes) : bool :=
  match l with
  | [] => true
  | c :: l' =>
      implb (bool_decide (c = x5c))
            (match l' with d :: _ => bool_decide (d ≠ x5c) | [] => false end)
      && openedFrom l'
  end.

(** All bytes of [s] are ASCII. *)
Definition ascii (s : bytes) : Prop := Forall (λ c, byteZ c < 0x80) s.

(** An ASCII byte with an upper-case letter made lower-case. *)
Definition lower (c : byte) : Z := GoUnicode.ToLower (λ r, r) (byteZ c).

(** The number of occurrences of the byte [c] in [s]. *)
Definition occurrences (c : byte) (s : bytes) : nat :=
  length (filter (λ x, x = c) s).

(** The value of a lower-case hexadecimal digit and of a text of such
    digits. *)
Definition hexDigitValue (c : byte) : option N :=
  match c with
  | x30 => Some 0%N | x31 => Some 1%N | x32 => Some 2%N | x33 => Some 3%N
  | x34 => Some 4%N | x35 => Some 5%N | x36 => Some 6%N | x37 => Some 7%N
  | x38 => Some 8%N | x39 => Some 9%N
  | x61 => Some 10%N | x62 => Some 11%N | x63 => Some 12%N
  | x64 => Some 13%N | x65 => Some 14%N | x66 => Some 15%N
  | _ => None
  end.

Definition hexValue (s : bytes) : option N :=
  foldl (λ acc c, match acc, hexDigitValue c with
                  | Some a, Some d => Some (16 * a + d)%N
                  | _, _ => None
                  end) (Some 0%N) s.

(** The digits between the braces of a directive. *)
Definition hexField (char : Z) : bytes :=
  let num := GoStrconv.FormatUint16 (uint64 char) in
  take (4 - length num) zeropad ++ num.

(** The field of [n] has four digits and reads back as [n]. *)
Definition fourDigits (n : N) : bool :=
  (length (hexField (Z.of_N n)) =? 4)%nat
  && bool_decide (hexValue (hexField (Z.of_N n)) = Some n).

(** [p] holds of the [fuel] numbers from [n] on. *)
Fixpoint allFrom (p : N -> bool) (fuel : nat) (n : N) : bool :=
  match fuel with
  | O => true
  | S fuel' => p n && allFrom p fuel' (N.succ n)
  end.

(** The diagnostic comment of the image handler for a token that is not
    one key and one value. *)
Definition invalidAttribute (path token : bytes) : bytes :=
  [LF] ++ B "% goldmark-latex: image " ++ path
  ++ B " has invalid attribute " ++ token ++ [LF].

(** The two comments for content that is not rendered. *)
Definition htmlBlockSkipped : bytes :=
  [LF] ++ B "% goldmark-latex: HTML block rendering unsupported, skipped" ++ [LF].
Definition rawHTMLSkipped : bytes :=
  [LF] ++ B "% goldmark-latex: raw HTML rendering unsupported" ++ [LF].

(** The name of the environment of a list. *)
Definition listTag (Marker : byte) : bytes :=
  if IsOrdered Marker then B "enumerate" else B "itemize".

(** What the Document handler writes on entering (the head, the Unicode
    declarations, the begin marker, the title) and on leaving. *)
Definition documentHead (defaultPreamble : bytes) (r : Renderer) : bytes :=
  (B "% goldmark-latex: start of document" ++ [LF])
  ++ match Preamble r with
     | None => (B "% goldmark-latex: default preamble start" ++ [LF])
               ++ defaultPreamble
               ++ (B "% goldmark-latex: default preamble end" ++ [LF])
     | Some p => (B "% goldmark-latex: custom preamble start" ++ [LF])
                 ++ p
                 ++ (B "% goldmark-latex: custom preamble end" ++ [LF])
     end.
Definition documentDeclarations (r : Renderer) (source : bytes) : bytes :=
  match DeclareUnicode r with
  | None => []
  | Some f => [LF] ++ flat_map (λ d, directive d.1 d.2) (declarations f source)
  end.
Definition documentTitle (r : Renderer) : bytes :=
  if makeTitle r then B "\maketitle" ++ [LF] else [].
Definition documentFoot : bytes :=
  (B "% goldmark-latex: end of document" ++ [LF]) ++ endDocument.

(** A computation whose result and written bytes do not depend on what has
    been written before. *)
Definition Framed {A} (m : M A) : Prop :=
  ∀ w, m w = match m [] with
             | Done a o => Done a (w ++ o)
             | Panicked p => Panicked p
             end.

(** The bytes a computation writes, and whether a handler invocation
    answers [WalkSkipChildren]. *)
Definition written {A} (m : M A) : bytes :=
  match m [] with Done _ o => o | Panicked _ => [] end.

Definition skips (m : M (WalkStatus * error)) : bool :=
  match m [] with
  | Done res _ => bool_decide (fst res = WalkSkipChildren)
  | Panicked _ => false
  end.

(** The rendering of a tree as a function of the tree: what the handler of
    a node writes on entering, the renderings of the children in order
    unless the handler skips them, and what the handler writes on
    leaving. *)
Fixpoint latexChildren (latex : Node -> option Node -> bytes) (cs : list Node)
    : bytes :=
  match cs with
  | [] => []
  | c :: cs' => latex c (head cs') ++ latexChildren latex cs'
  end.

Fixpoint latex (walker : Walker) (parent : option Node) (n : Node)
    (next : option Node) {struct n} : bytes :=
  let cur := mkCursor n parent next in
  written (walker cur true)
  ++ (if skips (walker cur true) then []
      else latexChildren (latex walker (Some n)) (children n))
  ++ written (walker cur false).

(** Trees without a Document node: the subtrees of a document. *)
Inductive documentFree : Node -> Prop :=
| documentFree_node (p : Payload) (cs : list Node) :
    p ≠ Document → Forall documentFree cs → documentFree (mkNode p cs).

(** Trees as the parser builds them below the root: heading levels from 1
    to 6, code spans over text nodes, no Document node. *)
Definition parsedNode (p : Payload) (cs : list Node) : Prop :=
  match p with
  | Document => False
  | Heading Level => 1 <= Level <= 6
  | CodeSpan => Forall isText cs
  | _ => True
  end.

Inductive parsed : Node -> Prop :=
| parsed_node (p : Payload) (cs : list Node) :
    parsedNode p cs → Forall parsed cs → parsed (mkNode p cs).

(** The options that neither raise the heading levels nor install a
    Unicode mapping. *)
Inductive plainOption : Option -> Prop :=
| plain_MakeTitle (value : bool) : plainOption (WithMakeTitle value)
| plain_HeadingLevelOffset (offset : Z) :
    -5 <= offset <= 0 → plainOption (WithHeadingLevelOffset offset)
| plain_NoHeadingNumbering (nonumbering : bool) :
    plainOption (WithNoHeadingNumbering nonumbering)
| plain_Preamble (preamble : option bytes) : plainOption (WithPreamble preamble)
| plain_RenderUnsafeElements (unsafe : bool) :
    plainOption (WithRenderUnsafeElements unsafe)
| plain_NoMapping : plainOption (WithUnicodeCharactersMapping None).

(* ================================================================== *)
(** * Part II: properties                                              *)
(* ================================================================== *)

(** ** The escaping engine *)

Lemma reserved_table (b : byte) :
  bool_decide (b ∈ reserved) = notNil (escapeTable b).
Proof. destruct b; vm_compute; reflexivity. Qed.

Lemma reserved_iff (b : byte) : b ∈ reserved ↔ escapeTable b ≠ None.
Proof.
  pose proof (reserved_table b) as Ht.
  destruct (escapeTable b); simpl in Ht.
  - apply bool_decide_eq_true in Ht. split; [congruence | done].
  - apply bool_decide_eq_false in Ht. split; [done | congruence].
Qed.

Lemma substitution_plain (b : byte) : b ∉ reserved → substitution b = [b].
Proof.
  rewrite reserved_iff. unfold substitution.
  destruct (escapeTable b); simpl; [intros []; congruence | done].
Qed.

Lemma substitution_length (b : byte) : (1 ≤ length (substitution b))%nat.
Proof. destruct b; vm_compute; lia. Qed.

Lemma substitution_multibyte (b : byte) :
  b ∈ reserved → (2 ≤ length (substitution b))%nat.
Proof.
  intros Hb. apply (bool_decide_eq_true_2 _) in Hb. revert Hb.
  destruct b; vm_compute; (discriminate || lia).
Qed.

Lemma escaped_app (s t : bytes) : escaped (s ++ t) = escaped s ++ escaped t.
Proof. apply flat_map_app. Qed.

Lemma escaped_plain (s : bytes) : Forall (λ b, b ∉ reserved) s → escaped s = s.
Proof.
  induction 1 as [|b s Hb _ IH]; [done|].
  unfold escaped in *. simpl. rewrite IH, substitution_plain by done. done.
Qed.

Lemma escaped_length (s : bytes) : (length s ≤ length (escaped s))%nat.
Proof.
  induction s as [|b s IH]; [done|].
  unfold escaped in *. simpl. rewrite length_app.
  pose proof (substitution_length b). lia.
Qed.

Lemma bind_Done {A C} (m : M A) (k : A → M C) w a w' :
  m w = Done a w' → bind m k w = k a w'.
Proof. unfold bind. intros ->. done. Qed.

Lemma slice_mid {A} (pre mid rest : list A) :
  slice (pre ++ mid ++ rest) (length pre) (length pre + length mid) = mid.
Proof.
  unfold slice. rewrite drop_app_length.
  replace (length pre + length mid - length pre)%nat with (length mid) by lia.
  apply take_app_length.
Qed.

Lemma escapeLoop_spec (rest : bytes) :
  ∀ (pre mid : bytes) (fuel : nat) (w : bytes),
    Forall (λ b, escapeTable b = None) mid →
    (length rest ≤ fuel)%nat →
    ∃ start' w',
      escapeLoop fuel (pre ++ mid ++ rest) (length pre) (length pre + length mid) w
        = Done (start', length (pre ++ mid ++ rest)) w'
      ∧ w' ++ drop start' (pre ++ mid ++ rest) = w ++ mid ++ escaped rest.
Proof.
  induction rest as [|c rest IH]; intros pre mid fuel w Hmid Hfuel.
  - exists (length pre), w.
    assert (Hnone : (pre ++ mid ++ []) !! (length pre + length mid)%nat = None).
    { apply lookup_ge_None. rewrite !length_app. simpl. lia. }
    split.
    + destruct fuel; simpl; [|rewrite Hnone]; unfold ret;
        rewrite !length_app; simpl; do 3 f_equal; lia.
    + rewrite drop_app_length. done.
  - destruct fuel as [|fuel]; [simpl in Hfuel; lia|].
    assert (Hc : (pre ++ mid ++ c :: rest) !! (length pre + length mid)%nat = Some c).
    { rewrite app_assoc, lookup_app_r by (rewrite length_app; lia).
      rewrite length_app, Nat.sub_diag. done. }
    simpl escapeLoop. rewrite Hc.
    destruct (escapeTable c) as [escSeq|] eqn:Hesc.
    + rewrite slice_mid.
      destruct (IH (pre ++ mid ++ [c]) [] fuel ((w ++ mid) ++ escSeq))
        as (start' & w' & Hrun & Hout); [done | simpl in Hfuel; lia |].
      exists start', w'.
      replace ((pre ++ mid ++ [c]) ++ [] ++ rest) with (pre ++ mid ++ c :: rest)
        in Hrun, Hout by (simpl; rewrite <- !app_assoc; done).
      replace (length (pre ++ mid ++ [c])) with (S (length pre + length mid))
        in Hrun by (rewrite !length_app; simpl; lia).
      simpl length in Hrun. rewrite Nat.add_0_r in Hrun.
      split.
      * unfold bind, Write. exact Hrun.
      * rewrite Hout. unfold escaped at 2. simpl. unfold substitution at 1.
        rewrite Hesc. simpl. rewrite <- !app_assoc. done.
    + destruct (IH pre (mid ++ [c]) fuel w) as (start' & w' & Hrun & Hout).
      { apply Forall_app; split; [done | by constructor]. }
      { simpl in Hfuel; lia. }
      exists start', w'.
      replace (pre ++ (mid ++ [c]) ++ rest) with (pre ++ mid ++ c :: rest)
        in Hrun, Hout by (rewrite <- !app_assoc; done).
      replace (length pre + length (mid ++ [c]))%nat with (S (length pre + length mid))
        in Hrun by (rewrite length_app; simpl; lia).
      split; [exact Hrun|].
      rewrite Hout. unfold escaped at 2. simpl. unfold substitution at 1.
      rewrite Hesc. simpl. rewrite <- !app_assoc. done.
Qed.

Lemma escapeLaTeX_escaped (s w : bytes) : escapeLaTeX s w = Done tt (w ++ escaped s).
Proof.
  destruct (escapeLoop_spec s [] [] (length s) w) as (start' & w' & Hrun & Hout);
    [done | done |].
  simpl in Hrun, Hout. unfold escapeLaTeX.
  rewrite (bind_Done _ _ _ _ _ Hrun). simpl.
  rewrite Nat.leb_refl, andb_true_r.
  destruct (start' <? length s)%nat eqn:Hlt.
  - unfold Write, slice. rewrite take_ge by (rewrite length_drop; lia).
    rewrite Hout. done.
  - apply Nat.ltb_ge in Hlt. rewrite drop_ge in Hout by done.
    rewrite app_nil_r in Hout. unfold ret. rewrite Hout. done.
Qed.

(** C3: the output of the escaping engine is the concatenation, in order, of
    the fixed substitution of every reserved byte and of every other byte
    itself.  So the output is at least as long as the input, an input with
    no reserved byte is left as it is, and an input with one reserved byte
    [c] between [p] and [q] becomes [p], the substitution of [c], [q]. *)
Theorem escapeLaTeX_substitutes (s w : bytes) :
  escapeLaTeX s w = Done tt (w ++ escaped s)
  ∧ (∀ b, b ∈ reserved ↔ escapeTable b ≠ None)
  ∧ (∀ b, b ∈ reserved →
       escapeTable b = Some (substitution b) ∧ (2 ≤ length (substitution b))%nat)
  ∧ (∀ b, b ∉ reserved → substitution b = [b])
  ∧ (length s ≤ length (escaped s))%nat
  ∧ (Forall (λ b, b ∉ reserved) s → escaped s = s)
  ∧ (∀ p c q, s = p ++ c :: q → c ∈ reserved →
       Forall (λ b, b ∉ reserved) p → Forall (λ b, b ∉ reserved) q →
       escaped s = p ++ substitution c ++ q).
Proof.
  split; [apply escapeLaTeX_escaped|].
  split; [apply reserved_iff|].
  split.
  { intros b Hb. split; [|by apply substitution_multibyte].
    apply reserved_iff in Hb. unfold substitution.
    destruct (escapeTable b); [done | congruence]. }
  split; [apply substitution_plain|].
  split; [apply escaped_length|].
  split; [apply escaped_plain|].
  intros p c q -> Hc Hp Hq.
  rewrite escaped_app. change (c :: q) with ([c] ++ q). rewrite escaped_app.
  rewrite (escaped_plain p), (escaped_plain q) by done.
  unfold escaped. simpl. by rewrite app_nil_r.
Qed.

Lemma escapeLaTeX_substitutes_witness :
  escapeLaTeX (B "a_b") [] = Done tt (B "a\_b")
  ∧ escaped (B "plain text") = B "plain text".
Proof.
  split.
  - destruct (escapeLaTeX_substitutes (B "a_b") []) as (H1 & _ & _ & _ & _ & _ & H7).
    rewrite H1. rewrite (H7 (B "a") x5f (B "b")); [done | done | | |]; compute_done.
  - destruct (escapeLaTeX_substitutes (B "plain text") []) as (_ & _ & _ & _ & _ & H6 & _).
    apply H6. compute_done.
Defined.

(** ** Raw lines of code blocks *)

Lemma HasPrefix_spec (s prefix : bytes) :
  GoBytes.HasPrefix s prefix = true ↔ ∃ q, s = prefix ++ q.
Proof.
  revert s. induction prefix as [|p prefix IH]; intros s; simpl.
  - split; [intros _; by exists s | done].
  - destruct s as [|c s].
    + split; [done | intros [q Hq]; discriminate].
    + rewrite andb_true_iff, bool_decide_eq_true, IH. split.
      * intros [-> [q ->]]. by exists q.
      * intros [q Hq]. injection Hq as -> ->. split; [done | by exists q].
Qed.

Lemma Index_Some (s sep : bytes) (i : nat) :
  GoBytes.Index s sep = Some i → ∃ q, s = take i s ++ sep ++ q ∧ (i ≤ length s)%nat.
Proof.
  revert i. induction s as [|c s IH]; intros i; simpl.
  - destruct (GoBytes.HasPrefix [] sep) eqn:Hp; [|done].
    intros [= <-]. apply HasPrefix_spec in Hp as [q Hq]. exists q. simpl. split; [done|lia].
  - destruct (GoBytes.HasPrefix (c :: s) sep) eqn:Hp.
    + intros [= <-]. apply HasPrefix_spec in Hp as [q Hq]. exists q. simpl. split; [done|lia].
    + destruct (GoBytes.Index s sep) as [j|] eqn:Hj; [|done].
      simpl. intros [= <-]. destruct (IH j eq_refl) as (q & Hq & Hle).
      exists q. simpl. split; [by rewrite <- Hq | lia].
Qed.

Lemma Index_None (s sep : bytes) :
  GoBytes.Index s sep = None → ∀ p q, s ≠ p ++ sep ++ q.
Proof.
  induction s as [|c s IH]; simpl.
  - destruct (GoBytes.HasPrefix [] sep) eqn:Hp; [done|].
    intros _ p q Hs. symmetry in Hs. apply app_eq_nil in Hs as [-> Hs].
    assert (GoBytes.HasPrefix [] sep = true) by (apply HasPrefix_spec; exists q; by rewrite Hs).
    congruence.
  - destruct (GoBytes.HasPrefix (c :: s) sep) eqn:Hp; [done|].
    destruct (GoBytes.Index s sep) eqn:Hj; [done|].
    intros _ p q Hs. destruct p as [|c' p].
    + assert (GoBytes.HasPrefix (c :: s) sep = true) by (apply HasPrefix_spec; by exists q).
      congruence.
    + injection Hs as -> Hs. by apply (IH eq_refl p q).
Qed.

Lemma Contains_spec (b sub : bytes) :
  GoBytes.Contains b sub = true ↔ ∃ p q, b = p ++ sub ++ q.
Proof.
  unfold GoBytes.Contains. destruct (GoBytes.Index b sub) as [i|] eqn:Hi.
  - apply Index_Some in Hi as (q & Hq & _). split; [|done].
    intros _. by exists (take i b), q.
  - split; [done|]. intros (p & q & Hb). by apply (Index_None _ _ Hi p q) in Hb.
Qed.

Lemma writeRawLine_rawLine (r : Renderer) (text w : bytes) :
  writeRawLine r text w = Done tt (w ++ rawLine (Unsafe r) text).
Proof.
  unfold writeRawLine, rawLine.
  destruct (Unsafe r); simpl; [done|].
  destruct (GoBytes.Contains text endCmdPrefix); simpl; [|done].
  unfold bind, Write. by rewrite <- app_assoc.
Qed.

Lemma writeRawLinesLoop_rawLine (r : Renderer) (source : bytes) (lines : list Segment) :
  ∀ w, writeRawLinesLoop r source lines w
       = Done tt (w ++ flat_map (λ line, rawLine (Unsafe r) (Value line source)) lines).
Proof.
  induction lines as [|line lines IH]; intros w; simpl.
  - unfold ret. by rewrite app_nil_r.
  - unfold bind. rewrite writeRawLine_rawLine, IH. by rewrite <- app_assoc.
Qed.

Lemma rawLine_skipped_ne (text : bytes) : skippedLine ++ text ≠ text.
Proof.
  intros H. apply (f_equal length) in H. rewrite length_app in H.
  assert (0 < length skippedLine)%nat by (vm_compute; lia). lia.
Qed.

(** C4: the lines of a code block are written one after the other, each as
    [rawLine] has it: with unsafe mode on, the text as it is; with unsafe
    mode off, the text as it is exactly when it does not contain [\end]
    anywhere, and otherwise the diagnostic comment, which ends in a [%]
    that turns the text after it into a comment.  The test is a substring
    search, and no line goes through the escaping engine. *)
Theorem writeRawLines_filters (r : Renderer) (source : bytes) (n : Cursor) (w : bytes) :
  writeRawLines r source n w
    = Done tt (w ++ flat_map (λ line, rawLine (Unsafe r) (Value line source)) (Lines n))
  ∧ (∀ text, rawLine true text = text)
  ∧ (∀ text, rawLine false text = text ↔ ¬ ∃ p q, text = p ++ B "\end" ++ q)
  ∧ (∀ text, (∃ p q, text = p ++ B "\end" ++ q) →
       rawLine false text = skippedLine ++ text)
  ∧ skippedLine
      = B "% goldmark-latex: Skipped following line due to possibly unsafe content:"
        ++ [LF] ++ B "%".
Proof.
  split; [apply writeRawLinesLoop_rawLine|].
  split; [done|].
  split; [|split; [|done]].
  - intros text. unfold rawLine.
    destruct (GoBytes.Contains text endCmdPrefix) eqn:Hc.
    + split; [intros H; by apply rawLine_skipped_ne in H|].
      intros []. by apply Contains_spec.
    + split; [|done]. intros _ Hex.
      apply (Contains_spec text endCmdPrefix) in Hex. congruence.
  - intros text Hex. unfold rawLine.
    apply (Contains_spec text endCmdPrefix) in Hex. by rewrite Hex.
Qed.

Lemma writeRawLines_filters_witness :
  rawLine false (B "x\end{minted}") = skippedLine ++ B "x\end{minted}".
Proof.
  destruct (writeRawLines_filters (mkRenderer 0 false None false None false) []
              (mkCursor (mkNode Document []) None None) [])
    as (_ & _ & _ & H & _).
  apply H. by exists (B "x"), (B "{minted}").
Defined.

(** ** Code blocks *)

Ltac run :=
  repeat (unfold bind, Write, WriteByte, comment, ret, continue_, skipChildren, throw;
          cbv beta iota).

Lemma renderFencedCodeBlock_enter (r : Renderer) (source : bytes)
    (Info : option Segment) (lines : list Segment) (cs : list Node)
    (parent next : option Node) (w : bytes) :
  renderFencedCodeBlock r source
      (mkCursor (mkNode (FencedCodeBlock Info lines) cs) parent next) true w
    = Done (WalkContinue, None)
        (w ++ (B "% goldmark-latex: code fenced block start" ++ [LF])
           ++ B "\begin{minted}" ++ fencedArgument Info source ++ [LF]
           ++ flat_map (λ line, rawLine (Unsafe r) (Value line source)) lines).
Proof.
  unfold renderFencedCodeBlock, fencedArgument, writeRawLines, Lines.
  cbn [payload node fmap option_fmap option_map default id].
  destruct (Language Info source) as [l|];
    cbn [payload node fmap option_fmap option_map default id].
  - replace (Z.to_nat (min 10 (len l))) with (Nat.min 10 (length l)).
    2:{ unfold min, len. destruct (Z.ltb_spec 10 (Z.of_nat (length l))); lia. }
    replace (take (Nat.min 10 (length l)) l) with (take 10 l).
    2:{ destruct (Nat.le_gt_cases 10 (length l)).
        - by rewrite Nat.min_l.
        - rewrite Nat.min_r, !take_ge by lia. done. }
    destruct (bool_decide (take 10 l ∈ supportedLang)); run;
      rewrite writeRawLinesLoop_rawLine; rewrite <- ?app_assoc; done.
  - run. rewrite writeRawLinesLoop_rawLine. rewrite <- ?app_assoc. done.
Qed.

(** C10: on entering an indented code block the handler writes its start
    comment and then always the opener [\begin{minted}{go}] followed by an
    empty line, whatever the configuration and the lines of the block; the
    lines follow.  The opener of a fenced block depends on its declared
    language: [{python}] for the tag [python], nothing without a tag. *)
Theorem renderCodeBlock_opener (r : Renderer) (source : bytes) (n : Cursor)
    (w : bytes) :
  renderCodeBlock r source n true w
    = Done (WalkContinue, None)
        (w ++ (B "% goldmark-latex: code block start" ++ [LF])
           ++ (B "\begin{minted}{go}" ++ [LF]) ++ [LF]
           ++ flat_map (λ line, rawLine (Unsafe r) (Value line source)) (Lines n))
  ∧ (∀ lines cs parent next,
       renderFencedCodeBlock r (B "python")
           (mkCursor (mkNode (FencedCodeBlock (Some (mkSegment 0 6 0)) lines) cs)
                     parent next) true w
         = Done (WalkContinue, None)
             (w ++ (B "% goldmark-latex: code fenced block start" ++ [LF])
                ++ B "\begin{minted}" ++ B "{python}" ++ [LF]
                ++ flat_map (λ line, rawLine (Unsafe r) (Value line (B "python")))
                     lines))
  ∧ (∀ lines cs parent next,
       renderFencedCodeBlock r source
           (mkCursor (mkNode (FencedCodeBlock None lines) cs) parent next) true w
         = Done (WalkContinue, None)
             (w ++ (B "% goldmark-latex: code fenced block start" ++ [LF])
                ++ B "\begin{minted}" ++ [LF]
                ++ flat_map (λ line, rawLine (Unsafe r) (Value line source)) lines)).
Proof.
  split; [|split].
  - unfold renderCodeBlock, writeRawLines. run.
    rewrite writeRawLinesLoop_rawLine. rewrite <- ?app_assoc. done.
  - intros. rewrite renderFencedCodeBlock_enter.
    replace (fencedArgument (Some (mkSegment 0 6 0)) (B "python")) with (B "{python}")
      by (vm_compute; reflexivity).
    done.
  - intros. rewrite renderFencedCodeBlock_enter. done.
Qed.

(** ** Headings *)

Ltac pow2 :=
  let a := eval vm_compute in (2 ^ 32) in
  let b := eval vm_compute in (2 ^ 63) in
  let c := eval vm_compute in (2 ^ 64) in
  change (2 ^ 32) with a in *; change (2 ^ 63) with b in *;
  change (2 ^ 64) with c in *.

Lemma headingLevel_range (r : Renderer) (Level : Z) :
  0 <= headingLevel r Level <= 6.
Proof.
  unfold headingLevel, max, min.
  repeat match goal with
         | |- context [?a <? ?b] => destruct (Z.ltb_spec a b)
         | |- context [?a >? ?b] => destruct (Z.gtb_spec a b)
         end; lia.
Qed.

Lemma wrap64_small (z : Z) : - 2 ^ 63 <= z < 2 ^ 63 → wrap64 z = z.
Proof. intros Hz. unfold wrap64. pow2. rewrite Z.mod_small; lia. Qed.

(** Away from the overflow of a 64-bit int the computed index is the
    clamp of [level - 1 + offset] into [0, 6]: one more than the table has
    rows. *)
Lemma headingLevel_clamp (r : Renderer) (Level : Z) :
  - 2 ^ 32 <= HeadingLevelOffset r <= 2 ^ 32 → - 2 ^ 32 <= Level <= 2 ^ 32 →
  headingLevel r Level = clamp (Level - 1 + HeadingLevelOffset r) 0 6.
Proof.
  intros Ho Hl. unfold headingLevel, clamp.
  rewrite (wrap64_small (HeadingLevelOffset r + Level)) by (pow2; lia).
  rewrite wrap64_small by (pow2; lia).
  unfold max, min.
  repeat match goal with
         | |- context [?a <? ?b] => destruct (Z.ltb_spec a b)
         | |- context [?a >? ?b] => destruct (Z.gtb_spec a b)
         end; lia.
Qed.

(** Where the shifted level stays below the sixth row, the handler selects
    the row the specification names and writes its command. *)
Lemma renderHeading_in_table (r : Renderer) (source : bytes) (Level : Z)
    (cs : list Node) (parent next : option Node) (w : bytes) :
  - 2 ^ 32 <= HeadingLevelOffset r <= 2 ^ 32 → - 2 ^ 32 <= Level <= 2 ^ 32 →
  Level - 1 + HeadingLevelOffset r <= 5 →
  ∃ row start,
    headingLevel r Level = effectiveLevel Level (HeadingLevelOffset r)
    ∧ headingTable !! Z.to_nat (effectiveLevel Level (HeadingLevelOffset r)) = Some row
    ∧ row !! Z.to_nat (bool2int (NoHeadingNumbering r)) = Some start
    ∧ renderHeading r source (mkCursor (mkNode (Heading Level) cs) parent next) true w
      = Done (WalkContinue, None)
          (w ++ (B "% goldmark-latex: heading start - level "
                 ++ GoFmt.d (effectiveLevel Level (HeadingLevelOffset r))
                 ++ B ", start: " ++ GoFmt.v start ++ [LF])
             ++ start
             ++ (if effectiveLevel Level (HeadingLevelOffset r) >=? 5 then [LF] else [])).
Proof.
  intros Ho Hl Hle.
  assert (Heq : headingLevel r Level = effectiveLevel Level (HeadingLevelOffset r)).
  { rewrite headingLevel_clamp by done. unfold effectiveLevel, clamp. lia. }
  assert (Hr : 0 <= effectiveLevel Level (HeadingLevelOffset r) <= 5)
    by (unfold effectiveLevel, clamp; lia).
  unfold renderHeading. cbn [payload node].
  fold (headingLevel r Level). rewrite Heq.
  set (e := effectiveLevel Level (HeadingLevelOffset r)) in *.
  assert (He : e = 0 ∨ e = 1 ∨ e = 2 ∨ e = 3 ∨ e = 4 ∨ e = 5) by lia.
  destruct (NoHeadingNumbering r);
    destruct He as [-> | [-> | [-> | [-> | [-> | ->]]]]];
    (eexists _, _; split; [reflexivity|]; split; [reflexivity|];
     split; [reflexivity|]);
    unfold index;
    repeat (match goal with
            | |- context [@lookup nat ?A ?L ?I ?i ?t] =>
                let v := eval vm_compute in (@lookup nat A L I i t) in
                change (@lookup nat A L I i t) with v
            | |- context [?a <? ?b] =>
                let v := eval vm_compute in (a <? b) in change (a <? b) with v
            | |- context [?a >=? ?b] =>
                let v := eval vm_compute in (a >=? b) in change (a >=? b) with v
            end; run);
    rewrite <- ?app_assoc; rewrite ?app_nil_r; reflexivity.
Qed.

(** Whenever the computed index is 6 the handler panics on the table. *)
Lemma renderHeading_six (r : Renderer) (source : bytes) (Level : Z) (cs : list Node)
    (parent next : option Node) (w : bytes) :
  headingLevel r Level = 6 →
  renderHeading r source (mkCursor (mkNode (Heading Level) cs) parent next) true w
  = Panicked IndexOutOfRange.
Proof.
  intros H6. unfold renderHeading. cbn [payload node].
  fold (headingLevel r Level). rewrite H6. reflexivity.
Qed.

(** C1: at level 7 with offset 0, and at level 6 with offset 1, the
    specification's index is 5, the bold fallback; the handler computes 6,
    which is outside the six-row command table, and panics. *)
Theorem renderHeading_index_six (source : bytes) (cs : list Node)
    (parent next : option Node) (w : bytes)
    (nonumbering unsafe title : bool) (preamble : option bytes) :
  effectiveLevel 7 0 = 5 ∧ effectiveLevel 6 1 = 5
  ∧ length headingTable = 6%nat
  ∧ headingLevel (mkRenderer 0 nonumbering preamble unsafe None title) 7 = 6
  ∧ headingLevel (mkRenderer 1 nonumbering preamble unsafe None title) 6 = 6
  ∧ renderHeading (mkRenderer 0 nonumbering preamble unsafe None title) source
      (mkCursor (mkNode (Heading 7) cs) parent next) true w
    = Panicked IndexOutOfRange
  ∧ renderHeading (mkRenderer 1 nonumbering preamble unsafe None title) source
      (mkCursor (mkNode (Heading 6) cs) parent next) true w
    = Panicked IndexOutOfRange.
Proof.
  split; [reflexivity|]. split; [reflexivity|]. split; [reflexivity|].
  split; [reflexivity|]. split; [reflexivity|].
  split; by apply renderHeading_six.
Qed.

(** ** Unicode declarations *)

Lemma writeDeclaration_padded (char : Z) (replace w : bytes) :
  (2 ≤ length (GoStrconv.FormatUint16 (uint64 char)) ≤ 4)%nat →
  writeDeclaration char replace w = Done tt (w ++ directive char replace).
Proof.
  intros Hn. unfold writeDeclaration, directive, sliceTo.
  set (num := GoStrconv.FormatUint16 (uint64 char)) in *.
  assert (Hhi : (2 - (len num - 2) <? 0) || (len zeropad <? 2 - (len num - 2)) = false).
  { unfold len. change (length zeropad) with 2%nat.
    apply orb_false_iff. split; apply Z.ltb_ge; lia. }
  run. rewrite Hhi. run.
  replace (Z.to_nat (2 - (len num - 2))) with (4 - length num)%nat
    by (unfold len; lia).
  by rewrite <- !app_assoc.
Qed.

Lemma writeDeclaration_panics (char : Z) (replace w : bytes) :
  (5 ≤ length (GoStrconv.FormatUint16 (uint64 char)))%nat →
  writeDeclaration char replace w = Panicked SliceBoundsOutOfRange.
Proof.
  intros Hn. unfold writeDeclaration, sliceTo.
  set (num := GoStrconv.FormatUint16 (uint64 char)) in *.
  assert (Hhi : (2 - (len num - 2) <? 0) = true)
    by (apply Z.ltb_lt; unfold len; lia).
  run. rewrite Hhi. reflexivity.
Qed.

(** The scan panics on the source [F0 9F 98 80] when its code point is
    replaced. *)
Lemma renderDocument_U1F600 (defaultPreamble replace w : bytes) (n : Cursor)
    (offset : Z) (nonumbering unsafe title : bool) (preamble : option bytes) :
  renderDocument defaultPreamble
    (mkRenderer offset nonumbering preamble unsafe (Some (λ _, (replace, true))) title)
    [xf0; x9f; x98; x80] n true w
  = Panicked SliceBoundsOutOfRange.
Proof.
  unfold renderDocument. cbn [negb Preamble DeclareUnicode makeTitle].
  destruct preamble; reflexivity.
Qed.

(** C7: the source [F0 9F 98 80] is the code point U+1F600; its hexadecimal
    form has five digits, the bound of the padding slice is [2 - (5 - 2)],
    and writing its directive panics, where the specification has it
    succeed.  A code point of the basic plane is written padded to four
    digits. *)
Theorem writeDeclaration_above_FFFF (defaultPreamble replace w : bytes)
    (n : Cursor) (offset : Z) (nonumbering unsafe title : bool)
    (preamble : option bytes) :
  GoUtf8.DecodeRune [xf0; x9f; x98; x80] = (0x1F600, 4)
  ∧ GoStrconv.FormatUint16 (uint64 0x1F600) = B "1f600"
  ∧ 2 - (len (B "1f600") - 2) = -1
  ∧ writeDeclaration 0x1F600 replace w = Panicked SliceBoundsOutOfRange
  ∧ renderDocument defaultPreamble
      (mkRenderer offset nonumbering preamble unsafe
                  (Some (λ _, (replace, true))) title)
      [xf0; x9f; x98; x80] n true w
    = Panicked SliceBoundsOutOfRange
  ∧ writeDeclaration 0xE9 replace w
    = Done tt (w ++ B "\DeclareUnicodeCharacter{00e9}{" ++ replace ++ B "}" ++ [LF]).
Proof.
  split; [reflexivity|]. split; [reflexivity|]. split; [reflexivity|].
  split; [apply writeDeclaration_panics; vm_compute; lia|].
  split; [apply renderDocument_U1F600|].
  rewrite writeDeclaration_padded by (vm_compute; lia). reflexivity.
Qed.

Ltac ev t := let v := eval vm_compute in t in change t with v.

Lemma first_cases (z : Z) :
  GoUtf8.first z ∈ [0xF0; 0xF1; 0x02; 0x13; 0x03; 0x23; 0x34; 0x04; 0x44].
Proof.
  unfold GoUtf8.first.
  repeat match goal with |- context [if ?c then _ else _] => destruct c end;
    compute_done.
Qed.

Lemma DecodeRune_width (p : bytes) :
  p ≠ [] → 1 <= snd (GoUtf8.DecodeRune p) <= len p.
Proof.
  destruct p as [|b p]; [done|]. intros _. unfold GoUtf8.DecodeRune.
  assert (Hn : 1 <= len (b :: p)) by (unfold len; simpl; lia).
  generalize dependent (len (b :: p)). intros n Hn.
  destruct (Z.ltb_spec n 1); [lia|]. cbv zeta.
  pose proof (first_cases (GoUtf8.at_ (b :: p) 0)) as Hx.
  generalize dependent (GoUtf8.first (GoUtf8.at_ (b :: p) 0)). intros x Hx.
  repeat (apply elem_of_cons in Hx as [-> | Hx]); [..|by apply elem_of_nil in Hx];
    repeat match goal with
           | |- context [Z.land ?a 7] => ev (Z.land a 7)
           | |- context [Z.shiftr ?a 4] => ev (Z.shiftr a 4)
           | |- context [Z.testbit ?a 0] => ev (Z.testbit a 0)
           | |- context [?a >=? 240] => ev (a >=? 240)
           | |- context [GoUtf8.acceptRanges ?a] => ev (GoUtf8.acceptRanges a)
           end;
    repeat match goal with
           | |- context [Zpos ?a <=? Zpos ?b] => ev (Zpos a <=? Zpos b)
           end;
    cbv iota;
    repeat match goal with
           | |- context [if ?c then _ else _] =>
               lazymatch c with
               | (n <? ?k) => destruct (Z.ltb_spec n k)
               | _ => destruct c
               end
           end; cbn [snd]; lia.
Qed.

Lemma decodeAll_widths (fuel : nat) :
  ∀ p : bytes, (length p ≤ fuel)%nat →
    foldr Z.add 0 (snd <$> decodeAll fuel p) = len p.
Proof.
  induction fuel as [|fuel IH]; intros p Hp.
  - destruct p; [done | simpl in Hp; lia].
  - destruct p as [|b p]; [done|].
    cbn [decodeAll fmap list_fmap foldr].
    pose proof (DecodeRune_width (b :: p) ltac:(done)) as Hw.
    set (r := GoUtf8.DecodeRune (b :: p)) in *.
    change (foldr Z.add 0 (list_fmap _ _ snd ?l)) with (foldr Z.add 0 (snd <$> l)).
    rewrite IH.
    + unfold len in *. rewrite length_drop. lia.
    + rewrite length_drop. unfold len in Hw. simpl in *. lia.
Qed.

Lemma multiByte_cons (c l : Z) (rs : list (Z * Z)) :
  multiByte ((c, l) :: rs) = if l =? 1 then multiByte rs else c :: multiByte rs.
Proof.
  unfold multiByte. rewrite filter_cons. cbn [snd].
  destruct (Z.eqb_spec l 1); destruct (decide (l ≠ 1)); done.
Qed.

Lemma declareLoop_spec (f : Z → bytes * bool) (source : bytes) (fuel : nat) :
  ∀ (i : nat) (declared : gset Z) (seen : list Z) (w : bytes),
    (∀ c, c ∈ declared ↔ c ∈ seen) →
    declareLoop fuel f source i declared w
    = writeDeclarations
        (omap (replaced f)
           (firstOccurrences seen (multiByte (decodeAll fuel (drop i source))))) w.
Proof.
  induction fuel as [|fuel IH]; intros i declared seen w Hseen; [done|].
  cbn [declareLoop].
  destruct (Nat.ltb_spec i (length source)) as [Hi|Hi].
  2:{ rewrite drop_ge by done. done. }
  destruct (drop i source) as [|b rest] eqn:Hdrop.
  { apply (f_equal length) in Hdrop. rewrite length_drop in Hdrop. simpl in Hdrop. lia. }
  cbn [decodeAll]. rewrite <- Hdrop.
  unfold declareStep.
  destruct (GoUtf8.DecodeRune (drop i source)) as [char lchar] eqn:Hdec.
  cbn [snd]. rewrite drop_drop, multiByte_cons.
  destruct (lchar =? 1).
  { run. by apply IH. }
  cbn [firstOccurrences].
  rewrite (bool_decide_ext (char ∈ declared) (char ∈ seen)) by apply Hseen.
  destruct (bool_decide (char ∈ seen)).
  { run. by apply IH. }
  assert (Hseen' : ∀ c, c ∈ {[char]} ∪ declared ↔ c ∈ char :: seen).
  { intros c. rewrite elem_of_union, elem_of_singleton, elem_of_cons, Hseen. done. }
  cbn [omap list_omap]. unfold replaced at 1.
  destruct (f char) as [replace ok]. cbn [fst snd].
  destruct ok; cbn [negb].
  - cbn [writeDeclarations fst snd]. unfold bind.
    destruct (writeDeclaration char replace w) as [[] w'|]; cbv beta iota; [|done].
    unfold ret. cbv beta iota. by apply IH.
  - run. by apply IH.
Qed.

Lemma firstOccurrences_elem (l : list Z) :
  ∀ seen c, c ∈ firstOccurrences seen l ↔ c ∈ l ∧ c ∉ seen.
Proof.
  induction l as [|x l IH]; intros seen c; cbn [firstOccurrences].
  - rewrite elem_of_nil. tauto.
  - destruct (bool_decide (x ∈ seen)) eqn:Hx.
    + apply bool_decide_eq_true in Hx. rewrite IH, elem_of_cons.
      split; [tauto|]. intros [[-> | Hc] Hn]; [done | tauto].
    + apply bool_decide_eq_false in Hx.
      rewrite !elem_of_cons, IH, not_elem_of_cons.
      destruct (decide (c = x)) as [-> | Hne]; tauto.
Qed.

Lemma firstOccurrences_NoDup (l : list Z) : ∀ seen, NoDup (firstOccurrences seen l).
Proof.
  induction l as [|x l IH]; intros seen; cbn [firstOccurrences]; [constructor|].
  destruct (bool_decide (x ∈ seen)); [apply IH|].
  apply NoDup_cons. split; [|apply IH].
  rewrite firstOccurrences_elem, not_elem_of_cons. tauto.
Qed.

Lemma firstOccurrences_order (l : list Z) :
  ∀ seen pre c post,
    firstOccurrences seen l = pre ++ c :: post →
    ∃ l1 l2, l = l1 ++ c :: l2 ∧ (c ∉ l1) ∧ (∀ d, d ∈ pre ↔ d ∈ l1 ∧ d ∉ seen).
Proof.
  induction l as [|x l IH]; intros seen pre c post; cbn [firstOccurrences].
  - intros H. by destruct pre.
  - destruct (bool_decide (x ∈ seen)) eqn:Hx.
    + apply bool_decide_eq_true in Hx. intros H.
      assert (Hc : c ∈ firstOccurrences seen l)
        by (rewrite H, elem_of_app, elem_of_cons; tauto).
      apply firstOccurrences_elem in Hc as [_ Hc].
      destruct (IH _ _ _ _ H) as (l1 & l2 & -> & Hl1 & Hpre).
      exists (x :: l1), l2. split; [done|]. split.
      * rewrite not_elem_of_cons. split; [congruence | done].
      * intros d. rewrite Hpre, elem_of_cons.
        split; [tauto|]. intros [[-> | Hd] Hn]; [done | tauto].
    + apply bool_decide_eq_false in Hx. intros H.
      destruct pre as [|y pre]; injection H as -> H.
      * exists [], l. split; [done|]. split; [apply not_elem_of_nil|].
        intros d. rewrite elem_of_nil. tauto.
      * assert (Hc : c ∈ firstOccurrences (y :: seen) l)
          by (rewrite H, elem_of_app, elem_of_cons; tauto).
        apply firstOccurrences_elem in Hc as [_ Hc].
        apply not_elem_of_cons in Hc as [Hcy Hc].
        destruct (IH _ _ _ _ H) as (l1 & l2 & -> & Hl1 & Hpre).
        exists (y :: l1), l2. split; [done|]. split.
        -- rewrite not_elem_of_cons. done.
        -- intros d. rewrite !elem_of_cons, Hpre, not_elem_of_cons.
           destruct (decide (d = y)) as [-> | Hne]; tauto.
Qed.

Lemma omap_app_inv {A C} (f : A → option C) (l : list A) :
  ∀ pre y post, omap f l = pre ++ y :: post →
    ∃ l1 x l2, l = l1 ++ x :: l2 ∧ omap f l1 = pre ∧ f x = Some y ∧ omap f l2 = post.
Proof.
  induction l as [|a l IH]; intros pre y post; cbn [omap list_omap].
  - intros H. by destruct pre.
  - destruct (f a) as [fa|] eqn:Hfa.
    + destruct pre as [|z pre]; intros H; injection H as -> H.
      * exists [], a, l. done.
      * destruct (IH _ _ _ H) as (l1 & x & l2 & -> & <- & Hx & <-).
        exists (a :: l1), x, l2. simpl. rewrite Hfa. done.
    + intros H. destruct (IH _ _ _ H) as (l1 & x & l2 & -> & <- & Hx & <-).
      exists (a :: l1), x, l2. simpl. rewrite Hfa. done.
Qed.

Lemma replaced_Some (f : Z → bytes * bool) (c d : Z) (rep : bytes) :
  replaced f c = Some (d, rep) ↔ d = c ∧ f c = (rep, true).
Proof.
  unfold replaced. destruct (f c) as [r ok]. cbn [fst snd].
  destruct ok; split.
  - intros [= <- <-]. done.
  - intros [-> [= ->]]. done.
  - done.
  - intros [_ [=]].
Qed.

Lemma declarations_codes (f : Z → bytes * bool) (l : list Z) :
  (omap (replaced f) l).*1 = filter (λ c, snd (f c) = true) l.
Proof.
  induction l as [|c l IH]; [done|].
  cbn [omap list_omap]. rewrite filter_cons. unfold replaced at 1.
  destruct (snd (f c)) eqn:Hc.
  - destruct (decide (true = true)); [|done]. cbn [fmap list_fmap fst]. by f_equal.
  - destruct (decide (false = true)); [done|]. done.
Qed.

Lemma renderDocument_enter (defaultPreamble : bytes) (r : Renderer) (source : bytes)
    (n : Cursor) (w : bytes) :
  renderDocument defaultPreamble r source n true w
  = (Write (B "% goldmark-latex: start of document" ++ [LF]) ;;
     Write (match Preamble r with
            | None => (B "% goldmark-latex: default preamble start" ++ [LF])
                      ++ defaultPreamble
                      ++ (B "% goldmark-latex: default preamble end" ++ [LF])
            | Some p => (B "% goldmark-latex: custom preamble start" ++ [LF])
                        ++ p
                        ++ (B "% goldmark-latex: custom preamble end" ++ [LF])
            end) ;;
     match DeclareUnicode r with
     | Some f => Write [LF] ;; writeDeclarations (declarations f source)
     | None => ret tt
     end ;;
     Write ([LF] ++ B "\begin{document}" ++ [LF]
            ++ (if makeTitle r then B "\maketitle" ++ [LF] else [])) ;;
     ret (WalkContinue, None)) w.
Proof.
  unfold renderDocument. cbn [negb].
  assert (Hscan : ∀ f w', declareLoop (length source) f source 0 ∅ w'
                          = writeDeclarations (declarations f source) w').
  { intros f w'. rewrite (declareLoop_spec f source _ 0%nat ∅ []); [done|].
    intros c. rewrite elem_of_nil. set_solver. }
  destruct (Preamble r), (DeclareUnicode r) as [f|], (makeTitle r); run;
    rewrite ?Hscan; rewrite <- ?app_assoc, ?app_nil_r;
    try (match goal with
         | |- context [writeDeclarations ?d ?a] =>
             match goal with
             | |- _ = match writeDeclarations d ?b with _ => _ end =>
                 change a with b
             end
         end;
         destruct (writeDeclarations (declarations f source) _) as [[] w'|]; [|done]);
    cbv beta iota; rewrite <- ?app_assoc, ?app_nil_r; reflexivity.
Qed.


(** ** The width of the hexadecimal form *)

Lemma B_length_hex (d : Hexadecimal.uint) :
  length (B (HexadecimalString.NilEmpty.string_of_uint d)) = Hexadecimal.nb_digits d.
Proof.
  unfold B, list_byte_of_string.
  induction d; cbn; [done | by rewrite IHd ..].
Qed.

Lemma of_lu_bound (d : Hexadecimal.uint) :
  (HexadecimalPos.Unsigned.of_lu d < 16 ^ N.of_nat (Hexadecimal.nb_digits d))%N.
Proof.
  induction d; cbn [HexadecimalPos.Unsigned.of_lu Hexadecimal.nb_digits];
    rewrite ?Nat2N.inj_succ, ?N.pow_succ_r'; cbn [N.of_nat N.pow]; lia.
Qed.

(** A number is below sixteen to the number of its hexadecimal digits. *)
Lemma FormatUint16_bound (u : Z) :
  0 <= u → u < 16 ^ len (GoStrconv.FormatUint16 u).
Proof.
  intros Hu. unfold GoStrconv.FormatUint16, len. rewrite B_length_hex.
  pose proof (HexadecimalN.Unsigned.of_to (Z.to_N u)) as Hof.
  unfold N.of_hex_uint in Hof. rewrite HexadecimalPos.Unsigned.of_uint_alt in Hof.
  pose proof (of_lu_bound (Hexadecimal.rev (N.to_hex_uint (Z.to_N u)))) as Hb.
  rewrite Hof, HexadecimalFacts.nb_digits_rev in Hb.
  apply N2Z.inj_lt in Hb. rewrite Z2N.id, N2Z.inj_pow, nat_N_Z in Hb by done.
  exact Hb.
Qed.

Lemma FormatUint16_wide (u : Z) :
  0x10000 <= u → (5 ≤ length (GoStrconv.FormatUint16 u))%nat.
Proof.
  intros Hu. pose proof (FormatUint16_bound u ltac:(lia)) as Hb.
  unfold len in Hb.
  destruct (Nat.le_gt_cases 5 (length (GoStrconv.FormatUint16 u))) as [|Hlt]; [done|].
  assert (16 ^ Z.of_nat (length (GoStrconv.FormatUint16 u)) <= 16 ^ 4)
    by (apply Z.pow_le_mono_r; lia).
  change (16 ^ 4) with 65536 in *. lia.
Qed.

Lemma paddableFrom_spec (fuel : nat) :
  ∀ n, paddableFrom fuel n = true →
       ∀ k, (n <= k < n + N.of_nat fuel)%N → paddable k = true.
Proof.
  induction fuel as [|fuel IH]; intros n Hall k Hk; [lia|].
  cbn [paddableFrom] in Hall. apply andb_true_iff in Hall as [Hn Hall].
  destruct (N.eq_dec k n) as [-> | Hne]; [done|].
  apply (IH (N.succ n) Hall). lia.
Qed.

Lemma paddable_basic_plane : paddableFrom (N.to_nat 65520) 16 = true.
Proof. vm_compute. reflexivity. Qed.

(** From U+0010 to U+FFFF the hexadecimal form has two to four digits. *)
Lemma FormatUint16_narrow (u : Z) :
  0x10 <= u <= 0xFFFF → (2 ≤ length (GoStrconv.FormatUint16 (uint64 u)) ≤ 4)%nat.
Proof.
  intros Hu.
  pose proof (paddableFrom_spec _ _ paddable_basic_plane (Z.to_N u) ltac:(lia)) as Hp.
  unfold paddable in Hp. rewrite Z2N.id in Hp by lia.
  apply andb_true_iff in Hp as [H2 H4].
  apply Nat.leb_le in H2, H4. done.
Qed.

Lemma uint64_small (u : Z) : 0 <= u < 2 ^ 64 → uint64 u = u.
Proof. intros Hu. unfold uint64. by rewrite Z.mod_small. Qed.

(** Writing the directive of a code point from U+0010 to U+FFFF succeeds. *)
Lemma writeDeclaration_basic_plane (char : Z) (replace w : bytes) :
  0x10 <= char <= 0xFFFF →
  writeDeclaration char replace w = Done tt (w ++ directive char replace).
Proof. intros Hc. by apply writeDeclaration_padded, FormatUint16_narrow. Qed.

(** Writing the directive of a code point above U+FFFF panics. *)
Lemma writeDeclaration_astral (char : Z) (replace w : bytes) :
  0x10000 <= char <= 0x10FFFF →
  writeDeclaration char replace w = Panicked SliceBoundsOutOfRange.
Proof.
  intros Hc. apply writeDeclaration_panics.
  rewrite uint64_small by (pow2; lia). apply FormatUint16_wide. lia.
Qed.

(** ** The range of a decoded rune *)

Lemma byteZ_range (b : byte) : 0 <= byteZ b <= 255.
Proof. unfold byteZ. pose proof (Byte.to_N_bounded b). lia. Qed.

Lemma at_range (p : bytes) (i : nat) : 0 <= GoUtf8.at_ p i <= 255.
Proof.
  unfold GoUtf8.at_. destruct (p !! i); [apply byteZ_range | lia].
Qed.

Lemma land_mul_small (a y k : Z) :
  0 <= k → 0 <= y < 2 ^ k → Z.land (a * 2 ^ k) y = 0.
Proof.
  intros Hk Hy. apply Z.bits_inj'. intros n Hn.
  rewrite Z.land_spec, Z.bits_0.
  destruct (Z.lt_ge_cases n k) as [Hlt|Hge].
  - by rewrite Z.mul_pow2_bits_low.
  - destruct (Z.eq_dec y 0) as [-> | Hy0]; [by rewrite Z.bits_0, andb_false_r|].
    rewrite (Z.bits_above_log2 y n), andb_false_r; [done | lia |].
    assert (Z.log2 y < k) by (apply Z.log2_lt_pow2; lia). lia.
Qed.

Lemma lor_mul_small (a y k : Z) :
  0 <= k → 0 <= y < 2 ^ k → Z.lor (a * 2 ^ k) y = a * 2 ^ k + y.
Proof.
  intros Hk Hy. rewrite <- Z.add_lor_land, land_mul_small by done. lia.
Qed.

Lemma land_low (x k : Z) : 0 <= k → Z.land x (2 ^ k - 1) = x mod 2 ^ k.
Proof.
  intros Hk. rewrite <- Z.land_ones by done. by rewrite Z.ones_equiv, Z.sub_1_r.
Qed.

Ltac pows :=
  change (2 ^ 3) with 8 in *; change (2 ^ 4) with 16 in *;
  change (2 ^ 5) with 32 in *; change (2 ^ 6) with 64 in *;
  change (2 ^ 12) with 4096 in *; change (2 ^ 18) with 262144 in *.

Lemma rune2_value (p0 b1 : Z) :
  Z.lor (Z.shiftl (Z.land p0 0x1F) 6) (Z.land b1 0x3F)
  = p0 mod 32 * 64 + b1 mod 64.
Proof.
  change 0x1F with (2 ^ 5 - 1). change 0x3F with (2 ^ 6 - 1).
  rewrite (land_low p0 5), (land_low b1 6), Z.shiftl_mul_pow2 by lia.
  pose proof (Z.mod_pos_bound b1 (2 ^ 6) ltac:(lia)).
  rewrite lor_mul_small by lia. pows. lia.
Qed.

Lemma rune3_value (p0 b1 b2 : Z) :
  Z.lor (Z.lor (Z.shiftl (Z.land p0 0x0F) 12) (Z.shiftl (Z.land b1 0x3F) 6))
        (Z.land b2 0x3F)
  = p0 mod 16 * 4096 + b1 mod 64 * 64 + b2 mod 64.
Proof.
  change 0x0F with (2 ^ 4 - 1). change 0x3F with (2 ^ 6 - 1).
  rewrite (land_low p0 4), (land_low b1 6), (land_low b2 6) by lia.
  rewrite !Z.shiftl_mul_pow2 by lia.
  pose proof (Z.mod_pos_bound b1 (2 ^ 6) ltac:(lia)).
  pose proof (Z.mod_pos_bound b2 (2 ^ 6) ltac:(lia)).
  rewrite (lor_mul_small (p0 mod 2 ^ 4) _ 12) by (pows; lia).
  replace (p0 mod 2 ^ 4 * 2 ^ 12 + b1 mod 2 ^ 6 * 2 ^ 6)
    with ((p0 mod 2 ^ 4 * 2 ^ 6 + b1 mod 2 ^ 6) * 2 ^ 6) by (pows; lia).
  rewrite lor_mul_small by lia. pows. lia.
Qed.

Lemma rune4_value (p0 b1 b2 b3 : Z) :
  Z.lor (Z.lor (Z.lor (Z.shiftl (Z.land p0 0x07) 18) (Z.shiftl (Z.land b1 0x3F) 12))
               (Z.shiftl (Z.land b2 0x3F) 6))
        (Z.land b3 0x3F)
  = p0 mod 8 * 262144 + b1 mod 64 * 4096 + b2 mod 64 * 64 + b3 mod 64.
Proof.
  change 0x07 with (2 ^ 3 - 1). change 0x3F with (2 ^ 6 - 1).
  rewrite (land_low p0 3), (land_low b1 6), (land_low b2 6), (land_low b3 6) by lia.
  rewrite !Z.shiftl_mul_pow2 by lia.
  pose proof (Z.mod_pos_bound b1 (2 ^ 6) ltac:(lia)).
  pose proof (Z.mod_pos_bound b2 (2 ^ 6) ltac:(lia)).
  pose proof (Z.mod_pos_bound b3 (2 ^ 6) ltac:(lia)).
  rewrite (lor_mul_small (p0 mod 2 ^ 3) _ 18) by (pows; lia).
  replace (p0 mod 2 ^ 3 * 2 ^ 18 + b1 mod 2 ^ 6 * 2 ^ 12)
    with ((p0 mod 2 ^ 3 * 2 ^ 6 + b1 mod 2 ^ 6) * 2 ^ 12) by (pows; lia).
  rewrite (lor_mul_small _ _ 12) by (pows; lia).
  replace ((p0 mod 2 ^ 3 * 2 ^ 6 + b1 mod 2 ^ 6) * 2 ^ 12 + b2 mod 2 ^ 6 * 2 ^ 6)
    with (((p0 mod 2 ^ 3 * 2 ^ 6 + b1 mod 2 ^ 6) * 2 ^ 6 + b2 mod 2 ^ 6) * 2 ^ 6)
    by (pows; lia).
  rewrite lor_mul_small by lia. pows. lia.
Qed.

(** The cases of the table [first] with the range of the first byte. *)
Lemma first_spec (p0 : Z) :
  (GoUtf8.first p0 = 0xF0 ∨ GoUtf8.first p0 = 0xF1)
  ∨ (GoUtf8.first p0 = 0x02 ∧ 0xC2 <= p0 <= 0xDF)
  ∨ (GoUtf8.first p0 = 0x13 ∧ p0 = 0xE0)
  ∨ (GoUtf8.first p0 = 0x03 ∧ 0xE1 <= p0 <= 0xEF)
  ∨ (GoUtf8.first p0 = 0x23 ∧ p0 = 0xED)
  ∨ (GoUtf8.first p0 = 0x34 ∧ p0 = 0xF0)
  ∨ (GoUtf8.first p0 = 0x04 ∧ 0xF1 <= p0 <= 0xF3)
  ∨ (GoUtf8.first p0 = 0x44 ∧ p0 = 0xF4).
Proof.
  unfold GoUtf8.first.
  repeat match goal with
         | |- context [if ?a <? ?b then _ else _] => destruct (Z.ltb_spec a b)
         | |- context [if ?a =? ?b then _ else _] => destruct (Z.eqb_spec a b)
         end; lia.
Qed.

Ltac mod_value k :=
  match goal with
  | |- context [?x mod ?m] =>
      let H := fresh in
      assert (H : x mod m = x - m * k)
        by (symmetry; apply (Z.mod_unique_pos x m k (x - m * k)); lia);
      rewrite H; clear H
  end.

Ltac mod_values :=
  repeat first [ mod_value 2 | mod_value 3 | mod_value 6 | mod_value 14
               | mod_value 15 | mod_value 30 ].

(** A rune that [DecodeRune] does not report as one byte wide is two bytes
    wide and below U+0800, three bytes wide and in the basic plane, or
    four bytes wide and above U+FFFF. *)
Lemma DecodeRune_range (p : bytes) (c l : Z) :
  GoUtf8.DecodeRune p = (c, l) → l ≠ 1 → p ≠ [] →
  (l = 2 ∧ 0x80 <= c <= 0x7FF)
  ∨ (l = 3 ∧ 0x800 <= c <= 0xFFFF)
  ∨ (l = 4 ∧ 0x10000 <= c <= 0x10FFFF).
Proof.
  intros Hdec Hl Hp. revert Hdec. unfold GoUtf8.DecodeRune.
  assert (Hn : (len p <? 1) = false).
  { apply Z.ltb_ge. destruct p; [done|]. unfold len. simpl. lia. }
  rewrite Hn. cbv zeta.
  pose proof (at_range p 0) as H0. pose proof (at_range p 1) as H1.
  pose proof (at_range p 2) as H2. pose proof (at_range p 3) as H3.
  rewrite rune2_value, rune3_value, rune4_value.
  generalize dependent (GoUtf8.at_ p 0). generalize dependent (GoUtf8.at_ p 1).
  generalize dependent (GoUtf8.at_ p 2). generalize dependent (GoUtf8.at_ p 3).
  intros b3 H3 b2 H2 b1 H1 p0 H0.
  destruct (first_spec p0)
    as [[Hx | Hx] | [[Hx Hr] | [[Hx Hr] | [[Hx Hr] | [[Hx Hr] | [[Hx Hr] | [[Hx Hr] | [Hx Hr]]]]]]]];
    rewrite Hx;
    repeat match goal with
           | |- context [Z.land ?a 7] => ev (Z.land a 7)
           | |- context [Z.shiftr ?a 4] => ev (Z.shiftr a 4)
           | |- context [Z.testbit ?a 0] => ev (Z.testbit a 0)
           | |- context [?a >=? 240] => ev (a >=? 240)
           | |- context [GoUtf8.acceptRanges ?a] => ev (GoUtf8.acceptRanges a)
           end;
    repeat match goal with
           | |- context [Zpos ?a <=? Zpos ?b] => ev (Zpos a <=? Zpos b)
           end;
    cbv iota; cbn [fst snd];
    repeat first
      [ match goal with
        | |- context [?a <? ?b] => destruct (Z.ltb_spec a b)
        end
      | progress cbn [orb] ];
    cbv iota;
    (let H := fresh in intros H; apply pair_equal_spec in H as [<- <-]);
    try done; mod_values; lia.
Qed.

(** ** Which declarations are written *)

Lemma decodeAll_elem (fuel : nat) :
  ∀ (p : bytes) (c l : Z),
    (c, l) ∈ decodeAll fuel p → ∃ q, q ≠ [] ∧ GoUtf8.DecodeRune q = (c, l).
Proof.
  induction fuel as [|fuel IH]; intros p c l; cbn [decodeAll].
  - by rewrite elem_of_nil.
  - destruct p as [|b p]; [by rewrite elem_of_nil|].
    rewrite elem_of_cons. intros [Heq | Hin]; [|by eapply IH].
    exists (b :: p). split; [done|]. by rewrite Heq.
Qed.

(** The multi-byte code points of a source lie between U+0080 and
    U+10FFFF. *)
Lemma nonASCII_range (source : bytes) (c : Z) :
  c ∈ nonASCII source → 0x80 <= c <= 0x10FFFF.
Proof.
  unfold nonASCII, multiByte. rewrite list_elem_of_fmap.
  intros ([c' l] & -> & Hin). apply list_elem_of_filter in Hin as [Hl Hin].
  apply decodeAll_elem in Hin as (q & Hq & Hdec). cbn [fst snd] in *.
  destruct (DecodeRune_range _ _ _ Hdec Hl Hq) as [[_ ?] | [[_ ?] | [_ ?]]]; lia.
Qed.

Lemma writeDeclarations_basic_plane (ds : list (Z * bytes)) :
  Forall (λ d, 0x10 <= d.1 <= 0xFFFF) ds →
  ∀ w, writeDeclarations ds w = Done tt (w ++ flat_map (λ d, directive d.1 d.2) ds).
Proof.
  induction 1 as [|d ds Hd _ IH]; intros w; cbn [writeDeclarations flat_map].
  - unfold ret. by rewrite app_nil_r.
  - unfold bind. rewrite writeDeclaration_basic_plane by done.
    rewrite IH. by rewrite <- app_assoc.
Qed.

Lemma writeDeclarations_astral (pre post : list (Z * bytes)) (d : Z * bytes) (w : bytes) :
  Forall (λ d, 0x10 <= d.1 <= 0xFFFF) pre → 0x10000 <= d.1 <= 0x10FFFF →
  writeDeclarations (pre ++ d :: post) w = Panicked SliceBoundsOutOfRange.
Proof.
  intros Hpre Hd. revert w.
  induction Hpre as [|e pre He _ IH]; intros w; cbn [app writeDeclarations]; unfold bind.
  - by rewrite writeDeclaration_astral.
  - rewrite writeDeclaration_basic_plane by done. apply IH.
Qed.

(** The scan returns exactly when no replaced multi-byte code point of the
    source lies above U+FFFF. *)
Lemma declareLoop_returns (f : Z → bytes * bool) (source w : bytes) :
  (∃ w', declareLoop (length source) f source 0 ∅ w = Done tt w')
  ↔ ∀ c, c ∈ nonASCII source → snd (f c) = true → c <= 0xFFFF.
Proof.
  assert (Heq : declareLoop (length source) f source 0 ∅ w
                = writeDeclarations (declarations f source) w).
  { rewrite (declareLoop_spec f source _ 0%nat ∅ []); [done|].
    intros c. rewrite elem_of_nil. set_solver. }
  rewrite Heq. clear Heq.
  assert (Hin : ∀ c rep, (c, rep) ∈ declarations f source
                         → c ∈ nonASCII source ∧ snd (f c) = true).
  { intros c rep. unfold declarations. rewrite list_elem_of_omap.
    intros (x & Hx & Hr). apply replaced_Some in Hr as [-> Hr].
    apply firstOccurrences_elem in Hx as [Hx _]. by rewrite Hr. }
  split.
  - intros [w' Hw] c Hc Hf.
    destruct (Z.le_gt_cases c 0xFFFF) as [|Hgt]; [done|]. exfalso.
    assert (Hd : (c, fst (f c)) ∈ declarations f source).
    { unfold declarations. rewrite list_elem_of_omap. exists c. split.
      - apply firstOccurrences_elem. split; [done | apply not_elem_of_nil].
      - apply replaced_Some. split; [done|]. rewrite <- Hf. by destruct (f c). }
    revert Hw Hin Hd. generalize (declarations f source). intros ds Hw Hin Hd.
    revert w Hw. induction ds as [|d ds IH]; intros w Hw.
    + by apply elem_of_nil in Hd.
    + cbn [writeDeclarations] in Hw. unfold bind in Hw.
      destruct d as [c' rep'].
      destruct (Hin c' rep') as [Hc' _]; [apply elem_of_cons; by left|].
      apply nonASCII_range in Hc'. cbn [fst snd] in Hw.
      destruct (Z.le_gt_cases c' 0xFFFF).
      * rewrite writeDeclaration_basic_plane in Hw by lia.
        apply elem_of_cons in Hd as [[= <- _] | Hd]; [lia|].
        apply (IH (λ c0 r0 H0, Hin c0 r0 (proj2 (elem_of_cons _ _ _) (or_intror H0)))
                  Hd _ Hw).
      * rewrite writeDeclaration_astral in Hw by lia. done.
  - intros Hall. eexists. apply writeDeclarations_basic_plane.
    apply Forall_forall. intros [c rep] Hd. cbn [fst].
    destruct (Hin _ _ Hd) as [Hc Hf]. pose proof (nonASCII_range _ _ Hc).
    specialize (Hall c Hc Hf). lia.
Qed.

Lemma declarations_elem (f : Z → bytes * bool) (source : bytes) (c : Z) (rep : bytes) :
  (c, rep) ∈ declarations f source ↔ c ∈ nonASCII source ∧ f c = (rep, true).
Proof.
  unfold declarations. rewrite list_elem_of_omap. split.
  - intros (x & Hx & Hr). apply replaced_Some in Hr as [-> Hr].
    apply firstOccurrences_elem in Hx as [Hx _]. done.
  - intros [Hc Hf]. exists c. split.
    + apply firstOccurrences_elem. split; [done | apply not_elem_of_nil].
    + by apply replaced_Some.
Qed.

Lemma declarations_basic_plane (f : Z → bytes * bool) (source : bytes) :
  (∀ c, c ∈ nonASCII source → snd (f c) = true → c <= 0xFFFF) →
  Forall (λ d, 0x10 <= d.1 <= 0xFFFF) (declarations f source).
Proof.
  intros Hall. apply Forall_forall. intros [c rep] Hd. cbn [fst].
  apply declarations_elem in Hd as [Hc Hf]. pose proof (nonASCII_range _ _ Hc).
  specialize (Hall c Hc). rewrite Hf in Hall. specialize (Hall eq_refl). lia.
Qed.



(** ** Code spans *)

Lemma HasSuffix_snoc (v : bytes) (c : byte) : GoBytes.HasSuffix (v ++ [c]) [c] = true.
Proof.
  unfold GoBytes.HasSuffix. rewrite length_app. cbn [length].
  apply andb_true_iff. split; [apply Nat.leb_le; lia|].
  apply bool_decide_eq_true.
  replace (length v + 1 - 1)%nat with (length v) by lia.
  apply drop_app_length.
Qed.

Lemma HasSuffix_last (v : bytes) (c : byte) :
  GoBytes.HasSuffix v [c] = true ↔ last v = Some c.
Proof.
  destruct v as [|x v _] using rev_ind.
  - split; [|done]. unfold GoBytes.HasSuffix. simpl. done.
  - rewrite last_snoc. split.
    + unfold GoBytes.HasSuffix. rewrite andb_true_iff, bool_decide_eq_true.
      rewrite length_app. cbn [length].
      replace (length v + 1 - 1)%nat with (length v) by lia.
      rewrite drop_app_length. intros [_ [= ->]]. done.
    + intros [= ->]. apply HasSuffix_snoc.
Qed.

Lemma codeSpanChildren_texts (source : bytes) (texts : list (Segment * (bool * bool * bool))) :
  ∀ w, codeSpanChildren source (textNode <$> texts) w
       = Done tt (w ++ flat_map (λ t, codeSpanSegment (Value t.1 source)) texts).
Proof.
  induction texts as [|[seg [[raw soft] hard]] texts IH]; intros w.
  - simpl. unfold ret. by rewrite app_nil_r.
  - cbn [fmap list_fmap textNode codeSpanChildren payload flat_map fst].
    unfold codeSpanSegment at 1.
    destruct (GoBytes.HasSuffix (Value seg source) [LF]); run;
      rewrite escapeLaTeX_escaped; cbv beta iota; rewrite IH;
      by rewrite <- ?app_assoc.
Qed.

(** C5 (as amended): the text of every child of a code span goes through
    the escaping engine inside the wrapper [\texttt{]; a child segment
    that ends in a newline is escaped without that newline and followed by
    one space. *)
Theorem renderCodeSpan_escapes (source : bytes)
    (texts : list (Segment * (bool * bool * bool)))
    (parent next : option Node) (w : bytes) :
  renderCodeSpan source
      (mkCursor (mkNode CodeSpan (textNode <$> texts)) parent next) true w
    = Done (WalkSkipChildren, None)
        (w ++ B "\texttt{"
           ++ flat_map (λ t, codeSpanSegment (Value t.1 source)) texts)
  ∧ renderCodeSpan source
      (mkCursor (mkNode CodeSpan (textNode <$> texts)) parent next) false w
    = Done (WalkContinue, None) (w ++ B "}")
  ∧ (∀ value, codeSpanSegment (value ++ [LF]) = escaped value ++ B " ")
  ∧ (∀ value, last value ≠ Some LF → codeSpanSegment value = escaped value).
Proof.
  split; [|split; [done|split]].
  - unfold renderCodeSpan. cbn [negb node children]. run.
    rewrite codeSpanChildren_texts. by rewrite <- ?app_assoc.
  - intros value. unfold codeSpanSegment. rewrite HasSuffix_snoc.
    rewrite length_app. cbn [length].
    replace (length value + 1 - 1)%nat with (length value) by lia.
    pose proof (slice_mid [] value [LF]) as Hs. cbn [length app Nat.add] in Hs.
    by rewrite Hs.
  - intros value Hlast. unfold codeSpanSegment.
    destruct (GoBytes.HasSuffix value [LF]) eqn:Hs; [|done].
    by apply HasSuffix_last in Hs.
Qed.

Lemma renderCodeSpan_escapes_witness :
  codeSpanSegment (B "a_b") = B "a\_b".
Proof.
  destruct (renderCodeSpan_escapes [] [] None None []) as (_ & _ & _ & H).
  rewrite H; [reflexivity | discriminate].
Defined.

(** Counterexample to C5 as the specification words it: on the code span
    [a_b] the handler writes the escaped underscore, not the text as it
    is. *)
Lemma renderCodeSpan_not_verbatim :
  renderCodeSpan (B "a_b")
      (mkCursor (mkNode CodeSpan [textNode (mkSegment 0 3 0, (false, false, false))])
                None None) true []
    = Done (WalkSkipChildren, None) (B "\texttt{a\_b")
  ∧ renderCodeSpan (B "a_b")
      (mkCursor (mkNode CodeSpan [textNode (mkSegment 0 3 0, (false, false, false))])
                None None) true []
    ≠ Done (WalkSkipChildren, None)
        (B "\texttt{" ++ codeSpanVerbatim [Value (mkSegment 0 3 0) (B "a_b")]).
Proof. split; [reflexivity | vm_compute; discriminate]. Qed.

(** ** Autolinks *)

Lemma DecodeRune_ascii (c : byte) (p : bytes) :
  byteZ c < 0x80 → GoUtf8.DecodeRune (c :: p) = (byteZ c, 1).
Proof.
  intros Hc. unfold GoUtf8.DecodeRune.
  assert (Hn : (len (c :: p) <? 1) = false).
  { apply Z.ltb_ge. unfold len. simpl. lia. }
  rewrite Hn. cbv zeta.
  change (GoUtf8.at_ (c :: p) 0) with (byteZ c).
  unfold GoUtf8.first. assert (Hlt : (byteZ c <? 128) = true) by (by apply Z.ltb_lt).
  rewrite Hlt. reflexivity.
Qed.

Lemma ToLower_ascii (table : Z → Z) (r : Z) :
  r < 0x80 → GoUnicode.ToLower table r = GoUnicode.ToLower (λ r, r) r.
Proof.
  intros Hr. unfold GoUnicode.ToLower, GoUnicode.MaxASCII.
  assert (Hle : (r <=? 127) = true) by (apply Z.leb_le; lia).
  by rewrite Hle.
Qed.

Lemma haslowerprefixLoop_fold (table : Z → Z) (a a' b : bytes) (n : Z) (fuel : nat) :
  ∀ i, Forall2 sameFold a a' → 0 <= i → n <= len a →
    haslowerprefixLoop fuel table a b n i = haslowerprefixLoop fuel table a' b n i.
Proof.
  induction fuel as [|fuel IH]; intros i Hfold Hi Hn; [done|].
  cbn [haslowerprefixLoop].
  destruct (Z.ltb_spec i n) as [Hlt|]; [|done].
  assert (Hlen : length a = length a') by (by eapply Forall2_length).
  destruct (lookup_lt_is_Some_2 a (Z.to_nat i)) as [x Hx]; [unfold len in Hn; lia|].
  destruct (lookup_lt_is_Some_2 a' (Z.to_nat i)) as [y Hy]; [unfold len in Hn; lia|].
  destruct (Forall2_lookup_lr _ _ _ _ _ _ Hfold Hx Hy) as (Hxa & Hya & Hxy).
  rewrite (drop_S _ _ _ Hx), (drop_S _ _ _ Hy).
  rewrite !DecodeRune_ascii by done.
  rewrite (ToLower_ascii table (byteZ x)), (ToLower_ascii table (byteZ y)) by done.
  rewrite Hxy.
  destruct (GoUtf8.DecodeRune (drop (Z.to_nat i) b)) as [rb lb].
  destruct (negb (1 =? lb) || negb (_ =? _)); [done|].
  apply IH; [done | lia | done].
Qed.

(** Targets that differ only in the case of ASCII letters get the same
    answer from [haslowerprefix], whatever the marker. *)
Lemma haslowerprefix_fold (table : Z → Z) (a a' b : bytes) :
  Forall2 sameFold a a' → haslowerprefix table a b = haslowerprefix table a' b.
Proof.
  intros Hfold. unfold haslowerprefix.
  assert (Hlen : len a = len a') by (unfold len; by erewrite Forall2_length).
  rewrite <- Hlen. apply haslowerprefixLoop_fold; [done | lia |].
  unfold min. destruct (len a <? len b) eqn:Hlt; [lia|]. apply Z.ltb_ge in Hlt. lia.
Qed.

Lemma renderAutoLink_enter (table : Z → Z) (source : bytes) (ty : AutoLinkType)
    (Protocol : option bytes) (value : Segment) (cs : list Node)
    (parent next : option Node) (w : bytes) :
  renderAutoLink table source
      (mkCursor (mkNode (AutoLink ty Protocol value) cs) parent next) true w
    = Done (WalkContinue, None)
        (w ++ B "\href{"
           ++ (if bool_decide (ty = AutoLinkEmail)
                  && haslowerprefix table (URL Protocol value source) mailToPrefix
               then B "mailto:" else [])
           ++ escaped (URL Protocol value source)
           ++ B "}{" ++ escaped (Label value source) ++ B "}").
Proof.
  unfold renderAutoLink, escLink. cbn [payload node negb].
  destruct (bool_decide (ty = AutoLinkEmail) && _); run;
    repeat (rewrite escapeLaTeX_escaped; cbv beta iota);
    rewrite <- ?app_assoc; reflexivity.
Qed.

Lemma Value_whole (source : bytes) : Value (mkSegment 0 (length source) 0) source = source.
Proof.
  unfold Value, slice. cbn [Padding Start Stop replicate drop app].
  rewrite Nat.sub_0_r. apply firstn_all.
Qed.

Lemma emailLink_output (table : Z → Z) (source w : bytes) :
  renderAutoLink table source (emailLink source) true w
    = Done (WalkContinue, None)
        (w ++ B "\href{"
           ++ (if haslowerprefix table source mailToPrefix then B "mailto:" else [])
           ++ escaped source ++ B "}{" ++ escaped source ++ B "}").
Proof.
  unfold emailLink. rewrite renderAutoLink_enter. unfold URL, Label.
  rewrite Value_whole. done.
Qed.

(** The rendered outputs of the two targets differ, whatever the case
    tables are. *)
Lemma emailLink_case_visible (table : Z → Z) :
  renderAutoLink table (B "MAILTO:x@y") (emailLink (B "MAILTO:x@y")) true []
  ≠ renderAutoLink table (B "mailto:x@y") (emailLink (B "mailto:x@y")) true [].
Proof.
  rewrite !emailLink_output.
  rewrite (haslowerprefix_fold table (B "MAILTO:x@y") (B "mailto:x@y")).
  2:{ repeat constructor; vm_compute; done. }
  destruct (haslowerprefix table (B "mailto:x@y") mailToPrefix); vm_compute; discriminate.
Qed.




(** ** Images *)

Lemma Index_byte_cons (c x : byte) (s : bytes) :
  GoBytes.Index (x :: s) [c]
  = if bool_decide (x = c) then Some O else S <$> GoBytes.Index s [c].
Proof.
  cbn [GoBytes.Index GoBytes.HasPrefix]. rewrite andb_true_r.
  by destruct (bool_decide (x = c)).
Qed.

Lemma Index_byte_bound (c : byte) (s : bytes) (m : nat) :
  GoBytes.Index s [c] = Some m → (m < length s)%nat.
Proof.
  revert m. induction s as [|x s IH]; intros m; [done|].
  rewrite Index_byte_cons. destruct (bool_decide (x = c)).
  - intros [= <-]. simpl. lia.
  - destruct (GoBytes.Index s [c]) as [j|]; [|done].
    intros [= <-]. specialize (IH j eq_refl). simpl. lia.
Qed.

Lemma pieces_nonempty (c : byte) (s : bytes) : pieces c s ≠ [].
Proof.
  induction s as [|x s IH]; [done|]. cbn [pieces].
  destruct (bool_decide (x = c)); [done|]. by destruct (pieces c s).
Qed.

Lemma pieces_Index_None (c : byte) (s : bytes) :
  GoBytes.Index s [c] = None → pieces c s = [s].
Proof.
  induction s as [|x s IH]; [done|].
  rewrite Index_byte_cons. cbn [pieces].
  destruct (bool_decide (x = c)); [done|].
  destruct (GoBytes.Index s [c]); [done|]. intros _. by rewrite IH.
Qed.

Lemma pieces_Index_Some (c : byte) (s : bytes) (m : nat) :
  GoBytes.Index s [c] = Some m → pieces c s = take m s :: pieces c (drop (S m) s).
Proof.
  revert m. induction s as [|x s IH]; intros m; [done|].
  rewrite Index_byte_cons. cbn [pieces].
  destruct (bool_decide (x = c)).
  - intros [= <-]. done.
  - destruct (GoBytes.Index s [c]) as [j|]; [|done].
    intros [= <-]. by rewrite (IH j eq_refl).
Qed.

(** [strings.Split] with a one-byte separator gives the pieces between its
    occurrences. *)
Lemma splitLoop_pieces (c : byte) (fuel : nat) :
  ∀ s, (length s ≤ fuel)%nat → GoStrings.splitLoop fuel s [c] = pieces c s.
Proof.
  induction fuel as [|fuel IH]; intros s Hs.
  - destruct s; [done | simpl in Hs; lia].
  - cbn [GoStrings.splitLoop length].
    destruct (GoBytes.Index s [c]) as [m|] eqn:Hm.
    + rewrite (pieces_Index_Some _ _ _ Hm). rewrite Nat.add_1_r. f_equal.
      apply IH. apply Index_byte_bound in Hm. rewrite length_drop. lia.
    + by rewrite pieces_Index_None.
Qed.

Lemma Split_pieces (c : byte) (s : bytes) : GoStrings.Split s [c] = pieces c s.
Proof. by apply splitLoop_pieces. Qed.

Lemma pieces_joined (c : byte) (s : bytes) : joined c (pieces c s) = s.
Proof.
  induction s as [|x s IH]; [done|]. cbn [pieces].
  destruct (bool_decide_reflect (x = c)) as [-> | Hne].
  - pose proof (pieces_nonempty c s). cbn [joined].
    destruct (pieces c s); [done|]. by rewrite IH.
  - pose proof (pieces_nonempty c s).
    destruct (pieces c s) as [|p [|q ps]]; [done | ..];
      cbn [joined] in *; by rewrite <- IH.
Qed.

Lemma pieces_free (c : byte) (s : bytes) : Forall (λ p, c ∉ p) (pieces c s).
Proof.
  induction s as [|x s IH].
  - repeat constructor. apply not_elem_of_nil.
  - cbn [pieces]. destruct (bool_decide_reflect (x = c)) as [-> | Hne].
    + constructor; [apply not_elem_of_nil | done].
    + destruct (pieces c s) as [|p ps].
      * repeat constructor. rewrite elem_of_cons, elem_of_nil.
        intros [Hc | []]. congruence.
      * apply Forall_cons in IH as [Hp Hps]. constructor; [|done].
        rewrite elem_of_cons. intros [Hc | Hc]; [congruence | done].
Qed.

Lemma pieces_none (c : byte) (s : bytes) : c ∉ s → pieces c s = [s].
Proof.
  induction s as [|x s IH]; [done|].
  rewrite not_elem_of_cons. intros [Hne Hs]. cbn [pieces].
  rewrite bool_decide_false by done. by rewrite IH.
Qed.

Lemma pieces_app (c : byte) (p q : bytes) :
  c ∉ p → pieces c (p ++ c :: q) = p :: pieces c q.
Proof.
  induction p as [|x p IH]; intros Hp.
  - cbn [app pieces]. by rewrite bool_decide_true.
  - apply not_elem_of_cons in Hp as [Hne Hp].
    cbn [app pieces]. rewrite bool_decide_false by done. by rewrite IH.
Qed.

Lemma imageAttribute_parse (path token : bytes) (attributes : gmap bytes bytes)
    (w : bytes) :
  imageAttribute path token attributes w
  = Done (parseAttribute path token attributes).1
         (w ++ (parseAttribute path token attributes).2).
Proof.
  unfold imageAttribute, parseAttribute.
  change (B "=") with [x3d]. rewrite Split_pieces.
  destruct (pieces x3d token) as [|key [|value [|x t]]];
    try (cbn; by rewrite <- ?app_assoc).
  - change (negb (len [key; value] =? 2)) with false.
    change (index [key; value] 0) with (@ret bytes key).
    change (index [key; value] 1) with (@ret bytes value).
    run.
    destruct (bool_decide (key = B "width") || bool_decide (key = B "label"));
      [cbn [fst snd]; by rewrite app_nil_r|].
    destruct (bool_decide (key = B "caption")); [cbn [fst snd]; by rewrite app_nil_r|].
    run. cbn [fst snd]. by rewrite <- ?app_assoc.
  - assert (Hlen : negb (len (key :: value :: x :: t) =? 2) = true).
    { unfold len. apply negb_true_iff, Z.eqb_neq. simpl. lia. }
    rewrite Hlen. run. cbn [fst snd]. by rewrite <- ?app_assoc.
Qed.

Lemma imageAttributes_parse (path : bytes) (tokens : list bytes) :
  ∀ (attributes : gmap bytes bytes) (w : bytes),
    imageAttributes path tokens attributes w
    = Done (parseAttributes path tokens attributes).1
           (w ++ (parseAttributes path tokens attributes).2).
Proof.
  induction tokens as [|token tokens IH]; intros attributes w.
  - cbn. by rewrite app_nil_r.
  - cbn [imageAttributes parseAttributes]. unfold bind.
    rewrite imageAttribute_parse.
    destruct (parseAttribute path token attributes) as [a1 d1]. cbn [fst snd].
    rewrite IH. destruct (parseAttributes path tokens a1) as [a2 d2]. cbn [fst snd].
    by rewrite <- app_assoc.
Qed.

Lemma renderImage_enter (source Destination Title : bytes) (cs : list Node)
    (parent next : option Node) (w : bytes) :
  renderImage source
      (mkCursor (mkNode (Image Destination Title) cs) parent next) true w
    = Done (WalkSkipChildren, None)
        (w ++ imageOutput Destination Title (imagePath Destination)
                (imageTokens Destination)).
Proof.
  unfold renderImage, imageOutput, imagePath, imageTokens, imageHeader.
  cbn [negb payload node].
  change (B "?") with [x3f]. change (B "&") with [x26]. rewrite Split_pieces.
  pose proof (pieces_nonempty x3f Destination) as Hne.
  destruct (pieces x3f Destination) as [|path [|query rest]]; [done|..].
  - change (index [path] 0) with (@ret bytes path).
    change (len [path] >? 1) with false.
    run. cbn [head default id parseAttributes]. by rewrite <- ?app_assoc.
  - assert (Hlen : (len (path :: query :: rest) >? 1) = true).
    { unfold len. apply Z.gtb_lt. simpl. lia. }
    change (index (path :: query :: rest) 0) with (@ret bytes path).
    change (index (path :: query :: rest) 1) with (@ret bytes query).
    run. rewrite Hlen. run.
    rewrite Split_pieces, imageAttributes_parse. cbn [head default id].
    destruct (parseAttributes path (pieces x26 query) ∅) as [a d]. cbn [fst snd].
    by rewrite <- ?app_assoc.
Qed.

Lemma parseAttribute_pair (path key value : bytes) (attributes : gmap bytes bytes) :
  x3d ∉ key → x3d ∉ value →
  parseAttribute path (key ++ x3d :: value) attributes
  = if bool_decide (key = B "width") || bool_decide (key = B "label") then
      (<[key := value]> attributes, [])
    else if bool_decide (key = B "caption") then
      (<[B "caption" := GoStrings.ReplaceAll value (B "%20") (B " ")]> attributes, [])
    else
      (attributes,
       [LF] ++ B "% goldmark-latex: image " ++ path
       ++ B " has unsupported attribute " ++ key ++ [LF]).
Proof.
  intros Hk Hv. unfold parseAttribute.
  by rewrite pieces_app, (pieces_none _ value) by done.
Qed.

Lemma attr_insert_eq (attributes : gmap bytes bytes) (key value : bytes) :
  attr (<[key := value]> attributes) key = value.
Proof. unfold attr. by rewrite lookup_insert_eq. Qed.

Lemma attr_insert_ne (attributes : gmap bytes bytes) (key key' value : bytes) :
  key ≠ key' → attr (<[key := value]> attributes) key' = attr attributes key'.
Proof. intros Hne. unfold attr. by rewrite lookup_insert_ne. Qed.

Lemma attr_empty (key : bytes) : attr ∅ key = [].
Proof. unfold attr. by rewrite lookup_empty. Qed.

(** The figure block of a destination whose only attribute is a width. *)
Lemma figure_width (path value : bytes) :
  figure path (<[B "width" := value]> ∅)
  = B "\begin{figure}[h]" ++ [LF; TAB] ++ B "\centering" ++ [LF; TAB]
    ++ B "\includegraphics[width=" ++ value ++ B "\textwidth]{" ++ path ++ B "}"
    ++ [LF; TAB] ++ B "\caption{}" ++ [LF; TAB] ++ B "\label {}" ++ [LF]
    ++ B "\end{figure}" ++ [LF].
Proof.
  unfold figure.
  rewrite (attr_insert_ne _ (B "width") (B "caption")) by compute_done.
  rewrite (attr_insert_ne _ (B "width") (B "label")) by compute_done.
  rewrite attr_insert_eq, attr_empty. reflexivity.
Qed.

(** C8 (as amended): the image handler cuts the destination at every [?]:
    the text before the first [?] is the path, the text between the first
    and the second [?] (or the end) is the query string, and what follows
    a second [?] is ignored.  The query string is cut at every [&]; a token
    [key=value] sets width or label to the value, or caption to the value
    with every [%20] replaced by a space; any other key and any token
    without [=] add one diagnostic comment each and leave the attributes as
    they are.  The figure block is written from the path and the
    attributes, a missing attribute as the empty string.  The destination
    [pic.png?width=0.5&caption=A%20B&bogus=1] gives the path [pic.png],
    width [0.5], caption [A B], no label and the one comment for bogus. *)
Theorem renderImage_attributes (source Destination Title path : bytes)
    (attributes : gmap bytes bytes) (cs : list Node) (parent next : option Node)
    (w : bytes) :
  renderImage source
      (mkCursor (mkNode (Image Destination Title) cs) parent next) true w
    = Done (WalkSkipChildren, None)
        (w ++ imageOutput Destination Title (imagePath Destination)
                (imageTokens Destination))
  ∧ GoStrings.Split Destination (B "?") = pieces x3f Destination
  ∧ joined x3f (pieces x3f Destination) = Destination
  ∧ Forall (λ p, x3f ∉ p) (pieces x3f Destination)
  ∧ (∀ p, x3f ∉ p → imagePath p = p ∧ imageTokens p = [])
  ∧ (∀ p q, x3f ∉ p → x3f ∉ q →
       imagePath (p ++ x3f :: q) = p ∧ imageTokens (p ++ x3f :: q) = pieces x26 q)
  ∧ (∀ p q rest, x3f ∉ p → x3f ∉ q →
       imagePath (p ++ x3f :: q ++ x3f :: rest) = p
       ∧ imageTokens (p ++ x3f :: q ++ x3f :: rest) = pieces x26 q)
  ∧ (∀ key value, x3d ∉ key → x3d ∉ value → key ∈ [B "width"; B "label"] →
       parseAttribute path (key ++ x3d :: value) attributes
       = (<[key := value]> attributes, []))
  ∧ (∀ value, x3d ∉ value →
       parseAttribute path (B "caption" ++ x3d :: value) attributes
       = (<[B "caption" := GoStrings.ReplaceAll value (B "%20") (B " ")]> attributes,
          []))
  ∧ (∀ key value, x3d ∉ key → x3d ∉ value →
       key ∉ [B "width"; B "label"; B "caption"] →
       parseAttribute path (key ++ x3d :: value) attributes
       = (attributes,
          [LF] ++ B "% goldmark-latex: image " ++ path
          ++ B " has unsupported attribute " ++ key ++ [LF]))
  ∧ (∀ token, x3d ∉ token →
       parseAttribute path token attributes
       = (attributes,
          [LF] ++ B "% goldmark-latex: image " ++ path
          ++ B " has invalid attribute " ++ token ++ [LF]))
  ∧ (∀ key, attributes !! key = None → attr attributes key = [])
  ∧ imagePath (B "pic.png?width=0.5&caption=A%20B&bogus=1") = B "pic.png"
  ∧ parseAttributes (B "pic.png")
      (imageTokens (B "pic.png?width=0.5&caption=A%20B&bogus=1")) ∅
    = (<[B "caption" := B "A B"]> (<[B "width" := B "0.5"]> ∅),
       [LF] ++ B "% goldmark-latex: image pic.png has unsupported attribute bogus"
       ++ [LF])
  ∧ figure (B "pic.png") (<[B "caption" := B "A B"]> (<[B "width" := B "0.5"]> ∅))
    = B "\begin{figure}[h]" ++ [LF; TAB] ++ B "\centering" ++ [LF; TAB]
      ++ B "\includegraphics[width=0.5\textwidth]{pic.png}" ++ [LF; TAB]
      ++ B "\caption{A B}" ++ [LF; TAB] ++ B "\label {}" ++ [LF]
      ++ B "\end{figure}" ++ [LF].
Proof.
  split; [apply renderImage_enter|].
  split; [apply (Split_pieces x3f)|].
  split; [apply pieces_joined|].
  split; [apply pieces_free|].
  split.
  { intros p Hp. unfold imagePath, imageTokens. by rewrite pieces_none. }
  split.
  { intros p q Hp Hq. unfold imagePath, imageTokens.
    by rewrite pieces_app, (pieces_none _ q). }
  split.
  { intros p q rest Hp Hq. unfold imagePath, imageTokens.
    by rewrite pieces_app, pieces_app. }
  split.
  { intros key value Hk Hv Hkey. rewrite parseAttribute_pair by done.
    rewrite !elem_of_cons, elem_of_nil in Hkey.
    destruct Hkey as [-> | [-> | []]]; reflexivity. }
  split.
  { intros value Hv. rewrite parseAttribute_pair; [reflexivity | compute_done | done]. }
  split.
  { intros key value Hk Hv Hkey. rewrite parseAttribute_pair by done.
    rewrite !not_elem_of_cons in Hkey. destruct Hkey as (H1 & H2 & H3 & _).
    by rewrite !bool_decide_false. }
  split.
  { intros token Ht. unfold parseAttribute. by rewrite pieces_none. }
  split.
  { intros key Hk. unfold attr. by rewrite Hk. }
  split; [reflexivity|].
  split.
  - change (imageTokens (B "pic.png?width=0.5&caption=A%20B&bogus=1"))
      with [B "width" ++ x3d :: B "0.5"; B "caption" ++ x3d :: B "A%20B";
            B "bogus" ++ x3d :: B "1"].
    cbn [parseAttributes].
    rewrite !parseAttribute_pair by compute_done.
    reflexivity.
  - unfold figure.
    rewrite (attr_insert_ne _ (B "caption") (B "width")) by compute_done.
    rewrite (attr_insert_ne _ (B "caption") (B "label")) by compute_done.
    rewrite (attr_insert_ne _ (B "width") (B "label")) by compute_done.
    rewrite !attr_insert_eq, attr_empty. reflexivity.
Qed.

Lemma renderImage_attributes_witness :
  parseAttribute (B "pic.png") (B "width=0.5") ∅ = (<[B "width" := B "0.5"]> ∅, [])
  ∧ parseAttribute (B "pic.png") (B "bogus=1") ∅
    = (∅, [LF] ++ B "% goldmark-latex: image pic.png has unsupported attribute bogus"
          ++ [LF])
  ∧ imageTokens (B "pic.png?a&b") = [B "a"; B "b"].
Proof.
  destruct (renderImage_attributes [] [] [] (B "pic.png") ∅ [] None None [])
    as (_ & _ & _ & _ & _ & Hone & _ & Hset & _ & Hother & _).
  split; [|split].
  - apply (Hset (B "width") (B "0.5")); compute_done.
  - apply (Hother (B "bogus") (B "1")); compute_done.
  - apply (Hone (B "pic.png") (B "a&b")); compute_done.
Defined.

(** Counterexample to C8 as the specification words it: cut at the first
    [?] only, the width of [p?width=1?2] would be [1?2]; the handler writes
    the width [1]. *)
Lemma renderImage_second_question_mark :
  renderImage []
      (mkCursor (mkNode (Image (B "p?width=1?2") []) []) None None) true []
  ≠ Done (WalkSkipChildren, None)
      (imageOutput (B "p?width=1?2") [] (cutFirst x3f (B "p?width=1?2")).1
         (imageTokensFirst (B "p?width=1?2"))).
Proof.
  rewrite renderImage_enter.
  change (imagePath (B "p?width=1?2")) with (B "p").
  change (imageTokens (B "p?width=1?2")) with [B "width" ++ x3d :: B "1"].
  change (cutFirst x3f (B "p?width=1?2")).1 with (B "p").
  change (imageTokensFirst (B "p?width=1?2")) with [B "width" ++ x3d :: B "1?2"].
  unfold imageOutput. cbn [parseAttributes].
  rewrite !parseAttribute_pair by compute_done.
  change (bool_decide (B "width" = B "width") || bool_decide (B "width" = B "label"))
    with true.
  cbv beta iota. rewrite !figure_width.
  intros H. apply (f_equal (λ o, match o with Done _ w => length w | _ => O end)) in H.
  vm_compute in H. discriminate.
Qed.

(** ** The render pass *)

Lemma Yields_ret {A} (P : A → bytes → Prop) (a : A) : P a [] → Yields P (ret a).
Proof. intros HP w a' w' [= <- <-]. exists []. by rewrite app_nil_r. Qed.

Lemma Yields_throw {A} (P : A → bytes → Prop) (p : panic) : Yields P (throw p).
Proof. intros w a w' [=]. Qed.

Lemma Yields_Write (P : unit → bytes → Prop) (p : bytes) : P tt p → Yields P (Write p).
Proof. intros HP w [] w' [= <-]. by exists p. Qed.

Lemma Yields_bind {A C} (Q : A → bytes → Prop) (P : C → bytes → Prop)
    (m : M A) (k : A → M C) :
  Yields Q m → (∀ a o1, Q a o1 → Yields (λ c o2, P c (o1 ++ o2)) (k a)) →
  Yields P (bind m k).
Proof.
  intros Hm Hk w c w'. unfold bind.
  destruct (m w) as [a w1|] eqn:Hw; [|done]. intros Hkw.
  destruct (Hm _ _ _ Hw) as (o1 & -> & HQ).
  destruct (Hk _ _ HQ _ _ _ Hkw) as (o2 & -> & HP).
  exists (o1 ++ o2). by rewrite app_assoc.
Qed.

Lemma Yields_weaken {A} (P Q : A → bytes → Prop) (m : M A) :
  Yields P m → (∀ a o, P a o → Q a o) → Yields Q m.
Proof.
  intros Hm HPQ w a w' Hw. destruct (Hm _ _ _ Hw) as (o & -> & HP). eauto.
Qed.

Lemma Yields_seq {A} (P : A → bytes → Prop) (m : M unit) (k : M A) :
  Appends m → (∀ o1, Yields (λ c o2, P c (o1 ++ o2)) k) → Yields P (bind m (λ _, k)).
Proof. intros Hm Hk. eapply Yields_bind; [exact Hm|]. intros a o1 _. apply Hk. Qed.

Lemma Appends_ret {A} (a : A) : Appends (ret a).
Proof. by apply Yields_ret. Qed.

Lemma Appends_throw {A} (p : panic) : @Appends A (throw p).
Proof. apply Yields_throw. Qed.

Lemma Appends_Write (p : bytes) : Appends (Write p).
Proof. by apply Yields_Write. Qed.

Lemma Appends_bind {A C} (m : M A) (k : A → M C) :
  Appends m → (∀ a, Appends (k a)) → Appends (bind m k).
Proof.
  intros Hm Hk. eapply Yields_bind; [exact Hm|]. intros a o1 _.
  eapply Yields_weaken; [apply Hk | done].
Qed.

Lemma Appends_escapeLaTeX (s : bytes) : Appends (escapeLaTeX s).
Proof. intros w [] w'. rewrite escapeLaTeX_escaped. intros [= <-]. eauto. Qed.

Lemma Appends_if {A} (b : bool) (m1 m2 : M A) :
  Appends m1 → Appends m2 → Appends (if b then m1 else m2).
Proof. by destruct b. Qed.

Lemma Appends_writeRawLines (r : Renderer) (source : bytes) (n : Cursor) :
  Appends (writeRawLines r source n).
Proof.
  intros w [] w'. unfold writeRawLines. rewrite writeRawLinesLoop_rawLine.
  intros [= <-]. eauto.
Qed.

Lemma Appends_sliceTo {A} (s : list A) (hi : Z) : Appends (sliceTo s hi).
Proof.
  unfold sliceTo. destruct (_ || _); [apply Appends_throw | apply Appends_ret].
Qed.

Lemma Appends_index {A} (t : list A) (i : Z) : Appends (index t i).
Proof.
  unfold index. destruct (i <? 0); [apply Appends_throw|].
  destruct (t !! Z.to_nat i); [apply Appends_ret | apply Appends_throw].
Qed.

Create HintDb appends.
#[local] Hint Resolve Appends_ret Appends_throw Appends_Write Appends_escapeLaTeX
  Appends_writeRawLines Appends_sliceTo Appends_index : appends.

Ltac appends :=
  repeat first
    [ progress (unfold WriteByte, comment, continue_, skipChildren, escLink)
    | solve [auto with appends]
    | apply Appends_bind; [|intros ?]
    | apply Appends_if
    | match goal with
      | |- Appends (match ?x with _ => _ end) => destruct x
      end ].

Lemma Appends_writeDeclaration (char : Z) (replace : bytes) :
  Appends (writeDeclaration char replace).
Proof. unfold writeDeclaration. appends. Qed.

Lemma Appends_writeDeclarations (ds : list (Z * bytes)) : Appends (writeDeclarations ds).
Proof.
  induction ds as [|d ds IH]; cbn [writeDeclarations]; [appends|].
  apply Appends_bind; [apply Appends_writeDeclaration | done].
Qed.

Lemma Appends_codeSpanChildren (source : bytes) (cs : list Node) :
  Appends (codeSpanChildren source cs).
Proof.
  induction cs as [|c cs IH]; cbn [codeSpanChildren]; [appends|].
  destruct (payload c); try apply Appends_throw.
  apply Appends_bind; [appends | done].
Qed.

Lemma Appends_imageAttributes (path : bytes) (tokens : list bytes)
    (attributes : gmap bytes bytes) :
  Appends (imageAttributes path tokens attributes).
Proof.
  intros w a w'. rewrite imageAttributes_parse. intros [= <- <-]. eauto.
Qed.

Lemma Appends_declareLoop (f : Z → bytes * bool) (source : bytes) :
  Appends (declareLoop (length source) f source 0 ∅).
Proof.
  intros w a w' Hw.
  rewrite (declareLoop_spec f source _ 0%nat ∅ []) in Hw.
  - by apply Appends_writeDeclarations in Hw.
  - intros c. rewrite elem_of_nil. set_solver.
Qed.

#[local] Hint Resolve Appends_writeDeclarations Appends_codeSpanChildren
  Appends_imageAttributes Appends_declareLoop : appends.

Lemma GoesOn_continue : GoesOn continue_.
Proof. by apply Yields_ret. Qed.

Lemma GoesOn_skipChildren : GoesOn skipChildren.
Proof. by apply Yields_ret. Qed.

Lemma GoesOn_throw (p : panic) : GoesOn (throw p).
Proof. apply Yields_throw. Qed.

Lemma GoesOn_bind {A} (m : M A) (k : A → M (WalkStatus * error)) :
  Appends m → (∀ a, GoesOn (k a)) → GoesOn (bind m k).
Proof.
  intros Hm Hk. eapply Yields_bind; [exact Hm|]. intros a o1 _.
  eapply Yields_weaken; [apply Hk | done].
Qed.

Lemma GoesOn_if (b : bool) (m1 m2 : M (WalkStatus * error)) :
  GoesOn m1 → GoesOn m2 → GoesOn (if b then m1 else m2).
Proof. by destruct b. Qed.

Ltac goes_on :=
  repeat first
    [ apply GoesOn_continue
    | apply GoesOn_skipChildren
    | apply GoesOn_throw
    | apply GoesOn_bind; [solve [appends] | intros ?]
    | apply GoesOn_if
    | match goal with
      | |- GoesOn (match ?x with _ => _ end) => destruct x
      end ].

Lemma GoesOn_handlerPost (n : Cursor) (entering : bool) (m : M (WalkStatus * error)) :
  (Kind (node n) = KindDocument → entering = true) →
  GoesOn m → Yields (handlerPost n entering) m.
Proof.
  intros Hk Hm. eapply Yields_weaken; [exact Hm|].
  intros res out [Herr Hst]. split; [done|]. split; [|done].
  split; [done|]. intros [Hd ->]. by specialize (Hk Hd).
Qed.

Lemma renderDocument_exit (defaultPreamble : bytes) (r : Renderer) (source : bytes)
    (n : Cursor) (w : bytes) :
  renderDocument defaultPreamble r source n false w
  = Done (WalkStop, None)
      (w ++ (B "% goldmark-latex: end of document" ++ [LF]) ++ endDocument).
Proof. unfold renderDocument. cbn [negb]. run. by rewrite <- ?app_assoc. Qed.

Lemma renderDocument_goes_on (defaultPreamble : bytes) (r : Renderer) (source : bytes)
    (n : Cursor) :
  GoesOn (renderDocument defaultPreamble r source n true).
Proof. unfold renderDocument. cbn [negb]. goes_on. Qed.

(** Every handler invocation that returns has a nil error, and only the
    exit of a Document node answers [WalkStop]. *)
Lemma dispatch_yields (ext : Extern) (r : Renderer) (source : bytes) (n : Cursor)
    (entering : bool) :
  Yields (handlerPost n entering) (dispatch ext r source n entering).
Proof.
  unfold dispatch, Kind. destruct n as [[p cs] parent next]. cbn [node payload].
  destruct p; cbn [RegisterFuncs];
    try (apply GoesOn_handlerPost; [by unfold Kind|];
         unfold renderHeading, renderBlockquote, renderCodeBlock, renderFencedCodeBlock,
           renderHTMLBlock, renderList, renderListItem, renderParagraph, renderTextBlock,
           renderThematicBreak, renderAutoLink, renderCodeSpan, renderEmphasis,
           renderImage, renderLink, renderRawHTML, renderText, renderString;
         cbn [node payload]; solve [goes_on]).
  destruct entering.
  - apply GoesOn_handlerPost; [done | apply renderDocument_goes_on].
  - intros w res w'. rewrite renderDocument_exit. intros [= <- <-].
    exists ((B "% goldmark-latex: end of document" ++ [LF]) ++ endDocument).
    split; [reflexivity|]. split; [reflexivity|].
    split; [by split|]. intros _. by eexists.
Qed.

Lemma Node_children_ind (P : Node → Prop) :
  (∀ p cs, Forall P cs → P (mkNode p cs)) → ∀ n, P n.
Proof.
  intros H. fix IH 1. intros [p cs]. apply H.
  induction cs as [|c cs IHcs]; constructor; [apply IH | exact IHcs].
Qed.

Lemma stops_false (res : WalkStatus * error) :
  snd res = None → fst res ≠ WalkStop → stops res = false.
Proof.
  intros He Hs. unfold stops. rewrite He.
  rewrite bool_decide_false by (intros H; by apply H).
  by rewrite bool_decide_false.
Qed.

Lemma stops_true (res : WalkStatus * error) :
  snd res = None → stops res = true → fst res = WalkStop.
Proof.
  intros He. unfold stops. rewrite He.
  rewrite bool_decide_false by (intros H; by apply H).
  cbn [orb]. apply bool_decide_eq_true.
Qed.

Lemma walkChildren_yields (walk : Node → option Node → M (WalkStatus * error))
    (cs : list Node) :
  Forall (λ c, ∀ next, Yields walkPost (walk c next)) cs →
  Yields childrenPost (walkChildren walk cs).
Proof.
  induction 1 as [|c cs Hc _ IH]; cbn [walkChildren].
  - by apply Yields_ret.
  - eapply Yields_bind; [apply Hc|]. intros rc o1 [Herr Hstop].
    destruct (stops rc) eqn:Hs.
    + apply Yields_ret. cbn [childrenPost]. split; [done|].
      rewrite app_nil_r. by apply Hstop, stops_true.
    + eapply Yields_weaken; [exact IH|]. intros [err|] o2; [|done].
      intros [-> [o ->]]. split; [done|]. exists (o1 ++ o). by rewrite app_assoc.
Qed.

(** A walk over the registered handlers that returns has a nil error, and
    was stopped only by the exit of a Document node. *)
Lemma walkHelper_yields (ext : Extern) (r : Renderer) (source : bytes) (n : Node) :
  ∀ parent next,
    Yields walkPost (walkHelper (dispatch ext r source) parent n next).
Proof.
  induction n as [p cs IH] using Node_children_ind. intros parent next.
  cbn [walkHelper children].
  eapply Yields_bind; [apply dispatch_yields|].
  intros res o1 (Herr & Hstop & _).
  rewrite stops_false; [|done|].
  2:{ intros Hs. apply Hstop in Hs as [_ [=]]. }
  eapply Yields_bind with (Q := childrenPost).
  { destruct (bool_decide (res.1 ≠ WalkSkipChildren)).
    - apply walkChildren_yields. eapply Forall_impl; [exact IH|].
      intros c Hc next'. apply Hc.
    - by apply Yields_ret. }
  intros [err|] o2 Hpost.
  - destruct Hpost as [-> [o ->]]. apply Yields_ret. split; [done|]. intros _.
    exists (o1 ++ o). by rewrite app_nil_r, app_assoc.
  - eapply Yields_bind; [apply dispatch_yields|].
    intros res' o3 (Herr' & _ & Hend).
    destruct (stops res') eqn:Hs; apply Yields_ret.
    + split; [done|]. intros _. destruct (Hend (stops_true _ Herr' Hs)) as [o ->].
      exists (o1 ++ o2 ++ o). by rewrite app_nil_r, !app_assoc.
    + by split.
Qed.

Ltac strip w x :=
  lazymatch x with
  | w ++ ?o => o
  | ?y ++ ?z => let o := strip w y in constr:(o ++ z)
  end.

Lemma renderDocument_begins (defaultPreamble : bytes) (r : Renderer) (source : bytes)
    (n : Cursor) :
  Yields (λ res out, res = (WalkContinue, None)
                     ∧ ∃ pre title, out = pre ++ beginDocument ++ title)
    (renderDocument defaultPreamble r source n true).
Proof.
  intros w res w'. rewrite renderDocument_enter. unfold bind, Write, ret.
  destruct (DeclareUnicode r) as [f|].
  - destruct (writeDeclarations (declarations f source) _) as [[] w1|] eqn:Hw; [|done].
    apply Appends_writeDeclarations in Hw as (o & -> & _).
    intros [= <- <-].
    match goal with
    | |- ∃ out, ?x ++ ?c = w ++ out ∧ _ =>
        let o := strip w x in
        exists (o ++ c); split; [by rewrite <- !app_assoc|];
        split; [done|];
        exists o, (if makeTitle r then B "\maketitle" ++ [LF] else []); reflexivity
    end.
  - intros [= <- <-].
    match goal with
    | |- ∃ out, ?x ++ ?c = w ++ out ∧ _ =>
        let o := strip w x in
        exists (o ++ c); split; [by rewrite <- !app_assoc|];
        split; [done|];
        exists o, (if makeTitle r then B "\maketitle" ++ [LF] else []); reflexivity
    end.
Qed.

(** A render pass of a Document that returns has a nil error and has
    written the begin marker and, last, the end marker. *)
Lemma Render_envelope (ext : Extern) (r : Renderer) (source : bytes)
    (cs : list Node) (err : error) (out : bytes) :
  Render ext r source (mkNode Document cs) = Done err out →
  err = None ∧ ∃ pre body, out = pre ++ beginDocument ++ body ++ endDocument.
Proof.
  unfold Render, Walk. cbn [walkHelper children]. unfold bind at 1.
  destruct (bind _ _ []) as [res w|] eqn:Hw; [|done].
  unfold ret. intros [= <- <-]. revert Hw.
  change (dispatch ext r source (mkCursor (mkNode Document cs) None None) true)
    with (renderDocument (defaultPreamble ext) r source
            (mkCursor (mkNode Document cs) None None) true).
  intros Hw.
  assert (HY : Yields (λ res out, snd res = None
                 ∧ ∃ pre body, out = pre ++ beginDocument ++ body ++ endDocument)
            (let* r0 := renderDocument (defaultPreamble ext) r source
                          (mkCursor (mkNode Document cs) None None) true in
             if stops r0 then ret r0 else
             let* stopped :=
               (if bool_decide (r0.1 ≠ WalkSkipChildren)
                then walkChildren
                       (walkHelper (dispatch ext r source) (Some (mkNode Document cs))) cs
                else ret None) in
             match stopped with
             | Some err => ret (WalkStop, err)
             | None =>
                 let* r1 := dispatch ext r source
                              (mkCursor (mkNode Document cs) None None) false in
                 if stops r1 then ret (WalkStop, r1.2) else ret (WalkContinue, None)
             end)).
  { eapply Yields_bind; [apply renderDocument_begins|].
    intros r0 o1 [-> (pre & title & ->)].
    change (stops (WalkContinue, None)) with false. cbv iota.
    change (bool_decide ((WalkContinue, @None bytes).1 ≠ WalkSkipChildren)) with true.
    cbv iota.
    eapply Yields_bind with (Q := childrenPost).
    { apply walkChildren_yields. apply Forall_forall. intros c _ next.
      apply walkHelper_yields. }
    intros [e|] o2 Hpost.
    - destruct Hpost as [-> [o ->]]. apply Yields_ret. split; [done|].
      exists pre, (title ++ o). by rewrite app_nil_r, <- !app_assoc.
    - change (dispatch ext r source (mkCursor (mkNode Document cs) None None) false)
        with (renderDocument (defaultPreamble ext) r source
                (mkCursor (mkNode Document cs) None None) false).
      intros w0 res0 w0'. unfold bind. rewrite renderDocument_exit.
      change (stops (WalkStop, None)) with true. cbv iota. unfold ret.
      intros [= <- <-].
      exists ((B "% goldmark-latex: end of document" ++ [LF]) ++ endDocument).
      split; [reflexivity|]. split; [done|].
      exists pre, (title ++ o2 ++ (B "% goldmark-latex: end of document" ++ [LF])).
      by rewrite <- !app_assoc. }
  destruct (HY _ _ _ Hw) as (o & -> & Herr & pre & body & ->).
  split; [done|]. by exists pre, body.
Qed.

(** ** When the render pass returns *)

Lemma Total_ret {A} (a : A) : Total (ret a).
Proof. intros w. by eexists _, _. Qed.

Lemma Total_Write (p : bytes) : Total (Write p).
Proof. intros w. by eexists _, _. Qed.

Lemma Total_bind {A C} (m : M A) (k : A → M C) :
  Total m → (∀ a, Total (k a)) → Total (bind m k).
Proof.
  intros Hm Hk w. destruct (Hm w) as (a & w1 & Hw). unfold bind. rewrite Hw. apply Hk.
Qed.

Lemma Total_bind_ret {A C} (a : A) (k : A → M C) : Total (k a) → Total (bind (ret a) k).
Proof. intros Hk w. apply Hk. Qed.

Lemma Total_if {A} (b : bool) (m1 m2 : M A) :
  Total m1 → Total m2 → Total (if b then m1 else m2).
Proof. by destruct b. Qed.

Lemma Total_escapeLaTeX (s : bytes) : Total (escapeLaTeX s).
Proof. intros w. rewrite escapeLaTeX_escaped. by eexists _, _. Qed.

Lemma Total_writeRawLines (r : Renderer) (source : bytes) (n : Cursor) :
  Total (writeRawLines r source n).
Proof. intros w. unfold writeRawLines. rewrite writeRawLinesLoop_rawLine. by eexists _, _. Qed.

Lemma Total_imageAttributes (path : bytes) (tokens : list bytes)
    (attributes : gmap bytes bytes) :
  Total (imageAttributes path tokens attributes).
Proof. intros w. rewrite imageAttributes_parse. by eexists _, _. Qed.

Create HintDb total.
#[local] Hint Resolve Total_ret Total_Write Total_escapeLaTeX Total_writeRawLines
  Total_imageAttributes : total.

Ltac total :=
  repeat first
    [ progress (unfold WriteByte, comment, continue_, skipChildren, escLink)
    | solve [auto with total]
    | apply Total_bind_ret
    | apply Total_bind; [|intros ?]
    | apply Total_if
    | match goal with
      | |- Total (match ?x with _ => _ end) => destruct x
      end ].

Lemma Total_codeSpanChildren (source : bytes) (cs : list Node) :
  Forall isText cs → Total (codeSpanChildren source cs).
Proof.
  induction 1 as [|c cs Hc _ IH]; cbn [codeSpanChildren]; [total|].
  unfold isText in Hc. destruct (payload c); try done.
  apply Total_bind; [total | done].
Qed.

Lemma Total_renderHeading (r : Renderer) (source : bytes) (Level : Z) (cs : list Node)
    (parent next : option Node) (entering : bool) :
  headingLevel r Level <= 5 →
  Total (renderHeading r source (mkCursor (mkNode (Heading Level) cs) parent next)
           entering).
Proof.
  intros Hle. pose proof (headingLevel_range r Level) as Hr.
  unfold renderHeading. cbn [payload node]. destruct entering; [|total].
  fold (headingLevel r Level).
  set (e := headingLevel r Level) in *.
  assert (He : e = 0 ∨ e = 1 ∨ e = 2 ∨ e = 3 ∨ e = 4 ∨ e = 5) by lia.
  destruct (NoHeadingNumbering r);
    destruct He as [-> | [-> | [-> | [-> | [-> | ->]]]]];
    unfold index;
    repeat (match goal with
            | |- context [@lookup nat ?A ?L ?I ?i ?t] =>
                let v := eval vm_compute in (@lookup nat A L I i t) in
                change (@lookup nat A L I i t) with v
            | |- context [?a <? ?b] =>
                let v := eval vm_compute in (a <? b) in change (a <? b) with v
            | |- context [?a >=? ?b] =>
                let v := eval vm_compute in (a >=? b) in change (a >=? b) with v
            end; cbv beta iota);
    total.
Qed.

Lemma Total_renderDocument (defaultPreamble : bytes) (r : Renderer) (source : bytes)
    (n : Cursor) (entering : bool) :
  scannable r source → Total (renderDocument defaultPreamble r source n entering).
Proof.
  intros Hscan. unfold renderDocument. destruct entering; cbn [negb]; [|total].
  apply Total_bind; [total | intros _].
  apply Total_bind; [total | intros _].
  apply Total_bind; [|intros _; total].
  destruct (DeclareUnicode r) as [f|] eqn:Hf; [|total].
  apply Total_bind; [total | intros _].
  intros w. destruct (proj2 (declareLoop_returns f source w) (Hscan f Hf)) as [w' Hw].
  by eexists _, _.
Qed.

(** On a node that is fine a handler returns. *)
Lemma dispatch_total (ext : Extern) (r : Renderer) (source : bytes)
    (p : Payload) (cs : list Node) (parent : Node) (next : option Node)
    (entering : bool) :
  nodeOK r p cs → scannable r source →
  Total (dispatch ext r source (mkCursor (mkNode p cs) (Some parent) next) entering).
Proof.
  intros Hok Hscan. unfold dispatch, Kind. cbn [node payload].
  destruct p; cbn [RegisterFuncs nodeOK] in *;
    try (unfold renderBlockquote, renderCodeBlock, renderFencedCodeBlock,
           renderHTMLBlock, renderList, renderListItem, renderParagraph, renderTextBlock,
           renderThematicBreak, renderAutoLink, renderEmphasis,
           renderImage, renderLink, renderRawHTML, renderText, renderString;
         cbn [node payload Parent]; solve [total]).
  - by apply Total_renderDocument.
  - by apply Total_renderHeading.
  - unfold renderCodeSpan. cbn [node children].
    destruct entering; cbn [negb]; [|total].
    apply Total_bind; [total | intros _].
    apply Total_bind; [by apply Total_codeSpanChildren | intros _; total].
  - unfold renderImage. cbn [node payload]. destruct entering; cbn [negb]; [|total].
    apply Total_bind; [total | intros _].
    pose proof (pieces_nonempty x3f Destination) as Hne.
    change (B "?") with [x3f]. rewrite Split_pieces.
    destruct (pieces x3f Destination) as [|path [|query rest]]; [done|..].
    + change (index [path] 0) with (@ret bytes path).
      change (len [path] >? 1) with false. total.
    + change (index (path :: query :: rest) 0) with (@ret bytes path).
      change (index (path :: query :: rest) 1) with (@ret bytes query).
      total.
Qed.

Lemma walkChildren_total (walk : Node → option Node → M (WalkStatus * error))
    (cs : list Node) :
  Forall (λ c, ∀ next, Total (walk c next)) cs → Total (walkChildren walk cs).
Proof.
  induction 1 as [|c cs Hc _ IH]; cbn [walkChildren]; [apply Total_ret|].
  apply Total_bind; [apply Hc | intros rc].
  destruct (stops rc); [apply Total_ret | exact IH].
Qed.

Lemma walkHelper_total (ext : Extern) (r : Renderer) (source : bytes) (n : Node) :
  scannable r source → renderable r n →
  ∀ parent next,
    Total (walkHelper (dispatch ext r source) (Some parent) n next).
Proof.
  intros Hscan. induction n as [p cs IH] using Node_children_ind.
  intros Hn parent next. inversion Hn as [p' cs' Hok Hcs]; subst.
  cbn [walkHelper children].
  apply Total_bind; [by apply dispatch_total | intros res].
  destruct (stops res); [apply Total_ret|].
  apply Total_bind.
  { destruct (bool_decide _); [|apply Total_ret].
    apply walkChildren_total. apply Forall_forall. intros c Hc next'.
    rewrite Forall_forall in IH, Hcs. by apply IH; [|apply Hcs]. }
  intros [err|]; [apply Total_ret|].
  apply Total_bind; [by apply dispatch_total | intros res'].
  destruct (stops res'); apply Total_ret.
Qed.

(** On a Document whose subtrees are fine and whose source can be scanned,
    the render pass returns a nil error and has written the envelope. *)
Lemma Render_completes (ext : Extern) (r : Renderer) (source : bytes) (cs : list Node) :
  scannable r source → Forall (renderable r) cs →
  ∃ pre body,
    Render ext r source (mkNode Document cs)
    = Done None (pre ++ beginDocument ++ body ++ endDocument).
Proof.
  intros Hscan Hcs.
  assert (Ht : Total (walkHelper (dispatch ext r source) None (mkNode Document cs) None)).
  { cbn [walkHelper children].
    apply Total_bind; [by apply Total_renderDocument | intros res].
    destruct (stops res); [apply Total_ret|].
    apply Total_bind.
    { destruct (bool_decide _); [|apply Total_ret].
      apply walkChildren_total. apply Forall_forall. intros c Hc next.
      rewrite Forall_forall in Hcs. by apply walkHelper_total; [|apply Hcs]. }
    intros [err|]; [apply Total_ret|].
    apply Total_bind; [by apply Total_renderDocument | intros res'].
    destruct (stops res'); apply Total_ret. }
  destruct (Ht []) as ([st err] & out & Hw).
  assert (HR : Render ext r source (mkNode Document cs) = Done err out).
  { unfold Render, Walk, bind. by rewrite Hw. }
  destruct (Render_envelope _ _ _ _ _ _ HR) as (-> & pre & body & ->).
  by exists pre, body.
Qed.

(** C2: every handler invocation that returns has a nil error, only the exit
    of a Document node answers [WalkStop], and a render pass that returns
    has written the begin marker and, last, the end marker
    ([dispatch_yields], [Render_envelope]); it returns on every tree whose
    headings stay within the table when no replaced code point lies above
    U+FFFF ([Render_completes]).  But a render pass does not always return:
    a level-6 heading under the offset 1, and a replaced code point above
    U+FFFF in the source, make it panic. *)
Theorem Render_panics (ext : Extern) (source : bytes) (cs : list Node)
    (nonumbering unsafe title : bool) (preamble : option bytes) :
  Render ext (mkRenderer 1 nonumbering preamble unsafe None title) source
    (mkNode Document [mkNode (Heading 6) cs])
  = Panicked IndexOutOfRange
  ∧ Render ext
      (mkRenderer 0 nonumbering preamble unsafe (Some (λ _, (B "x", true))) title)
      [xf0; x9f; x98; x80] (mkNode Document cs)
    = Panicked SliceBoundsOutOfRange.
Proof.
  split.
  - unfold Render, Walk. cbn [walkHelper children walkChildren head].
    unfold dispatch. cbn [Kind payload node RegisterFuncs].
    unfold bind at 1 2.
    destruct (renderDocument _ _ _ _ true []) as [[st err] w|] eqn:Hd; [|exfalso].
    + pose proof (renderDocument_begins _ _ _ _ _ _ _ Hd) as (o & -> & [= -> ->] & _).
      change (stops (WalkContinue, None)) with false. cbv iota.
      change (bool_decide ((WalkContinue, @None bytes).1 ≠ WalkSkipChildren)) with true.
      cbv iota. unfold bind.
      rewrite renderHeading_six; reflexivity.
    + revert Hd. rewrite renderDocument_enter. cbn [DeclareUnicode]. by destruct preamble.
  - unfold Render, Walk. cbn [walkHelper children].
    unfold dispatch at 1. cbn [Kind payload node RegisterFuncs].
    unfold bind at 1 2.
    by rewrite renderDocument_U1F600.
Qed.

(* ================================================================== *)
(** * Part III: further properties                                     *)
(* ================================================================== *)

(** ** More on the escaping engine *)

Lemma substitution_cases (b : byte) :
  ((b ∉ reserved) ∧ substitution b = [b])
  ∨ ((b ∈ reserved) ∧ ∃ rest, substitution b = x5c :: rest).
Proof.
  destruct (decide (b ∈ reserved)) as [Hb|Hb].
  - right. split; [done|]. unfold reserved in Hb.
    rewrite !elem_of_cons, elem_of_nil in Hb.
    destruct Hb as [-> | [-> | [-> | [-> | [-> | [-> | [-> | [-> | [-> | [-> | []]]]]]]]]]];
      eexists; vm_compute; reflexivity.
  - left. split; [done|]. by apply substitution_plain.
Qed.

(** No substitution is the beginning of another one. *)
Lemma substitution_prefix_free (a b : byte) (x y : bytes) :
  substitution a ++ x = substitution b ++ y → a = b.
Proof.
  intros H.
  destruct (substitution_cases a) as [[Ha Hsa] | [Ha [ra Hsa]]],
           (substitution_cases b) as [[Hb Hsb] | [Hb [rb Hsb]]].
  - rewrite Hsa, Hsb in H. by injection H.
  - rewrite Hsa, Hsb in H. injection H as -> _. exfalso. apply Ha.
    unfold reserved. set_solver.
  - rewrite Hsa, Hsb in H. injection H as <- _. exfalso. apply Hb.
    unfold reserved. set_solver.
  - clear Hsa Hsb. unfold reserved in Ha, Hb.
    rewrite !elem_of_cons, elem_of_nil in Ha, Hb.
    destruct Ha as [-> | [-> | [-> | [-> | [-> | [-> | [-> | [-> | [-> | [-> | []]]]]]]]]]];
    destruct Hb as [-> | [-> | [-> | [-> | [-> | [-> | [-> | [-> | [-> | [-> | []]]]]]]]]]];
      first [reflexivity | exfalso; vm_compute in H; discriminate].
Qed.

Lemma escaped_injective (s : bytes) : ∀ t, escaped s = escaped t → s = t.
Proof.
  induction s as [|a s IH]; intros [|b t] H.
  - done.
  - exfalso. cbn [escaped flat_map] in H.
    pose proof (substitution_length b) as Hl.
    apply (f_equal length) in H. rewrite length_app in H. cbn [length] in H. lia.
  - exfalso. cbn [escaped flat_map] in H.
    pose proof (substitution_length a) as Hl.
    apply (f_equal length) in H. rewrite length_app in H. cbn [length] in H. lia.
  - cbn [escaped flat_map] in H. fold (escaped s) (escaped t) in H.
    pose proof (substitution_prefix_free _ _ _ _ H) as ->.
    apply app_inv_head in H. f_equal. by apply IH.
Qed.

(** X1: the escaping engine never writes the same bytes for two different
    texts. *)
Theorem escapeLaTeX_injective (s t w : bytes) :
  s ≠ t → escapeLaTeX s w ≠ escapeLaTeX t w.
Proof.
  intros Hne. rewrite !escapeLaTeX_escaped. intros [= H].
  apply app_inv_head in H. by apply Hne, escaped_injective.
Qed.

Lemma escapeLaTeX_injective_witness :
  escapeLaTeX (B "a_b") [] ≠ escapeLaTeX (B "a\_b") [].
Proof. apply escapeLaTeX_injective. discriminate. Defined.

Lemma guardedFrom_spec (l : bytes) :
  ∀ prev, guardedFrom prev l = true →
    ∀ i c, l !! i = Some c → c ∈ special →
      match i with O => prev = x5c | S j => l !! j = Some x5c end.
Proof.
  induction l as [|x l IH]; intros prev H i c Hi Hc; [done|].
  cbn [guardedFrom] in H. apply andb_true_iff in H as [Hx Hl].
  destruct i as [|i].
  - injection Hi as ->. rewrite bool_decide_true in Hx by done.
    by apply bool_decide_eq_true in Hx.
  - cbn [lookup list_lookup] in Hi. specialize (IH _ Hl _ _ Hi Hc).
    destruct i as [|i]; [by rewrite IH | exact IH].
Qed.

Lemma openedFrom_spec (l : bytes) : openedFrom l = true → opened l.
Proof.
  induction l as [|x l IH]; intros H i Hi; [done|].
  cbn [openedFrom] in H. apply andb_true_iff in H as [Hx Hl].
  destruct i as [|i].
  - injection Hi as ->. rewrite bool_decide_true in Hx by done.
    destruct l as [|d l]; [done|]. apply bool_decide_eq_true in Hx. by exists d.
  - apply (IH Hl i Hi).
Qed.

Lemma substitution_checks (b : byte) :
  guardedFrom x00 (substitution b) = true
  ∧ openedFrom (substitution b) = true
  ∧ bool_decide (x5e ∈ substitution b) = false.
Proof. destruct b; vm_compute; done. Qed.

Lemma guarded_app (a b : bytes) : guarded a → guarded b → guarded (a ++ b).
Proof.
  intros Ha Hb i c Hi Hc. apply lookup_app_Some in Hi as [Hi | [Hlen Hi]].
  - destruct (Ha _ _ Hi Hc) as (j & -> & Hj). exists j. split; [done|].
    by apply lookup_app_l_Some.
  - destruct (Hb _ _ Hi Hc) as (j & Hij & Hj).
    exists (length a + j)%nat. split; [lia|].
    rewrite lookup_app_r by lia. by replace (length a + j - length a)%nat with j by lia.
Qed.

Lemma opened_app (a b : bytes) : opened a → opened b → opened (a ++ b).
Proof.
  intros Ha Hb i Hi. apply lookup_app_Some in Hi as [Hi | [Hlen Hi]].
  - destruct (Ha _ Hi) as (c & Hc & Hne). exists c. split; [|done].
    by apply lookup_app_l_Some.
  - destruct (Hb _ Hi) as (c & Hc & Hne). exists c. split; [|done].
    rewrite lookup_app_r by lia.
    by replace (S i - length a)%nat with (S (i - length a)) by lia.
Qed.

Lemma escaped_guarded (s : bytes) : guarded (escaped s) ∧ opened (escaped s) ∧ x5e ∉ escaped s.
Proof.
  induction s as [|b s (IHg & IHo & IHc)].
  - split; [|split]; [by intros i c | by intros i | apply not_elem_of_nil].
  - cbn [escaped flat_map]. fold (escaped s).
    destruct (substitution_checks b) as (Hg & Ho & Hc).
    split; [|split].
    + apply guarded_app; [|done]. intros i c Hi Hsp.
      pose proof (guardedFrom_spec _ _ Hg _ _ Hi Hsp) as H.
      destruct i as [|j]; [done|]. by exists j.
    + apply opened_app; [|done]. by apply openedFrom_spec.
    + rewrite elem_of_app. intros [H|H]; [|done].
      by apply bool_decide_eq_false in Hc.
Qed.

(** X2: in what the escaping engine writes, each of the bytes [&], [%], [$],
    [#], [_], [{] and [}] stands right after a backslash, every backslash is
    followed by a byte other than a backslash, and there is no caret. *)
Theorem escapeLaTeX_guards (s w : bytes) :
  ∃ out, escapeLaTeX s w = Done tt (w ++ out)
         ∧ guarded out ∧ opened out ∧ x5e ∉ out.
Proof.
  exists (escaped s). split; [apply escapeLaTeX_escaped | apply escaped_guarded].
Qed.

(** X3: escaping two texts one after the other writes what escaping their
    concatenation writes. *)
Theorem escapeLaTeX_app (s t w : bytes) :
  escapeLaTeX (s ++ t) w = (escapeLaTeX s ;; escapeLaTeX t) w.
Proof.
  unfold bind. rewrite !escapeLaTeX_escaped. cbv beta iota.
  rewrite ?escapeLaTeX_escaped, escaped_app. by rewrite app_assoc.
Qed.

Lemma writeLinesLoop_escaped (source : bytes) (lines : list Segment) :
  ∀ w, writeLinesLoop source lines w
       = Done tt (w ++ escaped (flat_map (λ line, Value line source) lines)).
Proof.
  induction lines as [|line lines IH]; intros w.
  - cbn. by rewrite app_nil_r.
  - cbn [writeLinesLoop flat_map]. unfold bind. rewrite escapeLaTeX_escaped.
    cbv beta iota. rewrite IH, escaped_app. by rewrite app_assoc.
Qed.


(** ** More on the prefix test of autolinks *)

Lemma min_comm (a b : Z) : min a b = min b a.
Proof.
  unfold min. destruct (Z.ltb_spec a b), (Z.ltb_spec b a); lia.
Qed.

Lemma haslowerprefixLoop_sym (table : Z → Z) (a b : bytes) (n : Z) (fuel : nat) :
  ∀ i, haslowerprefixLoop fuel table a b n i = haslowerprefixLoop fuel table b a n i.
Proof.
  induction fuel as [|fuel IH]; intros i; [done|].
  cbn [haslowerprefixLoop]. destruct (i <? n); [|done].
  destruct (GoUtf8.DecodeRune (drop (Z.to_nat i) a)) as [ra la].
  destruct (GoUtf8.DecodeRune (drop (Z.to_nat i) b)) as [rb lb].
  rewrite (Z.eqb_sym lb la), (Z.eqb_sym (GoUnicode.ToLower table rb)).
  destruct (Z.eqb_spec la lb) as [->|]; [|done].
  cbn [negb orb]. destruct (negb _); [done | apply IH].
Qed.

(** X5: [haslowerprefix] compares the two slices over the length of the
    shorter one only, so it answers alike whichever of the two is given
    first; the empty slice passes against every marker, and every slice
    against the empty marker. *)
Theorem haslowerprefix_symmetric (table : Z → Z) (a b : bytes) :
  haslowerprefix table a b = haslowerprefix table b a
  ∧ haslowerprefix table [] b = true
  ∧ haslowerprefix table a [] = true.
Proof.
  split; [|split].
  - unfold haslowerprefix. rewrite (min_comm (len b)). apply haslowerprefixLoop_sym.
  - unfold haslowerprefix, min, len. cbn [length].
    destruct (Z.ltb_spec (Z.of_nat 0) (Z.of_nat (length b))) as [|H]; [reflexivity|].
    destruct b; [reflexivity | cbn [length] in H; lia].
  - unfold haslowerprefix, min, len. cbn [length].
    destruct (Z.ltb_spec (Z.of_nat (length a)) (Z.of_nat 0)); [lia | reflexivity].
Qed.

Lemma haslowerprefixLoop_ascii (table : Z → Z) (a b : bytes) (n : Z) :
  ascii a → ascii b → n <= len a → n <= len b →
  ∀ fuel i, 0 <= i <= n → n - i <= Z.of_nat fuel →
    haslowerprefixLoop fuel table a b n i = true
    ↔ ∀ j x y, (Z.to_nat i ≤ j < Z.to_nat n)%nat →
        a !! j = Some x → b !! j = Some y → lower x = lower y.
Proof.
  intros Ha Hb Hna Hnb. induction fuel as [|fuel IH]; intros i Hi Hfuel.
  - cbn [haslowerprefixLoop]. split; [|done]. intros _ j x y Hj. lia.
  - cbn [haslowerprefixLoop]. destruct (Z.ltb_spec i n) as [Hlt|Hge].
    2:{ split; [|done]. intros _ j x y Hj. lia. }
    destruct (lookup_lt_is_Some_2 a (Z.to_nat i)) as [x Hx]; [unfold len in Hna; lia|].
    destruct (lookup_lt_is_Some_2 b (Z.to_nat i)) as [y Hy]; [unfold len in Hnb; lia|].
    assert (Hxa : byteZ x < 0x80).
    { unfold ascii in Ha. rewrite Forall_forall in Ha. eapply Ha.
      by eapply list_elem_of_lookup_2. }
    assert (Hyb : byteZ y < 0x80).
    { unfold ascii in Hb. rewrite Forall_forall in Hb. eapply Hb.
      by eapply list_elem_of_lookup_2. }
    rewrite (drop_S _ _ _ Hx), (drop_S _ _ _ Hy).
    rewrite !DecodeRune_ascii by done.
    rewrite (ToLower_ascii table (byteZ x)), (ToLower_ascii table (byteZ y)) by done.
    change (negb (1 =? 1)) with false. cbn [orb]. fold (lower x) (lower y).
    destruct (Z.eqb_spec (lower x) (lower y)) as [Heq|Hne]; cbn [negb].
    + rewrite IH by lia. split.
      * intros H j x' y' Hj Hx' Hy'.
        destruct (decide (j = Z.to_nat i)) as [->|Hji].
        -- rewrite Hx in Hx'. rewrite Hy in Hy'. by simplify_eq.
        -- apply (H j); [lia | done | done].
      * intros H j x' y' Hj. apply H. lia.
    + split; [done|]. intros H. exfalso. apply Hne.
      apply (H (Z.to_nat i)); [lia | done | done].
Qed.

(** X6: on ASCII slices [haslowerprefix] answers true exactly when the two
    slices agree, up to the case of letters, over the length of the shorter
    one. *)
Theorem haslowerprefix_ascii (table : Z → Z) (a b : bytes) :
  ascii a → ascii b →
  haslowerprefix table a b = true
  ↔ lower <$> take (length b) a = lower <$> take (length a) b.
Proof.
  intros Ha Hb. unfold haslowerprefix.
  set (n := min (len a) (len b)).
  assert (Hn : n = Z.of_nat (Nat.min (length a) (length b))).
  { unfold n, min, len. destruct (Z.ltb_spec (Z.of_nat (length a)) (Z.of_nat (length b))); lia. }
  rewrite (haslowerprefixLoop_ascii table a b n Ha Hb) by (unfold len; lia).
  replace (Z.to_nat 0) with 0%nat by done.
  replace (Z.to_nat n) with (Nat.min (length a) (length b)) by lia.
  split.
  - intros H.
    apply (list_eq_same_length _ _ (Nat.min (length a) (length b))).
    + rewrite length_fmap, length_take. lia.
    + rewrite length_fmap, length_take. lia.
    + intros j u v Hj Hu Hv.
      rewrite list_lookup_fmap, lookup_take_lt in Hu by lia.
      rewrite list_lookup_fmap, lookup_take_lt in Hv by lia.
      destruct (a !! j) as [x|] eqn:Hx; [|done].
      destruct (b !! j) as [y|] eqn:Hy; [|done].
      cbn in Hu, Hv. simplify_eq. apply (H j); [lia | done | done].
  - intros H j x y Hj Hx Hy.
    apply (f_equal (λ l, l !! j)) in H.
    rewrite !list_lookup_fmap, !lookup_take_lt in H by lia.
    rewrite Hx, Hy in H. cbn in H. by simplify_eq.
Qed.

Lemma haslowerprefix_ascii_witness :
  haslowerprefix (λ r, r) (B ":MAIL") (B ":mailto") = true
  ↔ lower <$> take (length (B ":mailto")) (B ":MAIL")
    = lower <$> take (length (B ":MAIL")) (B ":mailto").
Proof.
  apply haslowerprefix_ascii; unfold ascii; repeat constructor; vm_compute; done.
Defined.

Lemma ToLower_not_colon (table : Z → Z) (c : byte) :
  byteZ c < 0x80 → c ≠ x3a → GoUnicode.ToLower table (byteZ c) ≠ 0x3a.
Proof.
  intros Hc Hne. rewrite ToLower_ascii by done.
  destruct c; try done; vm_compute in Hc; try done; vm_compute; done.
Qed.

Lemma haslowerprefix_first (table : Z → Z) (c : byte) (rest : bytes) :
  byteZ c < 0x80 → c ≠ x3a →
  haslowerprefix table (c :: rest) mailToPrefix = false.
Proof.
  intros Hc Hne. unfold haslowerprefix.
  assert (Hn : 1 <= min (len (c :: rest)) (len mailToPrefix) <= 7).
  { unfold min, len. cbn [length]. change (Z.of_nat (length mailToPrefix)) with 7.
    destruct (Z.ltb_spec (Z.of_nat (S (length rest))) 7); lia. }
  set (n := min _ _) in *.
  destruct (Z.to_nat n) as [|fuel] eqn:Hf; [lia|].
  cbn [haslowerprefixLoop].
  destruct (Z.ltb_spec 0 n); [|lia].
  change (drop (Z.to_nat 0) (c :: rest)) with (c :: rest).
  change (drop (Z.to_nat 0) mailToPrefix) with mailToPrefix.
  rewrite DecodeRune_ascii by done.
  change (GoUtf8.DecodeRune mailToPrefix) with (0x3a, 1). cbv beta iota.
  change (negb (1 =? 1)) with false. cbn [orb].
  change (GoUnicode.ToLower table 58) with 58.
  pose proof (ToLower_not_colon table c Hc Hne) as Hl.
  destruct (Z.eqb_spec (GoUnicode.ToLower table (byteZ c)) 58); done.
Qed.

(** X7: an autolink of the URL type never gets the scheme [mailto:], and
    neither does an email autolink whose address starts with an ASCII byte
    other than a colon: the handler writes the address as the target as it
    is. *)
Theorem renderAutoLink_no_scheme (table : Z → Z) (source : bytes)
    (ty : AutoLinkType) (Protocol : option bytes) (value : Segment)
    (cs : list Node) (parent next : option Node) (w : bytes) :
  (ty = AutoLinkURL
   ∨ ∃ c rest, URL Protocol value source = c :: rest ∧ byteZ c < 0x80 ∧ c ≠ x3a) →
  renderAutoLink table source
      (mkCursor (mkNode (AutoLink ty Protocol value) cs) parent next) true w
  = Done (WalkContinue, None)
      (w ++ B "\href{" ++ escaped (URL Protocol value source)
         ++ B "}{" ++ escaped (Label value source) ++ B "}").
Proof.
  intros H. rewrite renderAutoLink_enter.
  destruct H as [-> | (c & rest & Hurl & Hc & Hne)].
  - done.
  - rewrite Hurl, haslowerprefix_first by done. by rewrite andb_false_r.
Qed.

Lemma renderAutoLink_no_scheme_witness :
  renderAutoLink (λ r, r) (B "x@y.z")
      (mkCursor (mkNode (AutoLink AutoLinkEmail None (mkSegment 0 5 0)) []) None None)
      true []
  = Done (WalkContinue, None) (B "\href{x@y.z}{x@y.z}").
Proof.
  apply (renderAutoLink_no_scheme (λ r, r) (B "x@y.z") AutoLinkEmail None
           (mkSegment 0 5 0) [] None None []).
  right. exists "x"%byte, (B "@y.z"). split; [reflexivity|]. split; [reflexivity | discriminate].
Defined.

(** ** More on headings and on the configuration *)

(** X8: for a level and an offset away from the overflow of an int, the
    heading handler panics on entering exactly when the shifted level
    [Level - 1 + offset] is 6 or more.  Below that it writes the start
    comment, which names the command by the decimal values of its bytes,
    then the command of the table row of the shifted level, clamped at 0,
    in the column of the numbering flag, and a newline after the command of
    the last row; and it goes on. *)
Theorem renderHeading_panics_iff (r : Renderer) (source : bytes) (Level : Z)
    (cs : list Node) (parent next : option Node) (w : bytes) :
  - 2 ^ 32 <= HeadingLevelOffset r <= 2 ^ 32 → - 2 ^ 32 <= Level <= 2 ^ 32 →
  (renderHeading r source (mkCursor (mkNode (Heading Level) cs) parent next) true w
   = Panicked IndexOutOfRange
   ↔ 6 <= Level - 1 + HeadingLevelOffset r)
  ∧ (Level - 1 + HeadingLevelOffset r <= 5 →
     ∃ row start,
       headingTable !! Z.to_nat (Z.max 0 (Level - 1 + HeadingLevelOffset r)) = Some row
       ∧ row !! Z.to_nat (bool2int (NoHeadingNumbering r)) = Some start
       ∧ renderHeading r source
           (mkCursor (mkNode (Heading Level) cs) parent next) true w
         = Done (WalkContinue, None)
             (w ++ (B "% goldmark-latex: heading start - level "
                    ++ GoFmt.d (Z.max 0 (Level - 1 + HeadingLevelOffset r))
                    ++ B ", start: " ++ GoFmt.v start ++ [LF])
                ++ start
                ++ (if Z.max 0 (Level - 1 + HeadingLevelOffset r) >=? 5
                    then [LF] else []))).
Proof.
  intros Ho Hl.
  assert (Hret : Level - 1 + HeadingLevelOffset r <= 5 →
     ∃ row start,
       headingTable !! Z.to_nat (Z.max 0 (Level - 1 + HeadingLevelOffset r)) = Some row
       ∧ row !! Z.to_nat (bool2int (NoHeadingNumbering r)) = Some start
       ∧ renderHeading r source
           (mkCursor (mkNode (Heading Level) cs) parent next) true w
         = Done (WalkContinue, None)
             (w ++ (B "% goldmark-latex: heading start - level "
                    ++ GoFmt.d (Z.max 0 (Level - 1 + HeadingLevelOffset r))
                    ++ B ", start: " ++ GoFmt.v start ++ [LF])
                ++ start
                ++ (if Z.max 0 (Level - 1 + HeadingLevelOffset r) >=? 5
                    then [LF] else []))).
  { intros Hle.
    destruct (renderHeading_in_table r source Level cs parent next w Ho Hl Hle)
      as (row & start & _ & Hrow & Hstart & Hout).
    assert (He : effectiveLevel Level (HeadingLevelOffset r)
                 = Z.max 0 (Level - 1 + HeadingLevelOffset r))
      by (unfold effectiveLevel, clamp; lia).
    rewrite He in Hrow, Hout. by exists row, start. }
  split; [|exact Hret]. split.
  - intros Hp. destruct (Z.le_gt_cases 6 (Level - 1 + HeadingLevelOffset r)); [done|].
    destruct Hret as (row & start & _ & _ & Hout); [lia|]. rewrite Hout in Hp.
    discriminate.
  - intros H6. apply renderHeading_six. rewrite headingLevel_clamp by done.
    unfold clamp. lia.
Qed.

Lemma renderHeading_panics_iff_witness :
  renderHeading (mkRenderer 2 false None false None false) []
    (mkCursor (mkNode (Heading 5) []) None None) true []
  = Panicked IndexOutOfRange
  ∧ renderHeading (mkRenderer (-1) true None false None false) []
      (mkCursor (mkNode (Heading 3) []) None None) true []
    = Done (WalkContinue, None)
        ((B "% goldmark-latex: heading start - level 1, start: "
          ++ B "[92 115 117 98 115 101 99 116 105 111 110 42 123]" ++ [LF])
         ++ B "\subsection*{").
Proof.
  split.
  - apply (renderHeading_panics_iff (mkRenderer 2 false None false None false) [] 5
             [] None None []); cbn [HeadingLevelOffset]; pow2; lia.
  - destruct (renderHeading_panics_iff (mkRenderer (-1) true None false None false) [] 3
                [] None None []) as [_ H]; [cbn [HeadingLevelOffset]; pow2; lia..|].
    destruct H as (row & start & Hrow & Hstart & ->); [cbn [HeadingLevelOffset]; lia|].
    cbn [HeadingLevelOffset NoHeadingNumbering] in Hrow, Hstart.
    vm_compute in Hrow. injection Hrow as <-.
    vm_compute in Hstart. injection Hstart as <-.
    reflexivity.
Defined.

(** X9: raising the heading levels by an offset is the same as rendering
    each heading with its level raised: under the offset [k] the handler
    does for a heading of level [L] what it does under the offset 0 for a
    heading of level [L + k]. *)
Theorem WithHeadingLevelOffset_shifts (r : Renderer) (k L : Z) (source : bytes)
    (cs : list Node) (parent next : option Node) (entering : bool) (w : bytes) :
  - 2 ^ 63 <= L + k < 2 ^ 63 →
  renderHeading (WithHeadingLevelOffset k r) source
      (mkCursor (mkNode (Heading L) cs) parent next) entering w
  = renderHeading (WithHeadingLevelOffset 0 r) source
      (mkCursor (mkNode (Heading (L + k)) cs) parent next) entering w.
Proof.
  intros _. unfold renderHeading, WithHeadingLevelOffset.
  cbn [payload node HeadingLevelOffset NoHeadingNumbering].
  by replace (0 + (L + k)) with (k + L) by lia.
Qed.

Lemma WithHeadingLevelOffset_shifts_witness :
  renderHeading (WithHeadingLevelOffset 2 zeroRenderer) []
      (mkCursor (mkNode (Heading 1) []) None None) true []
  = renderHeading (WithHeadingLevelOffset 0 zeroRenderer) []
      (mkCursor (mkNode (Heading (1 + 2)) []) None None) true [].
Proof.
  apply (WithHeadingLevelOffset_shifts zeroRenderer 2 1 [] [] None None true []).
  pow2. lia.
Defined.

Lemma plainOption_invariant (options : list Option) :
  Forall plainOption options →
  ∀ r, -5 <= HeadingLevelOffset r <= 0 → DeclareUnicode r = None →
    -5 <= HeadingLevelOffset (fold_left (λ r option, option r) options r) <= 0
    ∧ DeclareUnicode (fold_left (λ r option, option r) options r) = None.
Proof.
  induction 1 as [|o options Ho _ IH]; intros r Hr Hd; [done|].
  cbn [fold_left]. apply IH; destruct Ho; cbn; done.
Qed.

Lemma parsed_renderable (r : Renderer) (n : Node) :
  -5 <= HeadingLevelOffset r <= 0 → parsed n → renderable r n.
Proof.
  intros Hr. induction n as [p cs IH] using Node_children_ind.
  intros Hn. inversion Hn as [p' cs' Hp Hcs]; subst.
  constructor.
  - destruct p; try done. cbn [nodeOK parsedNode] in *.
    rewrite headingLevel_clamp by (pow2; lia). unfold clamp. lia.
  - rewrite Forall_forall in IH, Hcs |- *. intros c Hc. by apply IH; [|apply Hcs].
Qed.



(** ** More on fenced code blocks *)

Lemma supportedLang_lengths (l : bytes) :
  l ∈ supportedLang → (length l ≤ 10)%nat ∨ l = B "mathematica".
Proof.
  unfold supportedLang. rewrite elem_of_list_to_set. revert l. apply Forall_forall.
  cbn [map].
  repeat (constructor; [first [left; vm_compute; lia | right; reflexivity]|]).
  constructor.
Qed.

Lemma mathematic_unsupported : B "mathematic" ∉ supportedLang.
Proof.
  unfold supportedLang. rewrite elem_of_list_to_set.
  apply (bool_decide_eq_false_1 (B "mathematic" ∈ _)). vm_compute. reflexivity.
Qed.

Lemma mathematica_supported : B "mathematica" ∈ supportedLang.
Proof.
  unfold supportedLang. rewrite elem_of_list_to_set.
  apply (bool_decide_eq_true_1 (B "mathematica" ∈ _)). vm_compute. reflexivity.
Qed.

(** X11: the handler of fenced code blocks looks the declared language up
    after cutting it to ten bytes.  A supported language of at most ten
    bytes is written as the argument of the environment; the eleven-byte
    entry [mathematica] of the table can never match, and a block that
    declares it gets no argument. *)
Theorem renderFencedCodeBlock_language_cut (r : Renderer) (source : bytes)
    (Info : option Segment) (lines : list Segment) (cs : list Node)
    (parent next : option Node) (w l : bytes) :
  Language Info source = Some l → l ∈ supportedLang →
  renderFencedCodeBlock r source
      (mkCursor (mkNode (FencedCodeBlock Info lines) cs) parent next) true w
  = Done (WalkContinue, None)
      (w ++ (B "% goldmark-latex: code fenced block start" ++ [LF])
         ++ B "\begin{minted}"
         ++ (if bool_decide (l = B "mathematica") then [] else B "{" ++ l ++ B "}")
         ++ [LF]
         ++ flat_map (λ line, rawLine (Unsafe r) (Value line source)) lines).
Proof.
  intros Hl Hs. rewrite renderFencedCodeBlock_enter. unfold fencedArgument.
  rewrite Hl. destruct (supportedLang_lengths l Hs) as [Hlen | ->].
  - rewrite take_ge by lia. rewrite (bool_decide_true _ Hs).
    rewrite bool_decide_false; [done|].
    intros ->. vm_compute in Hlen. lia.
  - change (take 10 (B "mathematica")) with (B "mathematic").
    rewrite (bool_decide_false _ mathematic_unsupported). done.
Qed.

Lemma renderFencedCodeBlock_language_cut_witness :
  renderFencedCodeBlock zeroRenderer (B "mathematica x")
      (mkCursor (mkNode (FencedCodeBlock (Some (mkSegment 0 13 0)) []) []) None None)
      true []
  = Done (WalkContinue, None)
      ((B "% goldmark-latex: code fenced block start" ++ [LF])
       ++ B "\begin{minted}" ++ [LF]).
Proof.
  apply (renderFencedCodeBlock_language_cut zeroRenderer (B "mathematica x")
           (Some (mkSegment 0 13 0)) [] [] None None [] (B "mathematica")).
  - reflexivity.
  - apply mathematica_supported.
Defined.

(** ** The rendering as a function of the tree *)

Lemma Framed_ret {A} (a : A) : Framed (ret a).
Proof. intros w. cbn. by rewrite app_nil_r. Qed.

Lemma Framed_throw {A} (p : panic) : @Framed A (throw p).
Proof. by intros w. Qed.

Lemma Framed_Write (p : bytes) : Framed (Write p).
Proof. by intros w. Qed.

Lemma Framed_bind {A C} (m : M A) (k : A → M C) :
  Framed m → (∀ a, Framed (k a)) → Framed (bind m k).
Proof.
  intros Hm Hk w. unfold bind. rewrite (Hm w).
  destruct (m []) as [a o|p]; [|done].
  rewrite (Hk a (w ++ o)), (Hk a o).
  destruct (k a []); [by rewrite app_assoc | done].
Qed.

Lemma Framed_if {A} (b : bool) (m1 m2 : M A) :
  Framed m1 → Framed m2 → Framed (if b then m1 else m2).
Proof. by destruct b. Qed.

Lemma Framed_escapeLaTeX (s : bytes) : Framed (escapeLaTeX s).
Proof. intros w. by rewrite !escapeLaTeX_escaped. Qed.

Lemma Framed_writeRawLines (r : Renderer) (source : bytes) (n : Cursor) :
  Framed (writeRawLines r source n).
Proof. intros w. unfold writeRawLines. by rewrite !writeRawLinesLoop_rawLine. Qed.

Lemma Framed_imageAttributes (path : bytes) (tokens : list bytes)
    (attributes : gmap bytes bytes) :
  Framed (imageAttributes path tokens attributes).
Proof. intros w. by rewrite !imageAttributes_parse. Qed.

Lemma Framed_sliceTo {A} (s : list A) (hi : Z) : Framed (sliceTo s hi).
Proof.
  unfold sliceTo. destruct (_ || _); [apply Framed_throw | apply Framed_ret].
Qed.

Lemma Framed_index {A} (t : list A) (i : Z) : Framed (index t i).
Proof.
  unfold index. destruct (i <? 0); [apply Framed_throw|].
  destruct (t !! Z.to_nat i); [apply Framed_ret | apply Framed_throw].
Qed.

Create HintDb framed.
#[local] Hint Resolve Framed_ret Framed_throw Framed_Write Framed_escapeLaTeX
  Framed_writeRawLines Framed_imageAttributes Framed_sliceTo Framed_index : framed.

Ltac framed :=
  repeat first
    [ progress (unfold WriteByte, comment, continue_, skipChildren, escLink)
    | solve [auto with framed]
    | apply Framed_bind; [|intros ?]
    | apply Framed_if
    | match goal with
      | |- Framed (match ?x with _ => _ end) => destruct x
      end ].

Lemma Framed_writeDeclaration (char : Z) (replace : bytes) :
  Framed (writeDeclaration char replace).
Proof. unfold writeDeclaration. framed. Qed.

Lemma Framed_codeSpanChildren (source : bytes) (cs : list Node) :
  Framed (codeSpanChildren source cs).
Proof.
  induction cs as [|c cs IH]; cbn [codeSpanChildren]; [framed|].
  destruct (payload c); try apply Framed_throw.
  apply Framed_bind; [framed | done].
Qed.

Lemma Framed_declareLoop (f : Z → bytes * bool) (source : bytes) (fuel : nat) :
  ∀ i declared, Framed (declareLoop fuel f source i declared).
Proof.
  induction fuel as [|fuel IH]; intros i declared; cbn [declareLoop]; [framed|].
  destruct (_ <? _)%nat; [|framed].
  apply Framed_bind; [|intros [i' declared']; apply IH].
  unfold declareStep. pose proof (Framed_writeDeclaration) as Hw. framed.
  all: apply Framed_bind; [apply Hw | intros ?; framed].
Qed.

(** No handler reads what has been written before. *)
Lemma Framed_dispatch (ext : Extern) (r : Renderer) (source : bytes) (n : Cursor)
    (entering : bool) :
  Framed (dispatch ext r source n entering).
Proof.
  unfold dispatch, Kind. destruct n as [[p cs] parent next]. cbn [node payload].
  destruct p; cbn [RegisterFuncs];
    unfold renderDocument, renderHeading, renderBlockquote, renderCodeBlock,
      renderFencedCodeBlock, renderHTMLBlock, renderList, renderListItem,
      renderParagraph, renderTextBlock, renderThematicBreak, renderAutoLink,
      renderCodeSpan, renderEmphasis, renderImage, renderLink, renderRawHTML,
      renderText, renderString;
    cbn [node payload children Parent];
    pose proof Framed_declareLoop as Hd;
    pose proof Framed_codeSpanChildren as Hc;
    framed.
Qed.

Lemma dispatch_inner_total (ext : Extern) (r : Renderer) (source : bytes)
    (p : Payload) (cs : list Node) (parent : Node) (next : option Node)
    (entering : bool) :
  p ≠ Document → nodeOK r p cs →
  Total (dispatch ext r source (mkCursor (mkNode p cs) (Some parent) next) entering).
Proof.
  intros Hp Hok.
  assert (Heq : ∀ w,
    dispatch ext r source (mkCursor (mkNode p cs) (Some parent) next) entering w
    = dispatch ext (WithUnicodeCharactersMapping None r) source
        (mkCursor (mkNode p cs) (Some parent) next) entering w).
  { intros w. unfold dispatch, Kind. cbn [node payload].
    destruct p; try done; cbn [RegisterFuncs]; destruct entering; try done.
    - unfold renderCodeBlock, writeRawLines. run.
      by rewrite !writeRawLinesLoop_rawLine.
    - by rewrite !renderFencedCodeBlock_enter. }
  intros w. rewrite Heq. apply dispatch_total.
  - by destruct p.
  - intros f Hf. done.
Qed.

(** What a handler invocation on a node below the root does: it writes its
    bytes after what has been written, returns a nil error and does not
    stop the walk. *)
Lemma dispatch_inner (ext : Extern) (r : Renderer) (source : bytes)
    (p : Payload) (cs : list Node) (parent : Node) (next : option Node)
    (entering : bool) (w : bytes) :
  p ≠ Document → nodeOK r p cs →
  ∃ st, st ≠ WalkStop
    ∧ dispatch ext r source (mkCursor (mkNode p cs) (Some parent) next) entering w
      = Done (st, None)
          (w ++ written (dispatch ext r source
                           (mkCursor (mkNode p cs) (Some parent) next) entering))
    ∧ skips (dispatch ext r source (mkCursor (mkNode p cs) (Some parent) next) entering)
      = bool_decide (st = WalkSkipChildren).
Proof.
  intros Hp Hok.
  destruct (dispatch_inner_total ext r source p cs parent next entering Hp Hok [])
    as ([st err] & o & Ho).
  destruct (dispatch_yields ext r source _ _ _ _ _ Ho) as (o' & _ & Herr & Hstop & _).
  cbn [fst snd] in *. subst err.
  exists st. split.
  { intros ->. destruct Hstop as [Hs _]. destruct (Hs eq_refl) as [Hk _].
    apply Hp. unfold Kind in Hk. cbn [node payload] in Hk. by destruct p. }
  rewrite (Framed_dispatch ext r source _ entering w).
  unfold written, skips. rewrite Ho. done.
Qed.

Lemma latex_unfold (walker : Walker) (parent : option Node) (p : Payload)
    (cs : list Node) (next : option Node) :
  latex walker parent (mkNode p cs) next
  = written (walker (mkCursor (mkNode p cs) parent next) true)
    ++ (if skips (walker (mkCursor (mkNode p cs) parent next) true) then []
        else latexChildren (latex walker (Some (mkNode p cs))) cs)
    ++ written (walker (mkCursor (mkNode p cs) parent next) false).
Proof. reflexivity. Qed.

Lemma walkChildren_latex (walk : Node → option Node → M (WalkStatus * error))
    (lat : Node → option Node → bytes) (cs : list Node) :
  Forall (λ c, ∀ next w, walk c next w = Done (WalkContinue, None) (w ++ lat c next)) cs →
  ∀ w, walkChildren walk cs w = Done None (w ++ latexChildren lat cs).
Proof.
  induction 1 as [|c cs Hc _ IH]; intros w; cbn [walkChildren latexChildren].
  - unfold ret. by rewrite app_nil_r.
  - unfold bind. rewrite Hc. change (stops (WalkContinue, None)) with false.
    cbv iota. rewrite IH. by rewrite <- app_assoc.
Qed.

(** The walk of a subtree writes the rendering of the subtree and goes
    on. *)
Lemma walkHelper_written (ext : Extern) (r : Renderer) (source : bytes) (n : Node) :
  renderable r n → documentFree n →
  ∀ parent next w,
    walkHelper (dispatch ext r source) (Some parent) n next w
    = Done (WalkContinue, None)
        (w ++ latex (dispatch ext r source) (Some parent) n next).
Proof.
  induction n as [p cs IH] using Node_children_ind.
  intros Hn Hf parent next w.
  inversion Hn as [p' cs' Hok Hcs]; subst.
  inversion Hf as [p' cs' Hp Hfs]; subst.
  rewrite latex_unfold. cbn [walkHelper children].
  destruct (dispatch_inner ext r source p cs parent next true w Hp Hok)
    as (st & Hst & Henter & Hskip).
  unfold bind at 1. rewrite Henter. rewrite stops_false by done.
  rewrite Hskip. cbn [fst].
  set (o1 := written (dispatch ext r source (mkCursor (mkNode p cs) (Some parent) next) true)).
  assert (Hchildren : ∀ w1,
    walkChildren (walkHelper (dispatch ext r source) (Some (mkNode p cs))) cs w1
    = Done None (w1 ++ latexChildren (latex (dispatch ext r source) (Some (mkNode p cs))) cs)).
  { apply walkChildren_latex. rewrite Forall_forall in IH, Hcs, Hfs |- *.
    intros c Hc next' w'. by apply IH; [|apply Hcs|apply Hfs]. }
  destruct (decide (st = WalkSkipChildren)) as [->|Hns].
  - rewrite (bool_decide_true (WalkSkipChildren = WalkSkipChildren)) by done.
    rewrite (bool_decide_false (WalkSkipChildren ≠ WalkSkipChildren))
      by (intros H; by apply H).
    unfold bind at 1. unfold ret at 1.
    destruct (dispatch_inner ext r source p cs parent next false (w ++ o1) Hp Hok)
      as (st' & Hst' & Hexit & _).
    unfold bind. rewrite Hexit. rewrite stops_false by done.
    unfold ret. by rewrite <- !app_assoc.
  - rewrite (bool_decide_false _ Hns). rewrite (bool_decide_true _ Hns).
    unfold bind at 1. rewrite Hchildren.
    destruct (dispatch_inner ext r source p cs parent next false
                ((w ++ o1) ++ latexChildren (latex (dispatch ext r source)
                                               (Some (mkNode p cs))) cs) Hp Hok)
      as (st' & Hst' & Hexit & _).
    unfold bind. rewrite Hexit. rewrite stops_false by done.
    unfold ret. by rewrite <- !app_assoc.
Qed.

(** ** Whole subtrees *)

(** X12: the handlers of HTML blocks and of raw HTML ignore whether the node
    is entered or left and skip the children, and the walker calls them on
    entering and on leaving: the walk of such a node writes the comment
    twice and nothing of the children, and goes on. *)
Theorem walkHelper_HTML_twice (ext : Extern) (r : Renderer) (source : bytes)
    (cs : list Node) (parent next : option Node) (w : bytes) :
  walkHelper (dispatch ext r source) parent (mkNode HTMLBlock cs) next w
  = Done (WalkContinue, None) (w ++ htmlBlockSkipped ++ htmlBlockSkipped)
  ∧ walkHelper (dispatch ext r source) parent (mkNode RawHTML cs) next w
    = Done (WalkContinue, None) (w ++ rawHTMLSkipped ++ rawHTMLSkipped).
Proof.
  split; cbn [walkHelper children]; unfold dispatch;
    cbn [Kind payload node RegisterFuncs];
    unfold renderHTMLBlock, renderRawHTML; run;
    change (stops (WalkSkipChildren, @None bytes)) with false;
    change (bool_decide ((WalkSkipChildren, @None bytes).1 ≠ WalkSkipChildren)) with false;
    cbv beta iota; unfold htmlBlockSkipped, rawHTMLSkipped;
    by rewrite <- ?app_assoc.
Qed.

(** X13: the walk of an image writes the header comment, the diagnostics and
    the figure block of its destination and goes on; the children of the
    image, its alternative text, are not rendered. *)
Theorem walkHelper_Image (ext : Extern) (r : Renderer) (source : bytes)
    (Destination Title : bytes) (cs : list Node) (parent next : option Node)
    (w : bytes) :
  walkHelper (dispatch ext r source) parent (mkNode (Image Destination Title) cs) next w
  = Done (WalkContinue, None)
      (w ++ imageOutput Destination Title (imagePath Destination)
              (imageTokens Destination)).
Proof.
  cbn [walkHelper children]. unfold dispatch. cbn [Kind payload node RegisterFuncs].
  unfold bind at 1. rewrite renderImage_enter. reflexivity.
Qed.

Lemma written_Done {A} (m : M A) (a : A) (o : bytes) : m [] = Done a o → written m = o.
Proof. intros H. unfold written. by rewrite H. Qed.

Lemma skips_Done (m : M (WalkStatus * error)) (res : WalkStatus * error) (o : bytes) :
  m [] = Done res o → skips m = bool_decide (fst res = WalkSkipChildren).
Proof. intros H. unfold skips. by rewrite H. Qed.

Lemma renderDocument_written (defaultPreamble : bytes) (r : Renderer) (source : bytes)
    (n : Cursor) (w : bytes) :
  scannable r source →
  renderDocument defaultPreamble r source n true w
  = Done (WalkContinue, None)
      (w ++ documentHead defaultPreamble r ++ documentDeclarations r source
         ++ beginDocument ++ documentTitle r).
Proof.
  intros Hscan. rewrite renderDocument_enter.
  unfold documentHead, documentDeclarations, documentTitle, beginDocument.
  destruct (DeclareUnicode r) as [f|] eqn:Hf.
  - unfold bind at 3. unfold bind at 3. run.
    rewrite writeDeclarations_basic_plane
      by (apply declarations_basic_plane, (Hscan f Hf)).
    by rewrite <- !app_assoc.
  - run. by rewrite <- !app_assoc, ?app_nil_r.
Qed.





(** X16: a list is rendered as one environment around its items: the walk
    writes the begin command, the renderings of the children and the end
    command, both commands with the same name, [enumerate] when the marker
    of the list is a dot or a closing parenthesis and [itemize]
    otherwise. *)
Theorem walkHelper_List (ext : Extern) (r : Renderer) (source : bytes)
    (Marker : byte) (cs : list Node) (parent : Node) (next : option Node) (w : bytes) :
  Forall (renderable r) cs → Forall documentFree cs →
  walkHelper (dispatch ext r source) (Some parent) (mkNode (List_ Marker) cs) next w
  = Done (WalkContinue, None)
      (w ++ ([LF] ++ B "\begin{" ++ listTag Marker ++ B "}" ++ [LF])
         ++ latexChildren (latex (dispatch ext r source) (Some (mkNode (List_ Marker) cs))) cs
         ++ (B "\end{" ++ listTag Marker ++ B "}" ++ [LF]))
  ∧ (listTag Marker = B "enumerate" ↔ Marker = x2e ∨ Marker = x29)
  ∧ (listTag Marker = B "itemize" ↔ Marker ≠ x2e ∧ Marker ≠ x29).
Proof.
  intros Hcs Hfs. split.
  - rewrite walkHelper_written; [|by constructor..].
    rewrite latex_unfold. unfold dispatch at 1 2 4. cbn [Kind payload node RegisterFuncs].
    unfold renderList. cbn [payload node]. fold (listTag Marker).
    unfold written, skips. run. cbn [fst app].
    change (bool_decide (WalkContinue = WalkSkipChildren)) with false. cbv iota.
    by rewrite <- !app_assoc.
  - unfold listTag, IsOrdered.
    destruct (decide (Marker = x2e)) as [->|H1]; [split; split; try done; [by left | by intros []]|].
    destruct (decide (Marker = x29)) as [->|H2]; [split; split; try done; [by right | by intros []]|].
    rewrite !bool_decide_false by done. cbn [orb].
    split; split; try done. intros [|]; done.
Qed.

Lemma walkHelper_List_witness :
  walkHelper (dispatch (mkExtern [] (λ r, r) (λ _, false)) zeroRenderer (B "a"))
    (Some (mkNode Document []))
    (mkNode (List_ x2e)
       [mkNode ListItem [mkNode TextBlock [mkNode (Text (mkSegment 0 1 0) false false false) []]]])
    None []
  = Done (WalkContinue, None)
      ([LF] ++ B "\begin{enumerate}" ++ [LF] ++ B "\item~ a" ++ [LF]
       ++ B "\end{enumerate}" ++ [LF]).
Proof.
  destruct (walkHelper_List (mkExtern [] (λ r, r) (λ _, false)) zeroRenderer (B "a") x2e
              [mkNode ListItem [mkNode TextBlock [mkNode (Text (mkSegment 0 1 0) false false false) []]]]
              (mkNode Document []) None []) as [H _].
  - repeat constructor.
  - repeat constructor; done.
  - rewrite H. reflexivity.
Defined.

(** X17: in safe mode a link whose destination goldmark calls dangerous keeps
    its text and loses its target: the walk writes [\href{}{], the
    renderings of the children and [}].  Otherwise the escaped destination
    stands between the first pair of braces. *)
Theorem walkHelper_Link (ext : Extern) (r : Renderer) (source : bytes)
    (Destination Title : bytes) (cs : list Node) (parent : Node)
    (next : option Node) (w : bytes) :
  Forall (renderable r) cs → Forall documentFree cs →
  walkHelper (dispatch ext r source) (Some parent)
    (mkNode (Link Destination Title) cs) next w
  = Done (WalkContinue, None)
      (w ++ B "\href{"
         ++ (if negb (Unsafe r) && IsDangerousURL ext Destination then []
             else escaped Destination)
         ++ B "}{"
         ++ latexChildren (latex (dispatch ext r source)
                             (Some (mkNode (Link Destination Title) cs))) cs
         ++ B "}").
Proof.
  intros Hcs Hfs. rewrite walkHelper_written; [|by constructor..].
  rewrite latex_unfold. unfold dispatch at 1 2 4. cbn [Kind payload node RegisterFuncs].
  unfold renderLink. cbn [payload node].
  unfold written, skips.
  destruct (Unsafe r), (IsDangerousURL ext Destination); cbn [negb orb andb]; run;
    rewrite ?escapeLaTeX_escaped; cbv beta iota; cbn [fst app];
    change (bool_decide (WalkContinue = WalkSkipChildren)) with false; cbv iota;
    by rewrite <- ?app_assoc.
Qed.

Lemma walkHelper_Link_witness :
  walkHelper (dispatch (mkExtern [] (λ r, r) (λ _, true)) zeroRenderer (B "x"))
    (Some (mkNode Paragraph []))
    (mkNode (Link (B "javascript:alert(1)") [])
       [mkNode (Text (mkSegment 0 1 0) false false false) []])
    None []
  = Done (WalkContinue, None) (B "\href{}{x}").
Proof.
  rewrite walkHelper_Link.
  - reflexivity.
  - repeat constructor.
  - repeat constructor; done.
Defined.

(** ** More on the attributes of images *)

Lemma pieces_length (c : byte) (s : bytes) :
  length (pieces c s) = S (occurrences c s).
Proof.
  unfold occurrences. induction s as [|x s IH]; [done|].
  cbn [pieces]. rewrite filter_cons.
  destruct (decide (x = c)) as [->|Hne].
  - rewrite bool_decide_true by done. cbn [length]. by rewrite IH.
  - rewrite bool_decide_false by done.
    pose proof (pieces_nonempty c s) as Hp.
    destruct (pieces c s) as [|p ps]; [done|]. exact IH.
Qed.

(** X18: an attribute token of an image is a key and a value only when it
    holds exactly one [=]: a token with none or with more than one, so a
    caption whose text holds a [=], leaves the attributes as they are and
    adds the comment for an invalid attribute. *)
Theorem imageAttribute_invalid (path token : bytes) (attributes : gmap bytes bytes)
    (w : bytes) :
  occurrences x3d token ≠ 1%nat →
  imageAttribute path token attributes w
  = Done attributes (w ++ invalidAttribute path token).
Proof.
  intros Hn. rewrite imageAttribute_parse. unfold parseAttribute.
  pose proof (pieces_length x3d token) as Hl.
  destruct (pieces x3d token) as [|key [|value [|x t]]]; try done.
  cbn [length] in Hl. lia.
Qed.

Lemma imageAttribute_invalid_witness :
  imageAttribute (B "p.png") (B "caption=a=b") ∅ []
  = Done ∅ ([LF] ++ B "% goldmark-latex: image p.png has invalid attribute caption=a=b"
            ++ [LF]).
Proof.
  apply (imageAttribute_invalid (B "p.png") (B "caption=a=b") ∅ []).
  vm_compute. lia.
Defined.

Lemma pieces_snoc (c : byte) (p q : bytes) :
  c ∉ q → pieces c (p ++ c :: q) = pieces c p ++ [q].
Proof.
  intros Hq. induction p as [|x p IH].
  - cbn [app pieces]. rewrite bool_decide_true by done. by rewrite pieces_none.
  - cbn [app pieces]. destruct (bool_decide (x = c)); [by rewrite IH|].
    rewrite IH. pose proof (pieces_nonempty c p) as Hp.
    by destruct (pieces c p).
Qed.

Lemma parseAttributes_app (path : bytes) (tokens1 tokens2 : list bytes) :
  ∀ attributes,
    parseAttributes path (tokens1 ++ tokens2) attributes
    = (let '(a1, g1) := parseAttributes path tokens1 attributes in
       let '(a2, g2) := parseAttributes path tokens2 a1 in
       (a2, g1 ++ g2)).
Proof.
  induction tokens1 as [|token tokens1 IH]; intros attributes.
  - cbn [app parseAttributes]. by destruct (parseAttributes path tokens2 attributes).
  - cbn [app parseAttributes].
    destruct (parseAttribute path token attributes) as [a0 g0].
    rewrite IH. destruct (parseAttributes path tokens1 a0) as [a1 g1].
    destruct (parseAttributes path tokens2 a1) as [a2 g2].
    by rewrite app_assoc.
Qed.

(** X19: when the query string of an image gives an attribute more than once,
    the last value stands: for a destination that ends in [&width=value]
    the figure block is written with this width, whatever the tokens
    before. *)
Theorem renderImage_last_width (source path query value Title : bytes)
    (cs : list Node) (parent next : option Node) (w : bytes) :
  x3f ∉ path → x3f ∉ query → x3f ∉ value → x26 ∉ value → x3d ∉ value →
  ∃ attributes diagnostics,
    renderImage source
      (mkCursor (mkNode (Image (path ++ x3f :: query ++ x26 :: B "width=" ++ value)
                               Title) cs) parent next) true w
    = Done (WalkSkipChildren, None)
        (w ++ imageHeader (path ++ x3f :: query ++ x26 :: B "width=" ++ value) Title
           ++ diagnostics ++ figure path attributes)
    ∧ attr attributes (B "width") = value.
Proof.
  intros Hp Hq Hv Hamp Heq.
  set (Destination := path ++ x3f :: query ++ x26 :: B "width=" ++ value).
  assert (Hrest : x3f ∉ query ++ x26 :: B "width=" ++ value).
  { rewrite elem_of_app, elem_of_cons, elem_of_app.
    intros [H | [H | [H | H]]]; [done | done | | done].
    revert H. apply (bool_decide_eq_false_1 (x3f ∈ B "width=")). reflexivity. }
  assert (Hpath : imagePath Destination = path).
  { unfold imagePath, Destination. by rewrite pieces_app. }
  assert (Htokens : imageTokens Destination
                    = pieces x26 query ++ [B "width" ++ x3d :: value]).
  { unfold imageTokens, Destination. rewrite pieces_app by done.
    rewrite (pieces_none x3f _ Hrest).
    rewrite pieces_snoc; [done|].
    rewrite elem_of_app. intros [H | H]; [|done].
    revert H. apply (bool_decide_eq_false_1 (x26 ∈ B "width=")). reflexivity. }
  rewrite renderImage_enter, Hpath, Htokens. unfold imageOutput.
  rewrite parseAttributes_app.
  destruct (parseAttributes path (pieces x26 query) ∅) as [a1 g1].
  cbn [parseAttributes].
  rewrite parseAttribute_pair; [|compute_done | done].
  change (bool_decide (B "width" = B "width") || bool_decide (B "width" = B "label"))
    with true. cbv iota.
  exists (<[B "width" := value]> a1), (g1 ++ []).
  split; [by rewrite <- !app_assoc | apply attr_insert_eq].
Qed.

Lemma renderImage_last_width_witness :
  ∃ attributes diagnostics,
    renderImage []
      (mkCursor (mkNode (Image (B "p" ++ x3f :: B "width=1" ++ x26 :: B "width=" ++ B "2")
                               []) []) None None) true []
    = Done (WalkSkipChildren, None)
        ([] ++ imageHeader (B "p" ++ x3f :: B "width=1" ++ x26 :: B "width=" ++ B "2") []
           ++ diagnostics ++ figure (B "p") attributes)
    ∧ attr attributes (B "width") = B "2".
Proof.
  apply (renderImage_last_width [] (B "p") (B "width=1") (B "2") [] [] None None []);
    compute_done.
Defined.

(** ** More on the Unicode declarations *)

Lemma decodeAll_ascii (fuel : nat) :
  ∀ p, ascii p → multiByte (decodeAll fuel p) = [].
Proof.
  induction fuel as [|fuel IH]; intros p Hp; [done|].
  cbn [decodeAll]. destruct p as [|c p]; [done|].
  inversion Hp as [|c' p' Hc Hp']; subst.
  rewrite DecodeRune_ascii by done. cbn [snd].
  rewrite multiByte_cons. change (1 =? 1) with true. cbv iota.
  change (drop (Z.to_nat 1) (c :: p)) with p. by apply IH.
Qed.

(** X20: on a source of ASCII bytes only the scan of the Document handler
    declares nothing and writes nothing, whatever the replacement function
    answers. *)
Theorem declareLoop_ascii (f : Z → bytes * bool) (source w : bytes) :
  ascii source →
  declarations f source = []
  ∧ declareLoop (length source) f source 0 ∅ w = Done tt w.
Proof.
  intros Ha.
  assert (Hd : declarations f source = []).
  { unfold declarations, nonASCII, runes. by rewrite decodeAll_ascii. }
  split; [done|].
  rewrite (declareLoop_spec f source _ 0%nat ∅ []).
  - change (drop 0 source) with source.
    fold (runes source). fold (nonASCII source). fold (declarations f source).
    by rewrite Hd.
  - intros c. rewrite elem_of_nil. set_solver.
Qed.

Lemma declareLoop_ascii_witness :
  declarations (λ _, (B "x", true)) (B "plain text") = []
  ∧ declareLoop (length (B "plain text")) (λ _, (B "x", true)) (B "plain text") 0 ∅ []
    = Done tt [].
Proof.
  apply declareLoop_ascii. unfold ascii. repeat constructor; vm_compute; done.
Defined.

Lemma allFrom_spec (p : N → bool) (fuel : nat) :
  ∀ n, allFrom p fuel n = true →
       ∀ k, (n <= k < n + N.of_nat fuel)%N → p k = true.
Proof.
  induction fuel as [|fuel IH]; intros n Hall k Hk; [lia|].
  cbn [allFrom] in Hall. apply andb_true_iff in Hall as [Hn Hall].
  destruct (N.eq_dec k n) as [-> | Hne]; [done|].
  apply (IH (N.succ n) Hall). lia.
Qed.

Lemma fourDigits_basic_plane : allFrom fourDigits (N.to_nat 65520) 16 = true.
Proof. vm_compute. reflexivity. Qed.

(** X21: the directive of a code point from U+0010 to U+FFFF carries the code
    point as exactly four lower-case hexadecimal digits, which read back as
    the code point. *)
Theorem writeDeclaration_four_digits (char : Z) (replace w : bytes) :
  0x10 <= char <= 0xFFFF →
  writeDeclaration char replace w
  = Done tt (w ++ B "\DeclareUnicodeCharacter{" ++ hexField char
               ++ B "}{" ++ replace ++ B "}" ++ [LF])
  ∧ length (hexField char) = 4%nat
  ∧ hexValue (hexField char) = Some (Z.to_N char).
Proof.
  intros Hc. split.
  - rewrite writeDeclaration_basic_plane by done. unfold directive, hexField.
    by rewrite <- !app_assoc.
  - pose proof (allFrom_spec _ _ _ fourDigits_basic_plane (Z.to_N char) ltac:(lia)) as H.
    unfold fourDigits in H. rewrite Z2N.id in H by lia.
    apply andb_true_iff in H as [Hl Hv].
    apply Nat.eqb_eq in Hl. by apply bool_decide_eq_true in Hv.
Qed.

Lemma writeDeclaration_four_digits_witness :
  writeDeclaration 0x20AC (B "\euro") []
  = Done tt (B "\DeclareUnicodeCharacter{20ac}{\euro}" ++ [LF])
  ∧ length (hexField 0x20AC) = 4%nat
  ∧ hexValue (hexField 0x20AC) = Some (Z.to_N 0x20AC).
Proof. apply (writeDeclaration_four_digits 0x20AC (B "\euro") []). lia. Defined.

(** ** More on text nodes and code spans *)

Lemma guardedFrom_guarded (l : bytes) : guardedFrom x00 l = true → guarded l.
Proof.
  intros H i c Hi Hc. pose proof (guardedFrom_spec _ _ H _ _ Hi Hc) as Hp.
  destruct i as [|j]; [done|]. by exists j.
Qed.

(** X22: a text node that is not raw is written through the escaping engine,
    followed by the hard break, or by a newline for a soft break: in what
    the handler writes every special byte stands after a backslash.  A raw
    text node is written as it is, and no line break after it. *)
Theorem renderText_guarded (source : bytes) (Segment_ : Segment)
    (raw soft hard : bool) (cs : list Node) (parent next : option Node) (w : bytes) :
  ∃ out,
    renderText source
      (mkCursor (mkNode (Text Segment_ raw soft hard) cs) parent next) true w
    = Done (WalkContinue, None) (w ++ out)
    ∧ (raw = false → guarded out
         ∧ out = escaped (Value Segment_ source)
                 ++ (if hard then hardBreak else if soft then [LF] else []))
    ∧ (raw = true → out = Value Segment_ source).
Proof.
  unfold renderText. cbn [negb payload node].
  destruct raw.
  - exists (Value Segment_ source). split; [by run|]. by split.
  - exists (escaped (Value Segment_ source)
            ++ (if hard then hardBreak else if soft then [LF] else [])).
    split; [|split; [|done]].
    + destruct hard, soft; run; rewrite escapeLaTeX_escaped; cbv beta iota;
        by rewrite <- ?app_assoc, ?app_nil_r.
    + intros _. split; [|done]. apply guarded_app; [apply escaped_guarded|].
      apply guardedFrom_guarded. by destruct hard, soft.
Qed.

Lemma codeSpanChildren_panics (source : bytes) (cs : list Node) :
  ¬ Forall isText cs → ∀ w, codeSpanChildren source cs w = Panicked TypeAssertion.
Proof.
  induction cs as [|c cs IH]; intros Hn w.
  - exfalso. apply Hn. constructor.
  - cbn [codeSpanChildren].
    destruct (payload c) eqn:Hp; try reflexivity.
    assert (Hcs : ¬ Forall isText cs).
    { intros H. apply Hn. constructor; [|done]. unfold isText. by rewrite Hp. }
    unfold bind.
    destruct (GoBytes.HasSuffix _ _); run; rewrite escapeLaTeX_escaped; cbv beta iota;
      by apply IH.
Qed.

(** X23: the handler of code spans returns exactly on the code spans whose
    children are all text nodes; a child of another type makes the type
    assertion of the handler panic. *)
Theorem renderCodeSpan_returns_iff (source : bytes) (cs : list Node)
    (parent next : option Node) (w : bytes) :
  (Forall isText cs →
     ∃ out, renderCodeSpan source (mkCursor (mkNode CodeSpan cs) parent next) true w
            = Done (WalkSkipChildren, None) (w ++ out))
  ∧ (¬ Forall isText cs →
     renderCodeSpan source (mkCursor (mkNode CodeSpan cs) parent next) true w
     = Panicked TypeAssertion).
Proof.
  unfold renderCodeSpan. cbn [negb node children]. split.
  - intros Hcs.
    destruct (Total_codeSpanChildren source cs Hcs (w ++ codeSpanStart)) as ([] & w' & Hw).
    destruct (Appends_codeSpanChildren source cs _ _ _ Hw) as (o & -> & _).
    exists (codeSpanStart ++ o). run. rewrite Hw. by rewrite <- app_assoc.
  - intros Hcs. run. by rewrite codeSpanChildren_panics.
Qed.

Lemma renderCodeSpan_returns_iff_witness :
  (∃ out, renderCodeSpan (B "a")
            (mkCursor (mkNode CodeSpan [mkNode (Text (mkSegment 0 1 0) false false false) []])
                      None None) true []
          = Done (WalkSkipChildren, None) ([] ++ out))
  ∧ renderCodeSpan (B "a")
      (mkCursor (mkNode CodeSpan [mkNode (Emphasis 1) []]) None None) true []
    = Panicked TypeAssertion.
Proof.
  split.
  - apply (renderCodeSpan_returns_iff (B "a")
             [mkNode (Text (mkSegment 0 1 0) false false false) []] None None []).
    repeat constructor.
  - apply (renderCodeSpan_returns_iff (B "a") [mkNode (Emphasis 1) []] None None []).
    intros H. inversion H as [|c l Hc _]; subst. exact Hc.
Defined.

(** ** More on the constructor *)

(** X24: [NewRenderer] starts from the zero configuration and applies the
    options in order of appearance, so the renderer of a list of options
    that ends in an option is this option applied to the renderer of the
    options before it; the option of a field, given last, decides the field
    and leaves the five other fields as they were. *)
Theorem NewRenderer_order (options : list Option) (option : Option) :
  NewRenderer [] = mkRenderer 0 false None false None false
  ∧ NewRenderer (options ++ [option]) = option (NewRenderer options)
  ∧ (∀ v, NewRenderer (options ++ [WithHeadingLevelOffset v])
          = mkRenderer v (NoHeadingNumbering (NewRenderer options))
              (Preamble (NewRenderer options)) (Unsafe (NewRenderer options))
              (DeclareUnicode (NewRenderer options)) (makeTitle (NewRenderer options)))
  ∧ (∀ v, NewRenderer (options ++ [WithNoHeadingNumbering v])
          = mkRenderer (HeadingLevelOffset (NewRenderer options)) v
              (Preamble (NewRenderer options)) (Unsafe (NewRenderer options))
              (DeclareUnicode (NewRenderer options)) (makeTitle (NewRenderer options)))
  ∧ (∀ v, NewRenderer (options ++ [WithPreamble v])
          = mkRenderer (HeadingLevelOffset (NewRenderer options))
              (NoHeadingNumbering (NewRenderer options)) v
              (Unsafe (NewRenderer options))
              (DeclareUnicode (NewRenderer options)) (makeTitle (NewRenderer options)))
  ∧ (∀ v, NewRenderer (options ++ [WithRenderUnsafeElements v])
          = mkRenderer (HeadingLevelOffset (NewRenderer options))
              (NoHeadingNumbering (NewRenderer options))
              (Preamble (NewRenderer options)) v
              (DeclareUnicode (NewRenderer options)) (makeTitle (NewRenderer options)))
  ∧ (∀ v, NewRenderer (options ++ [WithUnicodeCharactersMapping v])
          = mkRenderer (HeadingLevelOffset (NewRenderer options))
              (NoHeadingNumbering (NewRenderer options))
              (Preamble (NewRenderer options)) (Unsafe (NewRenderer options))
              v (makeTitle (NewRenderer options)))
  ∧ (∀ v, NewRenderer (options ++ [WithMakeTitle v])
          = mkRenderer (HeadingLevelOffset (NewRenderer options))
              (NoHeadingNumbering (NewRenderer options))
              (Preamble (NewRenderer options)) (Unsafe (NewRenderer options))
              (DeclareUnicode (NewRenderer options)) v).
Proof.
  assert (H : ∀ o, NewRenderer (options ++ [o]) = o (NewRenderer options)).
  { intros o. unfold NewRenderer. by rewrite fold_left_app. }
  split; [done|]. split; [apply H|].
  repeat split; intros v; by rewrite H.
Qed.

(** ** The other container nodes *)

(** The walk of a node whose handler goes on both times: what the handler
    writes on entering, the renderings of the children, what the handler
    writes on leaving. *)
Lemma walkHelper_brackets (ext : Extern) (r : Renderer) (source : bytes)
    (p : Payload) (cs : list Node) (parent : Node) (next : option Node)
    (o1 o3 : bytes) (w : bytes) :
  p ≠ Document → nodeOK r p cs →
  Forall (renderable r) cs → Forall documentFree cs →
  dispatch ext r source (mkCursor (mkNode p cs) (Some parent) next) true []
    = Done (WalkContinue, None) o1 →
  dispatch ext r source (mkCursor (mkNode p cs) (Some parent) next) false []
    = Done (WalkContinue, None) o3 →
  walkHelper (dispatch ext r source) (Some parent) (mkNode p cs) next w
  = Done (WalkContinue, None)
      (w ++ o1
         ++ latexChildren (latex (dispatch ext r source) (Some (mkNode p cs))) cs
         ++ o3).
Proof.
  intros Hp Hok Hcs Hfs H1 H3.
  rewrite walkHelper_written; [|by constructor..].
  rewrite latex_unfold.
  by rewrite (written_Done _ _ _ H1), (written_Done _ _ _ H3), (skips_Done _ _ _ H1).
Qed.

(** X25: a paragraph is rendered between its two comments, with a newline
    before its text unless its parent is a list or a list item, and a
    newline after its text.  The handler asks the kind of the parent
    without a nil check: a render pass that starts at a paragraph panics on
    entering it. *)
Theorem walkHelper_Paragraph (ext : Extern) (r : Renderer) (source : bytes)
    (cs : list Node) (parent : Node) (next : option Node) (w : bytes) :
  Render ext r source (mkNode Paragraph cs) = Panicked NilDereference
  ∧ (Forall (renderable r) cs → Forall documentFree cs →
     walkHelper (dispatch ext r source) (Some parent) (mkNode Paragraph cs) next w
     = Done (WalkContinue, None)
         (w ++ (B "% goldmark-latex: paragraph start (type: *ast.Paragraph)" ++ [LF])
            ++ (if bool_decide (Kind parent = KindList ∨ Kind parent = KindListItem)
                then [] else [LF])
            ++ latexChildren (latex (dispatch ext r source) (Some (mkNode Paragraph cs))) cs
            ++ [LF] ++ (B "% goldmark-latex: paragraph end" ++ [LF]))).
Proof.
  split; [reflexivity|]. intros Hcs Hfs.
  assert (H1 : dispatch ext r source
                 (mkCursor (mkNode Paragraph cs) (Some parent) next) true []
               = Done (WalkContinue, None)
                   ((B "% goldmark-latex: paragraph start (type: *ast.Paragraph)" ++ [LF])
                    ++ (if bool_decide (Kind parent = KindList ∨ Kind parent = KindListItem)
                        then [] else [LF]))).
  { unfold dispatch. cbn [Kind payload node RegisterFuncs].
    unfold renderParagraph. cbn [Parent]. fold (Kind parent).
    destruct (decide (Kind parent = KindList)) as [Hl|Hl];
      destruct (decide (Kind parent = KindListItem)) as [Hi|Hi].
    - congruence.
    - rewrite (bool_decide_true (_ ∨ _)) by (by left).
      rewrite (bool_decide_false (_ ≠ KindList)) by (intros H; by apply H).
      cbn [andb]. run. by rewrite app_nil_r.
    - rewrite (bool_decide_true (_ ∨ _)) by (by right).
      rewrite (bool_decide_false (_ ≠ KindListItem)) by (intros H; by apply H).
      rewrite andb_false_r. run. by rewrite app_nil_r.
    - rewrite (bool_decide_false (_ ∨ _)) by (by intros [|]).
      rewrite !bool_decide_true by done. cbn [andb]. run. done. }
  rewrite (walkHelper_brackets ext r source Paragraph cs parent next _
             ([LF] ++ (B "% goldmark-latex: paragraph end" ++ [LF])) w
             ltac:(done) I Hcs Hfs H1 eq_refl).
  by rewrite <- ?app_assoc.
Qed.

Lemma walkHelper_Paragraph_witness :
  walkHelper (dispatch (mkExtern [] (λ r, r) (λ _, false)) zeroRenderer (B "a"))
    (Some (mkNode ListItem []))
    (mkNode Paragraph [mkNode (Text (mkSegment 0 1 0) false false false) []]) None []
  = Done (WalkContinue, None)
      ((B "% goldmark-latex: paragraph start (type: *ast.Paragraph)" ++ [LF])
       ++ B "a" ++ [LF] ++ (B "% goldmark-latex: paragraph end" ++ [LF])).
Proof.
  destruct (walkHelper_Paragraph (mkExtern [] (λ r, r) (λ _, false)) zeroRenderer (B "a")
              [mkNode (Text (mkSegment 0 1 0) false false false) []]
              (mkNode ListItem []) None []) as [_ H].
  rewrite H.
  - reflexivity.
  - repeat constructor.
  - repeat constructor; done.
Defined.

(** X26: emphasis is rendered as a command around its text: [\textbf{] for
    the level 2, [\emph{] for the level 3 and [\textit{] for every other
    level, then the renderings of the children and the closing brace. *)
Theorem walkHelper_Emphasis (ext : Extern) (r : Renderer) (source : bytes)
    (Level : Z) (cs : list Node) (parent : Node) (next : option Node) (w : bytes) :
  Forall (renderable r) cs → Forall documentFree cs →
  walkHelper (dispatch ext r source) (Some parent) (mkNode (Emphasis Level) cs) next w
  = Done (WalkContinue, None)
      (w ++ (if bool_decide (Level = 2) then B "\textbf{"
             else if bool_decide (Level = 3) then B "\emph{"
             else B "\textit{")
         ++ latexChildren (latex (dispatch ext r source)
                             (Some (mkNode (Emphasis Level) cs))) cs
         ++ B "}").
Proof.
  intros Hcs Hfs.
  apply walkHelper_brackets; try done.
  unfold dispatch. cbn [Kind payload node RegisterFuncs].
  unfold renderEmphasis. cbn [payload node].
  destruct (Z.eqb_spec Level 2) as [->|H2].
  - by rewrite bool_decide_true.
  - rewrite (bool_decide_false (Level = 2)) by done.
    destruct (Z.eqb_spec Level 3) as [->|H3].
    + by rewrite bool_decide_true.
    + by rewrite (bool_decide_false (Level = 3)).
Qed.

Lemma walkHelper_Emphasis_witness :
  walkHelper (dispatch (mkExtern [] (λ r, r) (λ _, false)) zeroRenderer (B "a"))
    (Some (mkNode Paragraph []))
    (mkNode (Emphasis 1) [mkNode (Text (mkSegment 0 1 0) false false false) []]) None []
  = Done (WalkContinue, None) (B "\textit{a}").
Proof.
  rewrite walkHelper_Emphasis.
  - reflexivity.
  - repeat constructor.
  - repeat constructor; done.
Defined.

(** X27: a list item is rendered as the item command, the renderings of its
    children and a newline.  A text block writes nothing of its own but one
    newline after its children, and only when it has a child and is not the
    last child of its parent. *)
Theorem walkHelper_ListItem (ext : Extern) (r : Renderer) (source : bytes)
    (cs : list Node) (parent : Node) (next : option Node) (w : bytes) :
  Forall (renderable r) cs → Forall documentFree cs →
  walkHelper (dispatch ext r source) (Some parent) (mkNode ListItem cs) next w
  = Done (WalkContinue, None)
      (w ++ B "\item~ "
         ++ latexChildren (latex (dispatch ext r source) (Some (mkNode ListItem cs))) cs
         ++ [LF])
  ∧ walkHelper (dispatch ext r source) (Some parent) (mkNode TextBlock cs) next w
    = Done (WalkContinue, None)
        (w ++ latexChildren (latex (dispatch ext r source) (Some (mkNode TextBlock cs))) cs
           ++ (match next, cs with Some _, _ :: _ => [LF] | _, _ => [] end)).
Proof.
  intros Hcs Hfs. split.
  - by apply walkHelper_brackets.
  - assert (H3 : dispatch ext r source
                   (mkCursor (mkNode TextBlock cs) (Some parent) next) false []
                 = Done (WalkContinue, None)
                     (match next, cs with Some _, _ :: _ => [LF] | _, _ => [] end)).
    { unfold dispatch. cbn [Kind payload node RegisterFuncs].
      unfold renderTextBlock, FirstChild. cbn [negb NextSibling node children].
      by destruct next, cs. }
    by rewrite (walkHelper_brackets ext r source TextBlock cs parent next [] _ w
                  ltac:(done) I Hcs Hfs eq_refl H3).
Qed.

Lemma walkHelper_ListItem_witness :
  walkHelper (dispatch (mkExtern [] (λ r, r) (λ _, false)) zeroRenderer (B "a"))
    (Some (mkNode (List_ x2d) []))
    (mkNode ListItem [mkNode TextBlock [mkNode (Text (mkSegment 0 1 0) false false false) []]])
    None []
  = Done (WalkContinue, None) (B "\item~ a" ++ [LF]).
Proof.
  destruct (walkHelper_ListItem (mkExtern [] (λ r, r) (λ _, false)) zeroRenderer (B "a")
              [mkNode TextBlock [mkNode (Text (mkSegment 0 1 0) false false false) []]]
              (mkNode (List_ x2d) []) None []) as [H _].
  - repeat constructor.
  - repeat constructor; done.
  - rewrite H. reflexivity.
Defined.

(** X28: both kinds of code block are rendered as one [minted] environment:
    the start comment, the begin command with its argument, the lines of
    the block as [writeRawLines] writes them, the end command and the end
    comment. *)
Theorem walkHelper_CodeBlock (ext : Extern) (r : Renderer) (source : bytes)
    (Info : option Segment) (lines : list Segment) (parent : Node)
    (next : option Node) (w : bytes) :
  walkHelper (dispatch ext r source) (Some parent) (mkNode (CodeBlock lines) []) next w
  = Done (WalkContinue, None)
      (w ++ (B "% goldmark-latex: code block start" ++ [LF])
         ++ (B "\begin{minted}{go}" ++ [LF]) ++ [LF]
         ++ flat_map (λ line, rawLine (Unsafe r) (Value line source)) lines
         ++ (B "\end{minted}" ++ [LF])
         ++ (B "% goldmark-latex: code block end" ++ [LF]))
  ∧ walkHelper (dispatch ext r source) (Some parent)
      (mkNode (FencedCodeBlock Info lines) []) next w
    = Done (WalkContinue, None)
        (w ++ (B "% goldmark-latex: code fenced block start" ++ [LF])
           ++ B "\begin{minted}" ++ fencedArgument Info source ++ [LF]
           ++ flat_map (λ line, rawLine (Unsafe r) (Value line source)) lines
           ++ (B "\end{minted}" ++ [LF])
           ++ (B "% goldmark-latex: code fenced block end" ++ [LF])).
Proof.
  split.
  - assert (H1 : dispatch ext r source
                   (mkCursor (mkNode (CodeBlock lines) []) (Some parent) next) true []
                 = Done (WalkContinue, None)
                     ((B "% goldmark-latex: code block start" ++ [LF])
                      ++ (B "\begin{minted}{go}" ++ [LF]) ++ [LF]
                      ++ flat_map (λ line, rawLine (Unsafe r) (Value line source)) lines)).
    { unfold dispatch. cbn [Kind payload node RegisterFuncs].
      unfold renderCodeBlock, writeRawLines. cbn [Lines payload node]. run.
      rewrite writeRawLinesLoop_rawLine. by rewrite <- ?app_assoc. }
    rewrite (walkHelper_brackets ext r source (CodeBlock lines) [] parent next _
               ((B "\end{minted}" ++ [LF])
                ++ (B "% goldmark-latex: code block end" ++ [LF])) w
               ltac:(done) I ltac:(constructor) ltac:(constructor) H1 eq_refl).
    cbn [latexChildren app]. by rewrite <- ?app_assoc.
  - assert (H1 : dispatch ext r source
                   (mkCursor (mkNode (FencedCodeBlock Info lines) []) (Some parent) next)
                   true []
                 = Done (WalkContinue, None)
                     ((B "% goldmark-latex: code fenced block start" ++ [LF])
                      ++ B "\begin{minted}" ++ fencedArgument Info source ++ [LF]
                      ++ flat_map (λ line, rawLine (Unsafe r) (Value line source)) lines)).
    { unfold dispatch. cbn [Kind payload node RegisterFuncs].
      by rewrite renderFencedCodeBlock_enter. }
    rewrite (walkHelper_brackets ext r source (FencedCodeBlock Info lines) [] parent next _
               ((B "\end{minted}" ++ [LF])
                ++ (B "% goldmark-latex: code fenced block end" ++ [LF])) w
               ltac:(done) I ltac:(constructor) ltac:(constructor) H1 eq_refl).
    cbn [latexChildren app]. by rewrite <- ?app_assoc.
Qed.

(** X29: a string node that is neither code nor raw is written through the
    escaping engine, so every special byte written stands after a
    backslash; a string node that is code or raw is written as it is. *)
Theorem renderString_guarded (source Value_ : bytes) (code raw : bool)
    (cs : list Node) (parent next : option Node) (w : bytes) :
  ∃ out,
    renderString source
      (mkCursor (mkNode (String_ Value_ code raw) cs) parent next) true w
    = Done (WalkContinue, None) (w ++ out)
    ∧ (code = false → raw = false → out = escaped Value_ ∧ guarded out)
    ∧ (code = true ∨ raw = true → out = Value_).
Proof.
  unfold renderString. cbn [negb payload node].
  destruct code, raw; cbn [orb].
  1-3: exists Value_; split; [by run|]; split; [done | by intros _].
  exists (escaped Value_). split; [|split].
  - run. by rewrite escapeLaTeX_escaped.
  - intros _ _. split; [done | apply escaped_guarded].
  - by intros [|].
Qed.

(** X30: the walk of a heading whose shifted level stays below 6 writes the
    start comment, the command of its table row, the renderings of the
    children, the closing brace with a newline and the end comment; the
    command of the last row, [\textbf{], is followed by a newline. *)
Theorem walkHelper_Heading (ext : Extern) (r : Renderer) (source : bytes)
    (Level : Z) (cs : list Node) (parent : Node) (next : option Node) (w : bytes) :
  - 2 ^ 32 <= HeadingLevelOffset r <= 2 ^ 32 → - 2 ^ 32 <= Level <= 2 ^ 32 →
  Level - 1 + HeadingLevelOffset r <= 5 →
  Forall (renderable r) cs → Forall documentFree cs →
  ∃ row start,
    headingTable !! Z.to_nat (Z.max 0 (Level - 1 + HeadingLevelOffset r)) = Some row
    ∧ row !! Z.to_nat (bool2int (NoHeadingNumbering r)) = Some start
    ∧ walkHelper (dispatch ext r source) (Some parent) (mkNode (Heading Level) cs) next w
      = Done (WalkContinue, None)
          (w ++ (B "% goldmark-latex: heading start - level "
                 ++ GoFmt.d (Z.max 0 (Level - 1 + HeadingLevelOffset r))
                 ++ B ", start: " ++ GoFmt.v start ++ [LF])
             ++ start
             ++ (if Z.max 0 (Level - 1 + HeadingLevelOffset r) >=? 5 then [LF] else [])
             ++ latexChildren (latex (dispatch ext r source)
                                 (Some (mkNode (Heading Level) cs))) cs
             ++ B "}" ++ [LF] ++ (B "% goldmark-latex: heading end" ++ [LF])).
Proof.
  intros Ho Hl Hle Hcs Hfs.
  destruct (renderHeading_in_table r source Level cs (Some parent) next [] Ho Hl Hle)
    as (row & start & Hhl & Hrow & Hstart & Hout).
  assert (He : effectiveLevel Level (HeadingLevelOffset r)
               = Z.max 0 (Level - 1 + HeadingLevelOffset r))
    by (unfold effectiveLevel, clamp; lia).
  rewrite He in Hrow, Hout. exists row, start. split; [done|]. split; [done|].
  assert (Hok : nodeOK r (Heading Level) cs).
  { cbn [nodeOK]. rewrite Hhl, He. lia. }
  rewrite (walkHelper_brackets ext r source (Heading Level) cs parent next _
             (B "}" ++ [LF] ++ (B "% goldmark-latex: heading end" ++ [LF])) w
             ltac:(done) Hok Hcs Hfs Hout eq_refl).
  by rewrite <- ?app_assoc.
Qed.

Lemma walkHelper_Heading_witness :
  ∃ row start,
    headingTable !! Z.to_nat (Z.max 0 (1 - 1 + HeadingLevelOffset zeroRenderer)) = Some row
    ∧ row !! Z.to_nat (bool2int (NoHeadingNumbering zeroRenderer)) = Some start
    ∧ walkHelper (dispatch (mkExtern [] (λ r, r) (λ _, false)) zeroRenderer (B "a"))
        (Some (mkNode Document []))
        (mkNode (Heading 1) [mkNode (Text (mkSegment 0 1 0) false false false) []]) None []
      = Done (WalkContinue, None)
          ([] ++ (B "% goldmark-latex: heading start - level "
                 ++ GoFmt.d (Z.max 0 (1 - 1 + HeadingLevelOffset zeroRenderer))
                 ++ B ", start: " ++ GoFmt.v start ++ [LF])
             ++ start
             ++ (if Z.max 0 (1 - 1 + HeadingLevelOffset zeroRenderer) >=? 5 then [LF] else [])
             ++ latexChildren
                  (latex (dispatch (mkExtern [] (λ r, r) (λ _, false)) zeroRenderer (B "a"))
                     (Some (mkNode (Heading 1)
                              [mkNode (Text (mkSegment 0 1 0) false false false) []])))
                  [mkNode (Text (mkSegment 0 1 0) false false false) []]
             ++ B "}" ++ [LF] ++ (B "% goldmark-latex: heading end" ++ [LF])).
Proof.
  apply walkHelper_Heading.
  - cbn. pow2. lia.
  - pow2. lia.
  - cbn. lia.
  - repeat constructor.
  - repeat constructor; done.
Defined.
